(** * update.py: the release updater, embedded and verified

    The script keeps the directory [frp] in step with the latest release
    of a GitHub repository.  Everything it does is a sequence of file
    system calls, two HTTP requests and log lines, so the embedding is a
    state-and-exception monad over a small POSIX-like file system:

    - a file system is a tree of directories (ordered lists of named
      children, the order being the one [os.listdir] reports) and regular
      files, without links;
    - a Python path string is the list of its [/]-separated components,
      the slash at the head of an absolute path being one of them,
      resolved against the tree one component at a time, the way the
      kernel does it;
    - a [str] is its UTF-8 encoding;
    - an exception leaves the file system as it was when it was raised,
      so a failed run can be inspected afterwards. *)

From Stdlib Require Import String Ascii List Bool Arith.
Import ListNotations.
Local Open Scope string_scope.
Local Open Scope list_scope.

Set Implicit Arguments.

(* string concatenation, kept apart from list append *)
Infix "+++" := String.append (right associativity, at level 60).
Set Warnings "-register-all".

(** ** Exceptions *)

Inductive exn : Type :=
| FileNotFoundError
| FileExistsError
| NotADirectoryError
| IsADirectoryError
| OSError_ENOTEMPTY      (* OSError: [Errno 39] Directory not empty *)
| OSError_EINVAL         (* OSError: [Errno 22] Invalid argument    *)
| OSError_EBUSY          (* OSError: [Errno 16] Device or resource busy *)
| UnicodeDecodeError
| ReadError              (* tarfile.ReadError; EOFError of a cut-off gzip stream *)
| RequestException       (* requests.exceptions.*, raise_for_status *)
| InvalidVersion.        (* packaging.version.InvalidVersion *)

(** ** Archives

    A [.tar.gz] file is modelled by the members that can be read from it,
    in order, and a flag telling whether the stream is damaged after the
    last of them.  Members are directories and regular files: links,
    devices and fifos are not modelled, so what is proved of "an archive"
    is proved of the archives made of directories and regular files.  A
    member name is a path of any shape: it may climb with [..] and it may
    be absolute. *)

Inductive comp : Type :=
| Up                (* ".." *)
| Cur               (* "." or an empty component *)
| Name (n : string)
| Root.             (* the slash at the head of an absolute path *)

Definition rawpath := list comp.

Inductive mkind : Type :=
| MDir
| MFile (data : string).

Record member : Type := Member { m_name : rawpath; m_kind : mkind }.

Record tarball : Type := Tarball { members : list member; damaged : bool }.

(** ** The file system tree *)

Inductive content : Type :=
| Raw (s : string)          (* any bytes that are not a gzip'ed tar *)
| TarGz (t : tarball).

Inductive node : Type :=
| File (c : content)
| Dir (entries : list (string * node)).

Definition path := list string.

Section Assoc.
Variable V : Type.

Fixpoint alookup (x : string) (es : list (string * V)) : option V :=
  match es with
  | [] => None
  | (y, v) :: es' => if String.eqb x y then Some v else alookup x es'
  end.

(* replaces the child in place, or appends a new one *)
Fixpoint ainsert (x : string) (v : V) (es : list (string * V))
  : list (string * V) :=
  match es with
  | [] => [(x, v)]
  | (y, u) :: es' =>
      if String.eqb x y then (x, v) :: es' else (y, u) :: ainsert x v es'
  end.

Fixpoint aremove (x : string) (es : list (string * V))
  : list (string * V) :=
  match es with
  | [] => []
  | (y, u) :: es' =>
      if String.eqb x y then aremove x es' else (y, u) :: aremove x es'
  end.
End Assoc.

Fixpoint fs_get (n : node) (p : path) : option node :=
  match p with
  | [] => Some n
  | x :: p' =>
      match n with
      | Dir es =>
          match alookup x es with
          | Some c => fs_get c p'
          | None => None
          end
      | File _ => None
      end
  end.

(** [fs_put n p v] sets ([v = Some _]) or unlinks ([v = None]) the child at
    [p]; the parent of [p] has to be an existing directory, and the root
    itself cannot be replaced. *)
Fixpoint fs_put (n : node) (p : path) (v : option node) : option node :=
  match p with
  | [] => None
  | x :: p' =>
      match n with
      | File _ => None
      | Dir es =>
          match p' with
          | [] =>
              Some (Dir (match v with
                         | Some c => ainsert x c es
                         | None => aremove x es
                         end))
          | _ :: _ =>
              match alookup x es with
              | Some c =>
                  match fs_put c p' v with
                  | Some c' => Some (Dir (ainsert x c' es))
                  | None => None
                  end
              | None => None
              end
          end
      end
  end.

Definition is_dir (r : node) (p : path) : bool :=
  match fs_get r p with Some (Dir _) => true | _ => false end.

Definition is_file (r : node) (p : path) : bool :=
  match fs_get r p with Some (File _) => true | _ => false end.

Definition present (r : node) (p : path) : bool :=
  match fs_get r p with Some _ => true | None => false end.

(** ** Path resolution

    [walk r cur cs] follows the components [cs] from the directory [cur]:
    every component is looked up in a directory that exists, [..] goes to
    the parent (the root is its own parent), and the slash of an absolute
    path starts again at the root, wherever [cur] is.  The last component
    need not exist. *)

Definition step (cur : path) (c : comp) : path :=
  match c with
  | Up => removelast cur
  | Cur => cur
  | Name n => cur ++ [n]
  | Root => []
  end.

Fixpoint walk (r : node) (cur : path) (cs : rawpath) : exn + path :=
  match cs with
  | [] => inr cur
  | Root :: cs' => walk r [] cs'
  | c :: cs' =>
      match fs_get r cur with
      | Some (Dir _) => walk r (step cur c) cs'
      | Some (File _) => inl NotADirectoryError
      | None => inl FileNotFoundError
      end
  end.

Fixpoint path_eqb (p q : path) : bool :=
  match p, q with
  | [], [] => true
  | x :: p', y :: q' => String.eqb x y && path_eqb p' q'
  | _, _ => false
  end.

Fixpoint is_prefix (p q : path) : bool :=
  match p, q with
  | [], _ => true
  | x :: p', y :: q' => String.eqb x y && is_prefix p' q'
  | _ :: _, [] => false
  end.

(** ** System calls on the tree

    Each call takes the root and the working directory and returns the new
    root or the exception Python raises (Unix behaviour). *)

Section Syscalls.
Variable cwd : path.

Definition put_or (e : exn) (r : node) (p : path) (v : option node)
  : exn + node :=
  match fs_put r p v with
  | Some r' => inr r'
  | None => inl e
  end.

(* os.path.exists *)
Definition os_path_exists (r : node) (raw : rawpath) : bool :=
  match walk r cwd raw with
  | inr p => present r p
  | inl _ => false
  end.

(* os.path.isdir *)
Definition os_path_isdir (r : node) (raw : rawpath) : bool :=
  match walk r cwd raw with
  | inr p => is_dir r p
  | inl _ => false
  end.

(* os.mkdir *)
Definition os_mkdir (r : node) (raw : rawpath) : exn + node :=
  match walk r cwd raw with
  | inl e => inl e
  | inr p =>
      match fs_get r p with
      | Some _ => inl FileExistsError
      | None => put_or FileNotFoundError r p (Some (Dir []))
      end
  end.

(* os.makedirs(raw, exist_ok=True): the missing leading directories are
   created from the left, then the leaf; an existing leaf is accepted
   when it is a directory. *)
Fixpoint makedirs_from (r : node) (done todo : rawpath) : exn + node :=
  match todo with
  | [] => inr r
  | [c] =>
      match os_mkdir r (done ++ [c]) with
      | inr r' => inr r'
      | inl e => if os_path_isdir r (done ++ [c]) then inr r else inl e
      end
  | c :: todo' =>
      let head := done ++ [c] in
      if os_path_exists r head then makedirs_from r head todo'
      else
        match os_mkdir r head with
        | inr r' => makedirs_from r' head todo'
        | inl e => inl e
        end
  end.

Definition os_makedirs (r : node) (raw : rawpath) : exn + node :=
  makedirs_from r [] raw.

(* os.listdir *)
Definition os_listdir (r : node) (raw : rawpath) : exn + list string :=
  match walk r cwd raw with
  | inl e => inl e
  | inr p =>
      match fs_get r p with
      | Some (Dir es) => inr (map fst es)
      | Some (File _) => inl NotADirectoryError
      | None => inl FileNotFoundError
      end
  end.

(* os.rmdir *)
Definition os_rmdir (r : node) (raw : rawpath) : exn + node :=
  match walk r cwd raw with
  | inl e => inl e
  | inr p =>
      match fs_get r p with
      | Some (Dir []) => put_or OSError_EBUSY r p None
      | Some (Dir (_ :: _)) => inl OSError_ENOTEMPTY
      | Some (File _) => inl NotADirectoryError
      | None => inl FileNotFoundError
      end
  end.

(* shutil.rmtree *)
Definition shutil_rmtree (r : node) (raw : rawpath) : exn + node :=
  match walk r cwd raw with
  | inl e => inl e
  | inr p =>
      match fs_get r p with
      | Some (Dir _) => put_or OSError_EBUSY r p None
      | Some (File _) => inl NotADirectoryError
      | None => inl FileNotFoundError
      end
  end.

(* os.rename, Linux: a file replaces a file, a directory replaces an
   empty directory, anything else that exists at the destination is an
   error; a directory cannot be moved below itself, and nothing can be
   moved onto a directory it lies in. *)
Definition os_rename (r : node) (src dst : rawpath) : exn + node :=
  match walk r cwd src with
  | inl e => inl e
  | inr ps =>
      match walk r cwd dst with
      | inl e => inl e
      | inr pd =>
          match fs_get r ps with
          | None => inl FileNotFoundError
          | Some ns =>
              if path_eqb ps pd then inr r
              else if is_prefix ps pd then inl OSError_EINVAL
              else if is_prefix pd ps then inl OSError_ENOTEMPTY
              else
                match ns, fs_get r pd with
                | File _, Some (Dir _) => inl IsADirectoryError
                | Dir _, Some (File _) => inl NotADirectoryError
                | Dir _, Some (Dir (_ :: _)) => inl OSError_ENOTEMPTY
                | _, _ =>
                    match fs_put r ps None with
                    | None => inl OSError_EBUSY
                    | Some r1 => put_or FileNotFoundError r1 pd (Some ns)
                    end
                end
          end
      end
  end.

(* open(raw, "w") / open(raw, "wb") followed by writing [c] in full *)
Definition write_file (r : node) (raw : rawpath) (c : content)
  : exn + node :=
  match walk r cwd raw with
  | inl e => inl e
  | inr p =>
      match fs_get r p with
      | Some (Dir _) => inl IsADirectoryError
      | _ => put_or FileNotFoundError r p (Some (File c))
      end
  end.

(* open(raw, "r") / open(raw, "rb") followed by reading everything *)
Definition read_file (r : node) (raw : rawpath) : exn + content :=
  match walk r cwd raw with
  | inl e => inl e
  | inr p =>
      match fs_get r p with
      | Some (File c) => inr c
      | Some (Dir _) => inl IsADirectoryError
      | None => inl FileNotFoundError
      end
  end.
End Syscalls.

(** ** The world and the monad of the script *)

Inductive level : Type := INFO | ERROR.

Record World : Type := mkWorld {
  root : node;                        (* the file system *)
  cwd : path;                         (* the working directory *)
  logs : list (level * string);       (* what the logger has printed *)
  requests : list string              (* the URLs fetched so far *)
}.

Inductive result (A : Type) : Type :=
| Ok (a : A) (w : World)
| Raise (e : exn) (w : World).
Arguments Raise {A} e w.

Definition M (A : Type) : Type := World -> result A.

Definition ret {A : Type} (a : A) : M A := fun w => Ok a w.

Definition bind {A B : Type} (c : M A) (k : A -> M B) : M B :=
  fun w =>
    match c w with
    | Ok a w' => k a w'
    | Raise e w' => Raise e w'
    end.

Definition raise {A : Type} (e : exn) : M A := fun w => Raise e w.

Declare Scope py_scope.
Delimit Scope py_scope with py.
Notation "x <- c ;; k" := (bind c (fun x => k))
  (at level 61, c at next level, right associativity) : py_scope.
Notation "c ;;; k" := (bind c (fun _ => k))
  (at level 61, right associativity) : py_scope.
Local Open Scope py_scope.

Definition final_world {A : Type} (x : result A) : World :=
  match x with
  | Ok _ w => w
  | Raise _ w => w
  end.

Definition set_root (w : World) (r : node) : World :=
  mkWorld r (cwd w) (logs w) (requests w).

(* a call that only reads the file system *)
Definition query {A : Type} (f : path -> node -> A) : M A :=
  fun w => Ok (f (cwd w) (root w)) w.

(* a call that reads the file system and may raise *)
Definition attempt {A : Type} (f : path -> node -> exn + A) : M A :=
  fun w =>
    match f (cwd w) (root w) with
    | inr a => Ok a w
    | inl e => Raise e w
    end.

(* a call that changes the file system or raises *)
Definition syscall (f : path -> node -> exn + node) : M unit :=
  fun w =>
    match f (cwd w) (root w) with
    | inr r' => Ok tt (set_root w r')
    | inl e => Raise e w
    end.

Definition logging (l : level) (msg : string) : M unit :=
  fun w => Ok tt (mkWorld (root w) (cwd w) (logs w ++ [(l, msg)]) (requests w)).

Definition record_request (url : string) : M unit :=
  fun w => Ok tt (mkWorld (root w) (cwd w) (logs w) (requests w ++ [url])).

(* for x in xs: body(x) *)
Fixpoint for_each {A : Type} (xs : list A) (body : A -> M unit) : M unit :=
  match xs with
  | [] => ret tt
  | x :: xs' => body x ;;; for_each xs' body
  end.

(** ** Path strings

    A path string is kept as the list of its components. *)

Definition comp_of_string (s : string) : comp :=
  if String.eqb s ".." then Up
  else if String.eqb s "." then Cur
  else if String.eqb s "" then Cur
  else Name s.

Definition string_of_comp (c : comp) : string :=
  match c with
  | Up => ".."
  | Cur => "."
  | Name n => n
  | Root => ""
  end.

Definition is_abs (p : rawpath) : bool :=
  match p with
  | Root :: _ => true
  | _ => false
  end.

(* os.path.join(a, b): an absolute b stands alone, a relative one is
   appended to a *)
Definition os_path_join (a b : rawpath) : rawpath :=
  if is_abs b then b else a ++ b.

Fixpoint string_of_path (p : rawpath) : string :=
  match p with
  | [] => ""
  | [Root] => "/"
  | [c] => string_of_comp c
  | c :: p' => string_of_comp c +++ "/" +++ string_of_path p'
  end.

(* f"{p}-temp": the suffix lands on the last component *)
Fixpoint with_suffix (p : rawpath) (suffix : string) : rawpath :=
  match p with
  | [] => [Name suffix]
  | [Root] => [Root; Name suffix]
  | [c] => [Name (string_of_comp c +++ suffix)]
  | c :: p' => c :: with_suffix p' suffix
  end.

(* os.path.basename: what follows the last slash *)
Fixpoint basename_from (acc s : string) : string :=
  match s with
  | EmptyString => acc
  | String c s' =>
      if Ascii.eqb c "/"%char then basename_from "" s'
      else basename_from (acc +++ String c "") s'
  end.

Definition os_path_basename (s : string) : string := basename_from "" s.

(** ** Text helpers *)

(* str.isspace on the ASCII range *)
Definition is_space (c : ascii) : bool :=
  let n := nat_of_ascii c in
  ((9 <=? n)%nat && (n <=? 13)%nat) || ((28 <=? n)%nat && (n <=? 32)%nat).

Fixpoint lstrip (s : string) : string :=
  match s with
  | EmptyString => EmptyString
  | String c s' => if is_space c then lstrip s' else s
  end.

Fixpoint rstrip (s : string) : string :=
  match s with
  | EmptyString => EmptyString
  | String c s' =>
      match rstrip s' with
      | EmptyString => if is_space c then EmptyString else String c EmptyString
      | t => String c t
      end
  end.

(* str.strip() *)
Definition strip (s : string) : string := rstrip (lstrip s).

(** ** Regular expressions, as far as the pattern needs them

    [re.match] succeeds when some prefix of the string belongs to the
    language of the pattern.  A [str] is kept as its UTF-8 encoding, one
    [ascii] for each byte, and the matcher follows the string one byte at
    a time through the derivatives of the pattern.  The characters the
    pattern spells out are ASCII, one byte each; [\d] on a [str] matches
    one decimal digit of any script (a character of the Unicode category
    Nd), which takes from one to four bytes. *)

Inductive regex : Type :=
| Void
| Eps
| Lit (c : ascii)
| Range (lo hi : nat)        (* one byte from lo to hi *)
| Digit                      (* \d *)
| Cat (r s : regex)
| Alt (r s : regex)
| Star (r : regex).

Definition Plus (r : regex) : regex := Cat r (Star r).   (* r+ *)
Definition Group (r : regex) : regex := r.               (* (r) *)

Fixpoint lit (s : string) : regex :=
  match s with
  | EmptyString => Eps
  | String c s' => Cat (Lit c) (lit s')
  end.

Definition in_range (lo hi : nat) (c : ascii) : bool :=
  let n := nat_of_ascii c in (lo <=? n)%nat && (n <=? hi)%nat.

(* the ASCII digits *)
Definition is_digit (c : ascii) : bool := in_range 48 57 c.

(* The decimal digits of Unicode 14.0, the character database of
   Python 3.11, in UTF-8.  A row stands for the characters whose encoding
   is the leading bytes of the row followed by one byte between its two
   bounds: ([217], 160, 169) is U+0660 to U+0669, the Arabic-Indic
   digits.  An interpreter with a later database has the digits of a few
   more scripts, each one more row; what is proved below goes through
   the rows one by one and asks only for the ASCII row to be there. *)
Definition decimal_digits : list (list nat * nat * nat) :=
  [ ([], 48, 57); ([217], 160, 169); ([219], 176, 185);
    ([223], 128, 137); ([224; 165], 166, 175); ([224; 167], 166, 175);
    ([224; 169], 166, 175); ([224; 171], 166, 175);
    ([224; 173], 166, 175); ([224; 175], 166, 175);
    ([224; 177], 166, 175); ([224; 179], 166, 175);
    ([224; 181], 166, 175); ([224; 183], 166, 175);
    ([224; 185], 144, 153); ([224; 187], 144, 153);
    ([224; 188], 160, 169); ([225; 129], 128, 137);
    ([225; 130], 144, 153); ([225; 159], 160, 169);
    ([225; 160], 144, 153); ([225; 165], 134, 143);
    ([225; 167], 144, 153); ([225; 170], 128, 137);
    ([225; 170], 144, 153); ([225; 173], 144, 153);
    ([225; 174], 176, 185); ([225; 177], 128, 137);
    ([225; 177], 144, 153); ([234; 152], 160, 169);
    ([234; 163], 144, 153); ([234; 164], 128, 137);
    ([234; 167], 144, 153); ([234; 167], 176, 185);
    ([234; 169], 144, 153); ([234; 175], 176, 185);
    ([239; 188], 144, 153); ([240; 144; 146], 160, 169);
    ([240; 144; 180], 176, 185); ([240; 145; 129], 166, 175);
    ([240; 145; 131], 176, 185); ([240; 145; 132], 182, 191);
    ([240; 145; 135], 144, 153); ([240; 145; 139], 176, 185);
    ([240; 145; 145], 144, 153); ([240; 145; 147], 144, 153);
    ([240; 145; 153], 144, 153); ([240; 145; 155], 128, 137);
    ([240; 145; 156], 176, 185); ([240; 145; 163], 160, 169);
    ([240; 145; 165], 144, 153); ([240; 145; 177], 144, 153);
    ([240; 145; 181], 144, 153); ([240; 145; 182], 160, 169);
    ([240; 150; 169], 160, 169); ([240; 150; 171], 128, 137);
    ([240; 150; 173], 144, 153); ([240; 157; 159], 142, 191);
    ([240; 158; 133], 128, 137); ([240; 158; 139], 176, 185);
    ([240; 158; 165], 144, 153); ([240; 159; 175], 176, 185) ].

(* [s] is the encoding of a character of the row *)
Fixpoint in_row (p : list nat) (lo hi : nat) (s : string) : bool :=
  match p, s with
  | [], String c EmptyString => in_range lo hi c
  | b :: p', String c s' =>
      Ascii.eqb c (ascii_of_nat b) && in_row p' lo hi s'
  | _, _ => false
  end.

(* [s] is the encoding of one decimal digit *)
Definition is_decimal (s : string) : bool :=
  existsb (fun row => match row with (p, lo, hi) => in_row p lo hi s end)
    decimal_digits.

Fixpoint bytes (p : list nat) : regex :=
  match p with
  | [] => Eps
  | b :: p' => Cat (Lit (ascii_of_nat b)) (bytes p')
  end.

(* what is left to read of a digit of the row after the byte [c] *)
Definition row_after (c : ascii) (row : list nat * nat * nat) : regex :=
  match row with
  | ([], lo, hi) => if in_range lo hi c then Eps else Void
  | (b :: p, lo, hi) =>
      if Ascii.eqb c (ascii_of_nat b) then Cat (bytes p) (Range lo hi)
      else Void
  end.

Definition alt (r s : regex) : regex :=
  match r, s with
  | Void, _ => s
  | _, Void => r
  | _, _ => Alt r s
  end.

Definition digit_after (c : ascii) : regex :=
  fold_right (fun row r => alt (row_after c row) r) Void decimal_digits.

Fixpoint nullable (r : regex) : bool :=
  match r with
  | Void => false
  | Eps => true
  | Lit _ => false
  | Range _ _ => false
  | Digit => false
  | Cat r1 r2 => nullable r1 && nullable r2
  | Alt r1 r2 => nullable r1 || nullable r2
  | Star _ => true
  end.

Fixpoint deriv (c : ascii) (r : regex) : regex :=
  match r with
  | Void => Void
  | Eps => Void
  | Lit d => if Ascii.eqb c d then Eps else Void
  | Range lo hi => if in_range lo hi c then Eps else Void
  | Digit => digit_after c
  | Cat r1 r2 =>
      if nullable r1 then Alt (Cat (deriv c r1) r2) (deriv c r2)
      else Cat (deriv c r1) r2
  | Alt r1 r2 => Alt (deriv c r1) (deriv c r2)
  | Star r1 => Cat (deriv c r1) (Star r1)
  end.

(* re.match(r, s) is not None *)
Fixpoint re_match (r : regex) (s : string) : bool :=
  nullable r ||
  match s with
  | EmptyString => false
  | String c s' => re_match (deriv c r) s'
  end.

(** ** Reading archives *)

(* tarfile.open(raw, "r:gz"): the first header is read on opening *)
Definition tarfile_open (raw : rawpath) : M tarball :=
  c <- attempt (fun cwd r => read_file cwd r raw) ;;
  match c with
  | Raw _ => raise ReadError
  | TarGz t =>
      match members t, damaged t with
      | [], true => raise ReadError
      | _, _ => ret t
      end
  end.

(* TarFile._extract_member: the upper directories are created when they
   are missing, then the member itself *)
Definition extract_member (base : rawpath) (m : member) (cwd : path) (r : node)
  : exn + node :=
  let targetpath := os_path_join base (m_name m) in
  let upperdirs := removelast targetpath in
  match
    match upperdirs with
    | [] => inr r
    | _ :: _ =>
        if os_path_exists cwd r upperdirs then inr r
        else os_makedirs cwd r upperdirs
    end
  with
  | inl e => inl e
  | inr r1 =>
      match m_kind m with
      | MFile data => write_file cwd r1 targetpath (Raw data)
      | MDir =>
          match os_mkdir cwd r1 targetpath with
          | inr r2 => inr r2
          | inl FileExistsError =>
              if os_path_isdir cwd r1 targetpath then inr r1
              else inl FileExistsError
          | inl e => inl e
          end
      end
  end.

(* TarFile.extractall(path=base, filter=filter) *)
Definition extractall (t : tarball) (base : rawpath)
  (filter : member -> rawpath -> option member) : M unit :=
  for_each (members t)
    (fun m =>
       match filter m base with
       | None => ret tt
       | Some tarinfo => syscall (extract_member base tarinfo)
       end) ;;;
  if damaged t then raise ReadError else ret tt.

(** ** The script *)

Definition GITHUB_REPO : string := "fatedier/frp".
Definition LOCAL_VERSION_FILE : rawpath := [Name "local_version.txt"].
Definition DOWNLOAD_DIR : rawpath := [Name "temp"].
Definition EXTRACT_DIR : rawpath := [Name "frp"].

(* r"frp_(\d+\.\d+\.\d+)_linux_amd64\.tar\.gz" *)
Definition ARCHIVE_NAME_PATTERN : regex :=
  Cat (lit "frp_")
    (Cat (Group (Cat (Plus Digit)
                   (Cat (Lit ".")
                      (Cat (Plus Digit) (Cat (Lit ".") (Plus Digit))))))
       (lit "_linux_amd64.tar.gz")).

Record Asset : Type := mkAsset {
  name : string;
  browser_download_url : string
}.

Record ReleaseInfo : Type := mkReleaseInfo {
  tag_name : string;
  assets : list Asset
}.

(** What the network answers: the release description behind a URL, if
    any, and for a download either an error status, the whole body, or a
    body that breaks off after some bytes were received. *)

Inductive response : Type :=
| HttpError
| HttpBody (c : content)
| HttpBroken (received : content).

Record Remote : Type := mkRemote {
  release_json : string -> option ReleaseInfo;
  asset_body : string -> response
}.

(* module level: os.makedirs(EXTRACT_DIR, exist_ok=True) *)
Definition module_init : M unit :=
  syscall (fun cwd r => os_makedirs cwd r EXTRACT_DIR).

Definition get_latest_release_info (net : Remote) (repo : string)
  : M ReleaseInfo :=
  let url := "https://api.github.com/repos/" +++ repo +++ "/releases/latest" in
  record_request url ;;;
  match release_json net url with
  | Some info => ret info
  | None => raise RequestException
  end.

(* open(file_path, "r") reads text.  The stored bytes are handed over as
   they are, which is what Python does with ASCII text free of carriage
   returns; on such text [strip] is str.strip.  Other bytes are not
   followed: a carriage return is read as a line feed, bytes that do not
   decode raise UnicodeDecodeError, and str.strip also removes the white
   space beyond ASCII. *)
Definition read_local_version (file_path : rawpath) : M (option string) :=
  b <- query (fun cwd r => os_path_exists cwd r file_path) ;;
  if negb b then ret None
  else
    c <- attempt (fun cwd r => read_file cwd r file_path) ;;
    match c with
    | Raw s => ret (Some (strip s))
    | TarGz _ => raise UnicodeDecodeError
    end.

Definition write_local_version (file_path : rawpath) (version : string)
  : M unit :=
  syscall (fun cwd r => write_file cwd r file_path (Raw version)).

Definition download_file (net : Remote) (url : string) (local_path : rawpath)
  : M unit :=
  record_request url ;;;
  match asset_body net url with
  | HttpError => raise RequestException
  | HttpBody c => syscall (fun cwd r => write_file cwd r local_path c)
  | HttpBroken c =>
      syscall (fun cwd r => write_file cwd r local_path c) ;;;
      raise RequestException
  end.

Definition extract_tar_gz (file_path extract_to : rawpath) : M unit :=
  tar <- tarfile_open file_path ;;
  let temp_extract_dir := os_path_join extract_to [Name "temp"] in
  syscall (fun cwd r => os_makedirs cwd r temp_extract_dir) ;;;
  extractall tar temp_extract_dir (fun tarinfo _ => Some tarinfo) ;;;
  listing <- attempt (fun cwd r => os_listdir cwd r temp_extract_dir) ;;
  for_each listing
    (fun member =>
       let member_path := os_path_join temp_extract_dir [Name member] in
       d <- query (fun cwd r => os_path_isdir cwd r member_path) ;;
       if d then
         items <- attempt (fun cwd r => os_listdir cwd r member_path) ;;
         for_each items
           (fun item =>
              syscall (fun cwd r =>
                         os_rename cwd r
                           (os_path_join member_path [Name item])
                           (os_path_join extract_to [Name item]))) ;;;
         syscall (fun cwd r => os_rmdir cwd r member_path)
       else ret tt) ;;;
  syscall (fun cwd r => os_rmdir cwd r temp_extract_dir).

Fixpoint find_asset_url (assets : list Asset) : option string :=
  match assets with
  | [] => None
  | asset :: rest =>
      if re_match ARCHIVE_NAME_PATTERN (name asset)
      then Some (browser_download_url asset)
      else find_asset_url rest
  end.

Section Main.
(** [packaging.version] is used as a black box: [parse] either raises
    [InvalidVersion] or yields a version, and versions are compared
    with [>]. *)
Variable Version : Type.
Variable parse : string -> option Version.
Variable version_gt : Version -> Version -> bool.
Variable net : Remote.

Definition version_parse (s : string) : M Version :=
  match parse s with
  | Some v => ret v
  | None => raise InvalidVersion
  end.

Definition main : M unit :=
  latest_release_info <- get_latest_release_info net GITHUB_REPO ;;
  let latest_version := tag_name latest_release_info in
  match find_asset_url (assets latest_release_info) with
  | None => logging ERROR "No matching asset found."
  | Some asset_url =>
      local_version <- read_local_version LOCAL_VERSION_FILE ;;
      stop <- match local_version with
              | None => ret false
              | Some lv =>
                  a <- version_parse lv ;;
                  b <- version_parse latest_version ;;
                  ret (version_gt a b)
              end ;;
      if stop : bool then logging INFO "No new version available"
      else
        logging INFO ("New version available: " +++ latest_version) ;;;
        let download_name := os_path_basename asset_url in
        let download_path :=
          os_path_join DOWNLOAD_DIR [comp_of_string download_name] in
        syscall (fun cwd r => os_makedirs cwd r DOWNLOAD_DIR) ;;;
        logging INFO ("Downloading " +++ asset_url +++ " to "
                      +++ string_of_path DOWNLOAD_DIR +++ "/" +++ download_name) ;;;
        download_file net asset_url download_path ;;;
        logging INFO ("Extracting " +++ string_of_path DOWNLOAD_DIR +++ "/"
                      +++ download_name +++ " to " +++ string_of_path EXTRACT_DIR) ;;;
        extract_tar_gz download_path EXTRACT_DIR ;;;
        let temp_extract_dir := with_suffix EXTRACT_DIR "-temp" in
        syscall (fun cwd r => os_makedirs cwd r temp_extract_dir) ;;;
        extract_tar_gz download_path temp_extract_dir ;;;
        e <- query (fun cwd r => os_path_exists cwd r EXTRACT_DIR) ;;
        (if e : bool then
           logging INFO ("Removing existing directory "
                         +++ string_of_path EXTRACT_DIR) ;;;
           syscall (fun cwd r => shutil_rmtree cwd r EXTRACT_DIR)
         else ret tt) ;;;
        logging INFO ("Renaming " +++ string_of_path temp_extract_dir
                      +++ " to " +++ string_of_path EXTRACT_DIR) ;;;
        syscall (fun cwd r => os_rename cwd r temp_extract_dir EXTRACT_DIR) ;;;
        logging INFO ("Updating local version to " +++ latest_version) ;;;
        write_local_version LOCAL_VERSION_FILE latest_version ;;;
        syscall (fun cwd r => shutil_rmtree cwd r DOWNLOAD_DIR) ;;;
        logging INFO "Update complete."
  end.

(* running the file: the module body, then [main()] *)
Definition script : M unit := module_init ;;; main.
End Main.

(** * Vocabulary of the statements *)

Unset Implicit Arguments.

(** ** Paths *)

(** Resolution is lexical as long as it succeeds: [norm cur raw] is where
    [walk] arrives, when it arrives. *)
Definition norm (cur : path) (raw : rawpath) : path := fold_left step raw cur.

(** Two paths diverge when neither lies on the way to the other. *)
Definition diverge (p q : path) : Prop :=
  is_prefix p q = false /\ is_prefix q p = false.

(** A raw path leaves the directory it starts in through [..] or through
    the slash of an absolute path, and in no other way. *)
Definition escapes (c : comp) : bool :=
  match c with Up | Root => true | _ => false end.

Definition no_escape (raw : rawpath) : bool :=
  forallb (fun c => negb (escapes c)) raw.

(** An archive every member name of which is relative and free of [..]. *)
Definition safe_tarball (t : tarball) : bool :=
  forallb (fun m => no_escape (m_name m)) (members t).

(** ** Text *)

(** Text that a file opened in text mode gives back as it was written:
    ASCII characters, none of them a carriage return. *)
Definition plain_char (c : ascii) : bool :=
  let n := nat_of_ascii c in (n <? 128)%nat && negb (n =? 13)%nat.

Fixpoint plain_text (s : string) : bool :=
  match s with
  | EmptyString => true
  | String c s' => plain_char c && plain_text s'
  end.

(** ** Changes of the file system *)

(** [inside b r r']: going from [r] to [r'] changed nothing outside the
    subtree at [b] and the directories leading to it. *)
Definition inside (b : path) (r r' : node) : Prop :=
  forall q, diverge b q -> fs_get r' q = fs_get r q.

(** [grows r r']: going from [r] to [r'] only added nodes or rewrote
    files: directories stayed directories and files stayed files. *)
Definition grows (r r' : node) : Prop :=
  forall q,
    (is_dir r q = true -> is_dir r' q = true) /\
    (is_file r q = true -> is_file r' q = true).

(** The scratch paths of the script, seen from the working directory [c]:
    the download directory, the candidate replacement and the staging
    directory inside the installation. *)
Definition scratch_gone (c : path) (r : node) : Prop :=
  fs_get r (c ++ ["temp"]) = None /\
  fs_get r (c ++ ["frp-temp"]) = None /\
  fs_get r (c ++ ["frp"; "temp"]) = None.

(** ** Runs *)

(** [wp c Q R w]: running [c] from [w] ends normally in a state satisfying
    [Q], or with an exception in a state satisfying [R]. *)
Definition wp {A : Type} (c : M A) (Q : A -> World -> Prop)
  (R : exn -> World -> Prop) (w : World) : Prop :=
  match c w with
  | Ok a w' => Q a w'
  | Raise e w' => R e w'
  end.

(** A computation that leaves the working directory alone, and one that
    leaves the whole file system alone. *)
Definition cwd_kept {A : Type} (c : M A) : Prop :=
  forall w, cwd (final_world (c w)) = cwd w.

Definition readonly {A : Type} (c : M A) : Prop :=
  forall w, root (final_world (c w)) = root w /\ cwd (final_world (c w)) = cwd w.

(** A computation that only appends to the log. *)
Definition logs_grow {A : Type} (c : M A) : Prop :=
  forall w, exists l, logs (final_world (c w)) = logs w ++ l.

(** A computation that sends nothing over the network. *)
Definition requests_kept {A : Type} (c : M A) : Prop :=
  forall w, requests (final_world (c w)) = requests w.

(** ** The two halves of [extract_tar_gz]

    Lines 67-70 put the archive into the staging directory, lines 72-81
    move the contents of its top-level directories one level up;
    [extract_tar_gz_phases] below shows that [extract_tar_gz] is the one
    followed by the other. *)

Definition stage (file_path extract_to : rawpath) : M unit :=
  tar <- tarfile_open file_path ;;
  let temp_extract_dir := os_path_join extract_to [Name "temp"] in
  syscall (fun cwd r => os_makedirs cwd r temp_extract_dir) ;;;
  extractall tar temp_extract_dir (fun tarinfo _ => Some tarinfo).

Definition unwrap (extract_to : rawpath) : M unit :=
  let temp_extract_dir := os_path_join extract_to [Name "temp"] in
  listing <- attempt (fun cwd r => os_listdir cwd r temp_extract_dir) ;;
  for_each listing
    (fun member =>
       let member_path := os_path_join temp_extract_dir [Name member] in
       d <- query (fun cwd r => os_path_isdir cwd r member_path) ;;
       if d then
         items <- attempt (fun cwd r => os_listdir cwd r member_path) ;;
         for_each items
           (fun item =>
              syscall (fun cwd r =>
                         os_rename cwd r
                           (os_path_join member_path [Name item])
                           (os_path_join extract_to [Name item]))) ;;;
         syscall (fun cwd r => os_rmdir cwd r member_path)
       else ret tt) ;;;
  syscall (fun cwd r => os_rmdir cwd r temp_extract_dir).

(** Every directory on the way from [cur] along [names] exists. *)
Fixpoint dirs_to (r : node) (cur : path) (names : list string) : Prop :=
  match names with
  | [] => True
  | x :: rest => is_dir r cur = true /\ dirs_to r (cur ++ [x]) rest
  end.

(** ** Archives of the usual shape

    One directory [d] at the top and regular files right below it, as the
    release archives are built: [d/], [d/x1], ..., [d/xn]. *)

Definition file_members (d : string) (files : list (string * string))
  : list member :=
  map (fun f => Member [Name d; Name (fst f)] (MFile (snd f))) files.

Definition flat_archive (d : string) (files : list (string * string))
  : tarball :=
  Tarball (Member [Name d] MDir :: file_members d files) false.

(* the same files as directory entries *)
Definition file_nodes (files : list (string * string))
  : list (string * node) :=
  map (fun f => (fst f, File (Raw (snd f)))) files.

(** ** Entries that take the place of others

    [os.rename] puts a file where there is nothing or a file, and a
    directory where there is nothing or an empty directory. *)

Definition replaces (n : node) (old : option node) : bool :=
  match n, old with
  | File _, Some (Dir _) => false
  | Dir _, Some (File _) => false
  | Dir _, Some (Dir (_ :: _)) => false
  | _, _ => true
  end.

Definition not_a_dir (old : option node) : bool :=
  match old with
  | Some (Dir _) => false
  | _ => true
  end.

(* [item] put at its name: in the place of the entry of that name, or
   after the last entry *)
Definition place (es : list (string * node)) (item : string * node)
  : list (string * node) :=
  ainsert (fst item) (snd item) es.

Definition place_all (items es : list (string * node))
  : list (string * node) :=
  fold_left place items es.

(** ** The archive naming convention *)

(** The language of a pattern. *)
Inductive lang : regex -> string -> Prop :=
| lang_eps : lang Eps ""
| lang_lit c : lang (Lit c) (String c "")
| lang_range lo hi c :
    in_range lo hi c = true -> lang (Range lo hi) (String c "")
| lang_digit d : is_decimal d = true -> lang Digit d
| lang_cat r1 r2 s1 s2 :
    lang r1 s1 -> lang r2 s2 -> lang (Cat r1 r2) (s1 +++ s2)
| lang_alt_l r1 r2 s : lang r1 s -> lang (Alt r1 r2) s
| lang_alt_r r1 r2 s : lang r2 s -> lang (Alt r1 r2) s
| lang_star_nil r : lang (Star r) ""
| lang_star_cons r s1 s2 :
    lang r s1 -> lang (Star r) s2 -> lang (Star r) (s1 +++ s2).

(* a non-empty run of decimal digits, of any script *)
Inductive numeral : string -> Prop :=
| numeral_one d : is_decimal d = true -> numeral d
| numeral_more d s : is_decimal d = true -> numeral s -> numeral (d +++ s).

(* a non-empty run of ASCII digits *)
Fixpoint all_digits (s : string) : bool :=
  match s with
  | EmptyString => true
  | String c s' => is_digit c && all_digits s'
  end.

Definition is_number (s : string) : bool :=
  match s with
  | EmptyString => false
  | String _ _ => all_digits s
  end.

(** A name that starts with
    [frp_<major>.<minor>.<patch>_linux_amd64.tar.gz], the three numbers
    being runs of decimal digits. *)
Definition conventional (n : string) : Prop :=
  exists major minor patch rest,
    numeral major /\ numeral minor /\ numeral patch /\
    n = "frp_" +++ major +++ "." +++ minor +++ "." +++ patch
        +++ "_linux_amd64.tar.gz" +++ rest.

(** * Concrete inputs *)

(** A stand-in for [packaging.version] on plain release numbers
    [[v]N(.N)*], enough to run the script on concrete inputs.  Every
    statement below that speaks of all inputs is proved for an arbitrary
    [parse] and [version_gt]. *)

Fixpoint digits_value (acc : nat) (s : string) : option nat :=
  match s with
  | EmptyString => Some acc
  | String ch s' =>
      if is_digit ch
      then digits_value (10 * acc + (nat_of_ascii ch - 48)) s'
      else None
  end.

Fixpoint split_dots (cur s : string) : list string :=
  match s with
  | EmptyString => [cur]
  | String ch s' =>
      if Ascii.eqb ch "."%char then cur :: split_dots "" s'
      else split_dots (cur +++ String ch "") s'
  end.

Fixpoint release_numbers (segs : list string) : option (list nat) :=
  match segs with
  | [] => Some []
  | seg :: rest =>
      match seg, digits_value 0 seg, release_numbers rest with
      | String _ _, Some n, Some ns => Some (n :: ns)
      | _, _, _ => None
      end
  end.

Definition release_parse (s : string) : option (list nat) :=
  match strip s with
  | String "v" s' => release_numbers (split_dots "" s')
  | s' => release_numbers (split_dots "" s')
  end.

(* releases compare as tuples, trailing zeros not counting *)
Fixpoint release_gt (a b : list nat) : bool :=
  match a, b with
  | [], _ => false
  | x :: a', [] => negb (forallb (Nat.eqb 0) a)
  | x :: a', y :: b' => (y <? x)%nat || ((x =? y)%nat && release_gt a' b')
  end.

Definition run (net : Remote) : M unit := script release_parse release_gt net.

(* the script is started in /srv, which holds [entries] *)
Definition site (entries : list (string * node)) : World :=
  mkWorld (Dir [("srv", Dir entries)]) ["srv"] [] [].

(* an archive waiting in /srv/dl next to an empty /srv/out *)
Definition dl_site (t : tarball) : World :=
  site [ ("dl", Dir [("p.tar.gz", File (TarGz t))]); ("out", Dir []) ].

Definition api_url : string :=
  "https://api.github.com/repos/fatedier/frp/releases/latest".

Definition asset_url_1_5_0 : string :=
  "https://github.com/fatedier/frp/releases/download/v1.5.0/frp_1.5.0_linux_amd64.tar.gz".

Definition frp_asset (v : string) : Asset :=
  mkAsset ("frp_" +++ v +++ "_linux_amd64.tar.gz")
    ("https://github.com/fatedier/frp/releases/download/v" +++ v
     +++ "/frp_" +++ v +++ "_linux_amd64.tar.gz").

(* a host with one release, answering every download with [body] *)
Definition server (tag : string) (assets : list Asset) (body : response)
  : Remote :=
  mkRemote (fun _ => Some (mkReleaseInfo tag assets)) (fun _ => body).

(* frp_1.5.0_linux_amd64/{frpc,frps} *)
Definition flat_pkg : tarball :=
  Tarball
    [ Member [Name "frp_1.5.0_linux_amd64"] MDir;
      Member [Name "frp_1.5.0_linux_amd64"; Name "frpc"] (MFile "frpc 1.5.0");
      Member [Name "frp_1.5.0_linux_amd64"; Name "frps"] (MFile "frps 1.5.0") ]
    false.

(* pkg-v<v>/{a,b/c}, the archive of the specification *)
Definition spec_pkg (v a c : string) : tarball :=
  Tarball
    [ Member [Name ("pkg-v" +++ v)] MDir;
      Member [Name ("pkg-v" +++ v); Name "a"] (MFile a);
      Member [Name ("pkg-v" +++ v); Name "b"] MDir;
      Member [Name ("pkg-v" +++ v); Name "b"; Name "c"] (MFile c) ]
    false.

(* the stream breaks after the first file *)
Definition damaged_pkg : tarball :=
  Tarball
    [ Member [Name "frp_1.5.0_linux_amd64"] MDir;
      Member [Name "frp_1.5.0_linux_amd64"; Name "frpc"] (MFile "frpc 1.5.0") ]
    true.

(* one entry, named ../../evil *)
Definition evil_pkg : tarball :=
  Tarball [ Member [Up; Up; Name "evil"] (MFile "x") ] false.

(* ../../local_version.txt, then a file at the top level *)
Definition pwn_pkg : tarball :=
  Tarball
    [ Member [Up; Up; Name "local_version.txt"] (MFile "v9.9.9");
      Member [Name "README"] (MFile "hello") ]
    false.

(* /srv/local_version.txt under its absolute name, then a file at the
   top level *)
Definition abs_pkg : tarball :=
  Tarball
    [ Member [Root; Name "srv"; Name "local_version.txt"] (MFile "v9.9.9");
      Member [Name "README"] (MFile "hello") ]
    false.

(* a file at the top level beside the wrapping directory *)
Definition stray_pkg : tarball :=
  Tarball
    [ Member [Name "README"] (MFile "hello");
      Member [Name "frp_1.5.0_linux_amd64"] MDir;
      Member [Name "frp_1.5.0_linux_amd64"; Name "frpc"] (MFile "frpc 1.5.0") ]
    false.

(* pkg/temp: the payload has an item called like the staging directory *)
Definition temp_named_pkg : tarball :=
  Tarball
    [ Member [Name "pkg"] MDir;
      Member [Name "pkg"; Name "temp"] (MFile "t") ]
    false.

Definition installed_1_0_0 : list (string * node) :=
  [ ("frp", Dir [("frpc", File (Raw "frpc 1.0.0"))]);
    ("local_version.txt", File (Raw "v1.0.0")) ].

Definition installed_1_5_0 : list (string * node) :=
  [ ("frp", Dir [ ("frpc", File (Raw "frpc 1.5.0"));
                  ("frps", File (Raw "frps 1.5.0")) ]);
    ("local_version.txt", File (Raw "v1.5.0")) ].

Definition installed_spec_pkg : list (string * node) :=
  [ ("frp", Dir [ ("a", File (Raw "a 1.2.3"));
                  ("b", Dir [("c", File (Raw "c 1.2.3"))]) ]);
    ("local_version.txt", File (Raw "v1.2.3")) ].

Definition flat_server : Remote :=
  server "v1.5.0" [frp_asset "1.5.0"] (HttpBody (TarGz flat_pkg)).

Definition damaged_server : Remote :=
  server "v1.5.0" [frp_asset "1.5.0"] (HttpBody (TarGz damaged_pkg)).

Definition evil_server : Remote :=
  server "v1.5.0" [frp_asset "1.5.0"] (HttpBody (TarGz evil_pkg)).

Definition pwn_server : Remote :=
  server "v1.5.0" [frp_asset "1.5.0"] (HttpBody (TarGz pwn_pkg)).

Definition abs_server : Remote :=
  server "v1.5.0" [frp_asset "1.5.0"] (HttpBody (TarGz abs_pkg)).

(* [stray_pkg] waiting in /srv/dl next to /srv/out, where [frpc] is a
   directory *)
Definition clash_site : World :=
  site [ ("dl", Dir [("p.tar.gz", File (TarGz stray_pkg))]);
         ("out", Dir [("frpc", Dir [])]) ].

(* the Arabic-Indic digit of value [n], U+0660 + n, in UTF-8 *)
Definition arabic_indic (n : nat) : string :=
  String (ascii_of_nat 217) (String (ascii_of_nat (160 + n)) "").

(* frp_1.5.0_linux_amd64.tar.gz with the version in Arabic-Indic digits *)
Definition arabic_indic_asset : Asset :=
  mkAsset ("frp_" +++ arabic_indic 1 +++ "." +++ arabic_indic 5 +++ "."
           +++ arabic_indic 0 +++ "_linux_amd64.tar.gz")
    "https://example.org/frp.tar.gz".

(* the download is a web page, not an archive *)
Definition html_server : Remote :=
  server "v1.5.0" [frp_asset "1.5.0"] (HttpBody (Raw "<html>")).

Definition windows_release : ReleaseInfo :=
  mkReleaseInfo "v3.0.0" [mkAsset "frp_3.0.0_windows_amd64.zip" "u"].

(* a release without an asset for this platform *)
Definition windows_only_server : Remote :=
  mkRemote (fun _ => Some windows_release) (fun _ => HttpError).

Definition spec_server (v a c : string) : Remote :=
  server ("v" +++ v) [frp_asset v] (HttpBody (TarGz (spec_pkg v a c))).

(* the files of [flat_pkg] as directory entries *)
Definition flat_payload : list (string * node) :=
  [ ("frpc", File (Raw "frpc 1.5.0")); ("frps", File (Raw "frps 1.5.0")) ].

(* [dl_site flat_pkg] after staging into /srv/out, and after extraction *)
Definition staged_flat_site : World :=
  site [ ("dl", Dir [("p.tar.gz", File (TarGz flat_pkg))]);
         ("out",
          Dir [("temp", Dir [("frp_1.5.0_linux_amd64", Dir flat_payload)])]) ].

Definition extracted_flat_site : World :=
  site [ ("dl", Dir [("p.tar.gz", File (TarGz flat_pkg))]);
         ("out", Dir flat_payload) ].

(* /srv holds the version file and nothing else *)
Definition stored (v : string) : World :=
  site [("local_version.txt", File (Raw v))].

(* an installation with a file of the user's beside it *)
Definition noted_site : World :=
  site (("notes.txt", File (Raw "mine")) :: installed_1_0_0).

(** * Properties of the file system model *)

Section AssocFacts.
Variable V : Type.
Implicit Types (es : list (string * V)) (x y : string).

Lemma alookup_ainsert x y v es :
  alookup y (ainsert x v es) =
  if String.eqb y x then Some v else alookup y es.
Proof.
  induction es as [|[z u] es IH]; simpl.
  - destruct (String.eqb_spec y x); reflexivity.
  - destruct (String.eqb_spec x z) as [->|Hxz]; simpl.
    + destruct (String.eqb_spec y z); reflexivity.
    + destruct (String.eqb_spec y z) as [->|Hyz].
      * destruct (String.eqb_spec z x); congruence.
      * exact IH.
Qed.

Lemma alookup_aremove x y es :
  alookup y (aremove x es) =
  if String.eqb y x then None else alookup y es.
Proof.
  induction es as [|[z u] es IH]; simpl.
  - destruct (String.eqb y x); reflexivity.
  - destruct (String.eqb_spec x z) as [->|Hxz]; simpl.
    + rewrite IH. destruct (String.eqb_spec y z); reflexivity.
    + destruct (String.eqb_spec y z) as [->|Hyz].
      * destruct (String.eqb_spec z x); congruence.
      * exact IH.
Qed.

Lemma alookup_In x v es : alookup x es = Some v -> In x (map fst es).
Proof.
  induction es as [|[z u] es IH]; simpl; [discriminate|].
  destruct (String.eqb_spec x z) as [->|]; auto.
Qed.

Lemma alookup_some_nonempty x v es : alookup x es = Some v -> es <> [].
Proof. destruct es; simpl; [discriminate | congruence]. Qed.
End AssocFacts.

Lemma path_eqb_eq p q : path_eqb p q = true <-> p = q.
Proof.
  revert q; induction p as [|x p IH]; intros [|y q]; simpl;
    try (split; [discriminate | congruence]); [tauto|].
  rewrite andb_true_iff, String.eqb_eq, IH.
  split; [intros [-> ->]; reflexivity | intros [= -> ->]; auto].
Qed.

Lemma is_prefix_app p s : is_prefix p (p ++ s) = true.
Proof. induction p; simpl; [|rewrite String.eqb_refl]; auto. Qed.

Lemma is_prefix_spec p q : is_prefix p q = true <-> exists s, q = p ++ s.
Proof.
  split.
  - revert q; induction p as [|x p IH]; intros q H; simpl in *.
    + now exists q.
    + destruct q as [|y q]; [discriminate|].
      apply andb_true_iff in H as [Hxy H].
      apply String.eqb_eq in Hxy as ->.
      destruct (IH _ H) as [s ->]. now exists s.
  - intros [s ->]. apply is_prefix_app.
Qed.

Lemma is_prefix_refl p : is_prefix p p = true.
Proof. apply is_prefix_spec. exists []. now rewrite app_nil_r. Qed.

Lemma diverge_sym p q : diverge p q -> diverge q p.
Proof. unfold diverge; tauto. Qed.

Lemma diverge_siblings c x y s t :
  x <> y -> diverge (c ++ x :: s) (c ++ y :: t).
Proof.
  intros Hxy. induction c as [|z c IH]; simpl.
  - split; simpl.
    + destruct (String.eqb_spec x y); [contradiction | reflexivity].
    + destruct (String.eqb_spec y x); [congruence | reflexivity].
  - destruct IH as [H1 H2]. split; simpl; rewrite String.eqb_refl; auto.
Qed.

Lemma fs_get_app r p q :
  fs_get r (p ++ q) =
  match fs_get r p with
  | Some n => fs_get n q
  | None => None
  end.
Proof.
  revert r; induction p as [|x p IH]; intros r; simpl; [reflexivity|].
  destruct r as [c|es]; [reflexivity|].
  destruct (alookup x es); [apply IH | reflexivity].
Qed.

Lemma fs_get_file_below r p c x s :
  fs_get r p = Some (File c) -> fs_get r (p ++ x :: s) = None.
Proof. intros H. rewrite fs_get_app, H. reflexivity. Qed.

Lemma fs_get_none_below r p s : fs_get r p = None -> fs_get r (p ++ s) = None.
Proof. intros H. rewrite fs_get_app, H. reflexivity. Qed.

(** What [fs_put] changes: the node at [p] ... *)
Lemma fs_get_put_below r p v r' s :
  fs_put r p v = Some r' ->
  fs_get r' (p ++ s) =
  match v with
  | Some n => fs_get n s
  | None => None
  end.
Proof.
  revert r r'; induction p as [|x p IH]; intros r r' H; simpl in H.
  - discriminate.
  - destruct r as [c|es]; [discriminate|].
    destruct p as [|y p].
    + injection H as <-. simpl.
      destruct v as [n|].
      * rewrite alookup_ainsert, String.eqb_refl. reflexivity.
      * rewrite alookup_aremove, String.eqb_refl. reflexivity.
    + destruct (alookup x es) as [c|] eqn:Hx; [|discriminate].
      destruct (fs_put c (y :: p) v) as [c'|] eqn:Hc; [|discriminate].
      injection H as <-.
      change ((x :: y :: p) ++ s) with (x :: ((y :: p) ++ s)).
      cbn [fs_get]. rewrite alookup_ainsert, String.eqb_refl.
      exact (IH c c' Hc).
Qed.

Lemma fs_get_put_same r p v r' : fs_put r p v = Some r' -> fs_get r' p = v.
Proof.
  intros H. pose proof (fs_get_put_below r p v r' [] H) as E.
  rewrite app_nil_r in E. rewrite E. destruct v; reflexivity.
Qed.

(** ... nothing off the way to [p] ... *)
Lemma fs_get_put_diverge r p v r' q :
  fs_put r p v = Some r' -> diverge p q -> fs_get r' q = fs_get r q.
Proof.
  revert r r' q; induction p as [|x p IH]; intros r r' q H [D1 D2];
    simpl in H; [discriminate|].
  destruct r as [c|es]; [discriminate|].
  destruct q as [|y q]; [discriminate|].
  simpl in D1, D2.
  destruct p as [|z p].
  - injection H as <-. simpl.
    rewrite andb_true_r in D1.
    assert (Hyx : String.eqb y x = false)
      by (rewrite String.eqb_sym; exact D1).
    destruct v; [rewrite alookup_ainsert | rewrite alookup_aremove];
      rewrite Hyx; reflexivity.
  - destruct (alookup x es) as [c|] eqn:Hx; [|discriminate].
    destruct (fs_put c (z :: p) v) as [c'|] eqn:Hc; [|discriminate].
    injection H as <-. cbn [fs_get].
    rewrite alookup_ainsert.
    destruct (String.eqb_spec y x) as [->|Hyx]; [|reflexivity].
    rewrite String.eqb_refl in D1. rewrite ?String.eqb_refl in D2.
    simpl in D1, D2.
    rewrite Hx. apply (IH c c' q Hc). split; assumption.
Qed.

Lemma fs_put_deep es x p v :
  p <> [] ->
  fs_put (Dir es) (x :: p) v =
  match alookup x es with
  | Some c =>
      match fs_put c p v with
      | Some c' => Some (Dir (ainsert x c' es))
      | None => None
      end
  | None => None
  end.
Proof. destruct p; [congruence | reflexivity]. Qed.

(** ... and the directories on the way to [p] stay directories. *)
Lemma fs_put_above r v r' q x s :
  fs_put r (q ++ x :: s) v = Some r' ->
  is_dir r q = true /\ is_dir r' q = true.
Proof.
  unfold is_dir.
  revert r r'; induction q as [|y q IH]; intros r r' H.
  - simpl in *. destruct r as [c|es]; [discriminate|].
    destruct s; [injection H as <-; auto|].
    destruct (alookup x es); [|discriminate].
    destruct (fs_put _ _ _); [|discriminate]. injection H as <-. auto.
  - destruct r as [c|es]; [discriminate|].
    change ((y :: q) ++ x :: s) with (y :: (q ++ x :: s)) in H.
    rewrite fs_put_deep in H by (destruct q; discriminate).
    simpl.
    destruct (alookup y es) as [c|] eqn:Hy; [|discriminate].
    destruct (fs_put c (q ++ x :: s) v) as [c'|] eqn:Hc; [|discriminate].
    injection H as <-. simpl.
    rewrite alookup_ainsert, String.eqb_refl.
    exact (IH c c' Hc).
Qed.

Lemma fs_put_parent r p x v r' :
  fs_put r (p ++ [x]) v = Some r' -> is_dir r p = true /\ is_dir r' p = true.
Proof. apply fs_put_above. Qed.

Lemma fs_put_succeeds r p x v :
  is_dir r p = true -> exists r', fs_put r (p ++ [x]) v = Some r'.
Proof.
  unfold is_dir.
  revert r; induction p as [|y p IH]; intros r H.
  - simpl in *. destruct r as [c|es]; [discriminate|]. eauto.
  - destruct r as [c|es]; [discriminate|]. simpl in H.
    destruct (alookup y es) as [c|] eqn:Hy; [|discriminate].
    destruct (IH c H) as [c' Hc].
    change ((y :: p) ++ [x]) with (y :: (p ++ [x])).
    rewrite fs_put_deep by (destruct p; discriminate).
    rewrite Hy, Hc. eauto.
Qed.

Lemma fs_get_snoc_dir r p x n :
  fs_get r (p ++ [x]) = Some n -> is_dir r p = true.
Proof.
  unfold is_dir. rewrite fs_get_app.
  destruct (fs_get r p) as [[c|es]|]; simpl; congruence.
Qed.

Lemma is_dir_nonempty_child r p x n :
  fs_get r (p ++ [x]) = Some n ->
  exists y m es, fs_get r p = Some (Dir ((y, m) :: es)).
Proof.
  rewrite fs_get_app.
  destruct (fs_get r p) as [[c|es]|]; simpl; try discriminate.
  destruct es as [|[y m] es]; simpl; [discriminate|]. eauto.
Qed.

(** ** Resolution is lexical as long as it succeeds *)

Lemma walk_norm r cur raw p : walk r cur raw = inr p -> p = norm cur raw.
Proof.
  revert cur; induction raw as [|c raw IH]; intros cur H; simpl in *.
  - congruence.
  - destruct c; try (destruct (fs_get r cur) as [[?|?]|]; try discriminate);
      apply IH, H.
Qed.

Lemma norm_app cur a b : norm cur (a ++ b) = norm (norm cur a) b.
Proof. apply fold_left_app. Qed.

Lemma walk_app r cur a b :
  walk r cur (a ++ b) =
  match walk r cur a with
  | inr q => walk r q b
  | inl e => inl e
  end.
Proof.
  revert cur; induction a as [|c a IH]; intros cur; simpl; [reflexivity|].
  destruct c; try (destruct (fs_get r cur) as [[?|?]|]); auto.
Qed.

Lemma walk_snoc r cur raw c p :
  c <> Root ->
  walk r cur (raw ++ [c]) = inr p ->
  walk r cur raw = inr (norm cur raw) /\
  is_dir r (norm cur raw) = true /\ p = step (norm cur raw) c.
Proof.
  intros Hc.
  rewrite walk_app. destruct (walk r cur raw) as [e|q] eqn:W; [discriminate|].
  apply walk_norm in W as ->. simpl. unfold is_dir.
  destruct c; try congruence;
    (destruct (fs_get r (norm cur raw)) as [[?|?]|]; try discriminate;
     intros [= <-]; auto).
Qed.

Lemma walk_one r cur c :
  c <> Root ->
  walk r cur [c] = inr (step cur c) <-> is_dir r cur = true.
Proof.
  intros Hc. unfold is_dir. simpl.
  destruct c; try congruence;
    (destruct (fs_get r cur) as [[?|?]|]; split; congruence).
Qed.

(** Resolution only looks at which paths are directories. *)
Lemma walk_stable r r' cur raw p :
  (forall q, is_dir r q = true -> is_dir r' q = true) ->
  walk r cur raw = inr p -> walk r' cur raw = inr p.
Proof.
  intros Hd. revert cur; induction raw as [|c raw IH]; intros cur H;
    simpl in *; [assumption|].
  pose proof (Hd cur) as Hc. unfold is_dir in Hc.
  destruct c;
    try (destruct (fs_get r cur) as [[?|?]|]; try discriminate;
         destruct (fs_get r' cur) as [[?|?]|];
         try (specialize (Hc eq_refl); discriminate));
    apply IH, H.
Qed.

Lemma norm_no_escape cur raw :
  no_escape raw = true -> exists s, norm cur raw = cur ++ s.
Proof.
  revert cur; induction raw as [|c raw IH]; intros cur H; simpl in H.
  - exists []. simpl. now rewrite app_nil_r.
  - apply andb_true_iff in H as [Hc H].
    destruct (IH (step cur c) H) as [s Hs].
    change (norm cur (c :: raw)) with (norm (step cur c) raw). rewrite Hs.
    destruct c; simpl in *; try discriminate.
    + now exists s.
    + exists (n :: s). now rewrite <- app_assoc.
Qed.

Lemma norm_rel cur raw :
  no_escape raw = true -> norm cur raw = cur ++ norm [] raw.
Proof.
  revert cur.
  assert (H : forall cur pre,
             no_escape raw = true -> norm (cur ++ pre) raw = cur ++ norm pre raw).
  { induction raw as [|c raw IH]; intros cur pre Hn; [reflexivity|].
    simpl in Hn. apply andb_true_iff in Hn as [Hc Hn].
    change (norm (cur ++ pre) (c :: raw))
      with (norm (step (cur ++ pre) c) raw).
    change (norm pre (c :: raw)) with (norm (step pre c) raw).
    destruct c; try discriminate; simpl step.
    - apply IH, Hn.
    - rewrite <- app_assoc. apply IH, Hn. }
  intros cur Hn. rewrite <- (H cur [] Hn), app_nil_r. reflexivity.
Qed.

Lemma norm_under cur e rest :
  no_escape rest = true -> exists s, norm cur (Name e :: rest) = cur ++ e :: s.
Proof.
  intros H. destruct (norm_no_escape (cur ++ [e]) rest H) as [s Hs].
  exists s. change (norm cur (Name e :: rest)) with (norm (cur ++ [e]) rest).
  rewrite Hs, <- app_assoc. reflexivity.
Qed.

Lemma no_escape_app a b : no_escape (a ++ b) = no_escape a && no_escape b.
Proof. apply forallb_app. Qed.

Lemma no_escape_rel raw : no_escape raw = true -> is_abs raw = false.
Proof. destruct raw as [|[| | |] raw]; simpl; congruence. Qed.

Lemma os_path_join_rel a b : is_abs b = false -> os_path_join a b = a ++ b.
Proof. unfold os_path_join. now intros ->. Qed.

Lemma os_path_join_abs a b : is_abs b = true -> os_path_join a b = b.
Proof. unfold os_path_join. now intros ->. Qed.

Lemma no_escape_removelast a : no_escape a = true -> no_escape (removelast a) = true.
Proof.
  induction a as [|c a IH]; simpl; [reflexivity|].
  intros H. apply andb_true_iff in H as [Hc H].
  destruct a; [reflexivity|]. simpl in *. rewrite Hc. apply IH, H.
Qed.

(** ** Frames: what a change cannot reach *)

Lemma inside_refl b r : inside b r r.
Proof. intros q _. reflexivity. Qed.

Lemma inside_trans b r1 r2 r3 :
  inside b r1 r2 -> inside b r2 r3 -> inside b r1 r3.
Proof. intros H1 H2 q D. rewrite (H2 q D). apply H1, D. Qed.

Lemma is_prefix_comparable q b s :
  is_prefix q (b ++ s) = true -> is_prefix q b = true \/ is_prefix b q = true.
Proof.
  revert b; induction q as [|x q IH]; intros b H; simpl; [now left|].
  destruct b as [|y b]; [now right|].
  simpl in H. apply andb_true_iff in H as [Hxy H].
  apply String.eqb_eq in Hxy as ->. simpl. rewrite String.eqb_refl. simpl.
  apply IH, H.
Qed.

Lemma diverge_extend b s q : diverge b q -> diverge (b ++ s) q.
Proof.
  intros [D1 D2]. split.
  - destruct (is_prefix (b ++ s) q) eqn:E; [|reflexivity].
    apply is_prefix_spec in E as [t ->].
    rewrite <- app_assoc, is_prefix_app in D1. discriminate.
  - destruct (is_prefix q (b ++ s)) eqn:E; [|reflexivity].
    apply is_prefix_comparable in E as [E|E]; congruence.
Qed.

Lemma put_inside r p v r' : fs_put r p v = Some r' -> inside p r r'.
Proof. intros H q D. exact (fs_get_put_diverge r p v r' q H D). Qed.

Lemma inside_weaken b s r r' : inside (b ++ s) r r' -> inside b r r'.
Proof. intros H q D. apply H, diverge_extend, D. Qed.

Lemma put_inside_below r b s v r' :
  fs_put r (b ++ s) v = Some r' -> inside b r r'.
Proof. intros H. eapply inside_weaken, put_inside, H. Qed.

Lemma path_trichotomy (p q : path) :
  diverge p q \/ (exists s, q = p ++ s) \/ (exists x s, p = q ++ x :: s).
Proof.
  destruct (is_prefix p q) eqn:E1.
  - right; left. now apply is_prefix_spec.
  - destruct (is_prefix q p) eqn:E2.
    + right; right. apply is_prefix_spec in E2 as [[|x s] ->].
      * rewrite app_nil_r, is_prefix_refl in E1. discriminate.
      * eauto.
    + left. split; assumption.
Qed.

(** ** Growth: a change that only adds nodes or rewrites files *)

Lemma grows_refl r : grows r r.
Proof. intros q; auto. Qed.

Lemma grows_trans r1 r2 r3 : grows r1 r2 -> grows r2 r3 -> grows r1 r3.
Proof.
  intros H1 H2 q. destruct (H1 q), (H2 q). split; auto.
Qed.

Lemma put_grows r p n r' :
  fs_put r p (Some n) = Some r' ->
  fs_get r p = None \/ (is_file r p = true /\ exists c, n = File c) ->
  grows r r'.
Proof.
  intros H Hp q.
  destruct (path_trichotomy p q) as [D|[[s ->]|(x & s & ->)]].
  - unfold is_dir, is_file.
    rewrite (fs_get_put_diverge r p (Some n) r' q H D). auto.
  - unfold is_dir, is_file. rewrite (fs_get_put_below r p (Some n) r' s H).
    rewrite fs_get_app.
    destruct Hp as [Hp|[Hp (c & ->)]].
    + rewrite Hp. split; discriminate.
    + unfold is_file in Hp.
      destruct (fs_get r p) as [[c0|es]|]; try discriminate.
      destruct s; simpl; split; auto; discriminate.
  - destruct (fs_put_above r (Some n) r' q x s H) as [Hd Hd'].
    split; [auto|]. unfold is_dir, is_file in *.
    destruct (fs_get r q) as [[?|?]|]; discriminate.
Qed.

(** ** What a successful system call has done *)

Section SyscallFacts.
Variable c : path.

Lemma os_mkdir_ok r raw r' :
  os_mkdir c r raw = inr r' ->
  walk r c raw = inr (norm c raw) /\
  fs_get r (norm c raw) = None /\
  fs_put r (norm c raw) (Some (Dir [])) = Some r'.
Proof.
  unfold os_mkdir, put_or. destruct (walk r c raw) as [e|p] eqn:W;
    [discriminate|].
  apply walk_norm in W as ->.
  destruct (fs_get r (norm c raw)); [discriminate|].
  destruct (fs_put r (norm c raw) _); [|discriminate].
  intros [= <-]. auto.
Qed.

Lemma write_file_ok r raw ct r' :
  write_file c r raw ct = inr r' ->
  walk r c raw = inr (norm c raw) /\
  is_dir r (norm c raw) = false /\
  fs_put r (norm c raw) (Some (File ct)) = Some r'.
Proof.
  unfold write_file, put_or, is_dir.
  destruct (walk r c raw) as [e|p] eqn:W; [discriminate|].
  apply walk_norm in W as ->.
  destruct (fs_get r (norm c raw)) as [[?|?]|]; try discriminate;
    destruct (fs_put r (norm c raw) _); try discriminate;
    intros [= <-]; auto.
Qed.

Lemma os_rmdir_ok r raw r' :
  os_rmdir c r raw = inr r' ->
  walk r c raw = inr (norm c raw) /\
  fs_get r (norm c raw) = Some (Dir []) /\
  fs_put r (norm c raw) None = Some r'.
Proof.
  unfold os_rmdir, put_or.
  destruct (walk r c raw) as [e|p] eqn:W; [discriminate|].
  apply walk_norm in W as ->.
  destruct (fs_get r (norm c raw)) as [[?|[|? ?]]|]; try discriminate.
  destruct (fs_put r (norm c raw) _); [|discriminate].
  intros [= <-]; auto.
Qed.

Lemma shutil_rmtree_ok r raw r' :
  shutil_rmtree c r raw = inr r' ->
  walk r c raw = inr (norm c raw) /\
  is_dir r (norm c raw) = true /\
  fs_put r (norm c raw) None = Some r'.
Proof.
  unfold shutil_rmtree, put_or, is_dir.
  destruct (walk r c raw) as [e|p] eqn:W; [discriminate|].
  apply walk_norm in W as ->.
  destruct (fs_get r (norm c raw)) as [[?|?]|]; try discriminate.
  destruct (fs_put r (norm c raw) _); [|discriminate].
  intros [= <-]; auto.
Qed.

(* what os.rename accepts at the destination *)
Definition may_replace (ns : node) (old : option node) : Prop :=
  match ns, old with
  | File _, Some (Dir _) => False
  | Dir _, Some (File _) => False
  | Dir _, Some (Dir (_ :: _)) => False
  | _, _ => True
  end.

Lemma os_rename_ok r src dst r' :
  os_rename c r src dst = inr r' ->
  let ps := norm c src in
  let pd := norm c dst in
  walk r c src = inr ps /\ walk r c dst = inr pd /\
  exists ns,
    fs_get r ps = Some ns /\
    ((ps = pd /\ r' = r) \/
     (ps <> pd /\ is_prefix ps pd = false /\
      may_replace ns (fs_get r pd) /\
      exists r1, fs_put r ps None = Some r1 /\
                 fs_put r1 pd (Some ns) = Some r')).
Proof.
  unfold os_rename, put_or.
  destruct (walk r c src) as [e|ps] eqn:Ws; [discriminate|].
  destruct (walk r c dst) as [e|pd] eqn:Wd; [discriminate|].
  apply walk_norm in Ws as ->. apply walk_norm in Wd as ->.
  cbv zeta.
  destruct (fs_get r (norm c src)) as [ns|] eqn:Gs; [|discriminate].
  destruct (path_eqb (norm c src) (norm c dst)) eqn:Eq.
  - apply path_eqb_eq in Eq. intros [= <-]. repeat split; eauto.
  - assert (Hne : norm c src <> norm c dst).
    { intros E. apply path_eqb_eq in E. congruence. }
    destruct (is_prefix (norm c src) (norm c dst)) eqn:Pre;
      [discriminate|].
    destruct (is_prefix (norm c dst) (norm c src)) eqn:Anc;
      [discriminate|].
    intros H. repeat split. exists ns. split; [reflexivity|]. right.
    repeat split; auto.
    + unfold may_replace.
      destruct ns as [?|?], (fs_get r (norm c dst)) as [[?|[|? ?]]|];
        try exact I; discriminate.
    + destruct (fs_put r (norm c src) None) as [r1|] eqn:P1.
      * exists r1. split; [reflexivity|].
        destruct ns as [?|?], (fs_get r (norm c dst)) as [[?|[|? ?]]|];
          try discriminate;
          destruct (fs_put r1 (norm c dst) _); try discriminate;
          injection H as <-; reflexivity.
      * destruct ns as [?|?], (fs_get r (norm c dst)) as [[?|[|? ?]]|];
          discriminate.
Qed.

Lemma os_mkdir_grows r raw r' : os_mkdir c r raw = inr r' -> grows r r'.
Proof.
  intros H. apply os_mkdir_ok in H as (_ & Hn & Hp).
  eapply put_grows; eauto.
Qed.

Lemma write_file_grows r raw ct r' :
  write_file c r raw ct = inr r' -> grows r r'.
Proof.
  intros H. apply write_file_ok in H as (_ & Hd & Hp).
  eapply put_grows; [exact Hp|].
  unfold is_dir, is_file in *.
  destruct (fs_get r (norm c raw)) as [[?|?]|]; eauto; discriminate.
Qed.

Lemma makedirs_from_grows todo : forall r done r',
  makedirs_from c r done todo = inr r' -> grows r r'.
Proof.
  induction todo as [|x todo IH]; intros r done r' H; simpl in H.
  - injection H as <-. apply grows_refl.
  - destruct todo as [|y todo].
    + destruct (os_mkdir c r (done ++ [x])) as [e|r1] eqn:Hm.
      * destruct (os_path_isdir c r (done ++ [x])); [|discriminate].
        injection H as <-. apply grows_refl.
      * injection H as <-. eapply os_mkdir_grows, Hm.
    + destruct (os_path_exists c r (done ++ [x])).
      * eapply IH, H.
      * destruct (os_mkdir c r (done ++ [x])) as [e|r1] eqn:Hm;
          [discriminate|].
        eapply grows_trans; [eapply os_mkdir_grows, Hm | eapply IH, H].
Qed.

Lemma os_makedirs_grows r raw r' : os_makedirs c r raw = inr r' -> grows r r'.
Proof. apply makedirs_from_grows. Qed.

Lemma extract_member_grows base m r r' :
  extract_member base m c r = inr r' -> grows r r'.
Proof.
  unfold extract_member. intros H.
  match type of H with
  | match ?X with _ => _ end = _ => destruct X as [e|r1] eqn:Hup
  end; [discriminate|].
  assert (G1 : grows r r1).
  { destruct (removelast (os_path_join base (m_name m))) as [|u us].
    - injection Hup as <-. apply grows_refl.
    - destruct (os_path_exists c r (u :: us)).
      + injection Hup as <-. apply grows_refl.
      + eapply os_makedirs_grows, Hup. }
  eapply grows_trans; [exact G1|].
  destruct (m_kind m).
  - destruct (os_mkdir c r1 _) as [e|r2] eqn:Hm.
    + destruct e; try discriminate.
      destruct (os_path_isdir c r1 _); [|discriminate].
      injection H as <-. apply grows_refl.
    + injection H as <-. eapply os_mkdir_grows, Hm.
  - eapply write_file_grows, H.
Qed.
End SyscallFacts.

(** * Reasoning about runs *)

Section WpRules.
Context {A B : Type}.
Implicit Types (Q : A -> World -> Prop) (R : exn -> World -> Prop).

Lemma wp_ret (a : A) Q R w : Q a w -> wp (ret a) Q R w.
Proof. exact (fun H => H). Qed.

Lemma wp_raise e Q R w : R e w -> wp (@raise A e) Q R w.
Proof. exact (fun H => H). Qed.

Lemma wp_bind (c : M A) (k : A -> M B) (Q' : B -> World -> Prop) R w :
  wp c (fun a w' => wp (k a) Q' R w') R w -> wp (bind c k) Q' R w.
Proof. unfold wp, bind. destruct (c w); auto. Qed.

Lemma wp_mono (c : M A) Q Q' R R' w :
  wp c Q R w ->
  (forall a w', Q a w' -> Q' a w') ->
  (forall e w', R e w' -> R' e w') ->
  wp c Q' R' w.
Proof. unfold wp. destruct (c w); auto. Qed.

Lemma wp_query (f : path -> node -> A) Q R w :
  Q (f (cwd w) (root w)) w -> wp (query f) Q R w.
Proof. exact (fun H => H). Qed.

Lemma wp_attempt (f : path -> node -> exn + A) Q R w :
  (forall a, f (cwd w) (root w) = inr a -> Q a w) ->
  (forall e, f (cwd w) (root w) = inl e -> R e w) ->
  wp (attempt f) Q R w.
Proof.
  unfold wp, attempt. destruct (f (cwd w) (root w)); auto.
Qed.
End WpRules.

Lemma wp_syscall (f : path -> node -> exn + node) Q R w :
  (forall r', f (cwd w) (root w) = inr r' -> Q tt (set_root w r')) ->
  (forall e, f (cwd w) (root w) = inl e -> R e w) ->
  wp (syscall f) Q R w.
Proof. unfold wp, syscall. destruct (f (cwd w) (root w)); auto. Qed.

Lemma wp_logging l msg Q R w :
  Q tt (mkWorld (root w) (cwd w) (logs w ++ [(l, msg)]) (requests w)) ->
  wp (logging l msg) Q R w.
Proof. exact (fun H => H). Qed.

Lemma wp_record_request url Q R w :
  Q tt (mkWorld (root w) (cwd w) (logs w) (requests w ++ [url])) ->
  wp (record_request url) Q R w.
Proof. exact (fun H => H). Qed.

Lemma wp_for_each {A : Type} (I : World -> Prop) (xs : list A)
  (body : A -> M unit) R w :
  I w ->
  (forall x w', In x xs -> I w' -> wp (body x) (fun _ => I) R w') ->
  wp (for_each xs body) (fun _ => I) R w.
Proof.
  revert w; induction xs as [|x xs IH]; intros w Hw Hbody; simpl.
  - exact Hw.
  - apply wp_bind. eapply wp_mono.
    + apply Hbody; [now left | exact Hw].
    + intros u w' Hw'. apply IH; [exact Hw'|].
      intros y w'' Hy. apply Hbody. now right.
    + auto.
Qed.

Lemma for_each_app {A : Type} (xs ys : list A) (body : A -> M unit) w :
  for_each (xs ++ ys) body w = (for_each xs body ;;; for_each ys body)%py w.
Proof.
  revert w; induction xs as [|x xs IH]; intros w; simpl.
  - reflexivity.
  - unfold bind. destruct (body x w) as [[] w'|e w'].
    + rewrite IH. reflexivity.
    + reflexivity.
Qed.

(** ** [extract_tar_gz] is [stage] followed by [unwrap] *)

Lemma extract_tar_gz_phases file_path extract_to w :
  extract_tar_gz file_path extract_to w =
  (stage file_path extract_to ;;; unwrap extract_to)%py w.
Proof.
  unfold extract_tar_gz, stage, unwrap, bind.
  destruct (tarfile_open file_path w) as [t w1|e w1]; [|reflexivity].
  destruct (syscall _ w1) as [[] w2|e w2]; [|reflexivity].
  destruct (extractall _ _ _ w2) as [[] w3|e w3]; reflexivity.
Qed.

Lemma wp_for_each_app {A : Type} (xs ys : list A) (body : A -> M unit) Q R w :
  wp (for_each xs body ;;; for_each ys body)%py Q R w ->
  wp (for_each (xs ++ ys) body) Q R w.
Proof. unfold wp. now rewrite for_each_app. Qed.

Lemma wp_eq {A : Type} (c c' : M A) Q R w :
  c w = c' w -> wp c' Q R w -> wp c Q R w.
Proof. unfold wp. now intros ->. Qed.

Lemma wp_run {A : Type} (c : M A) w :
  wp c (fun a w' => c w = Ok a w') (fun e w' => c w = Raise e w') w.
Proof. unfold wp. destruct (c w); reflexivity. Qed.

Lemma wp_elim_ok {A : Type} (c : M A) Q R w a w' :
  wp c Q R w -> c w = Ok a w' -> Q a w'.
Proof. unfold wp. intros H E. now rewrite E in H. Qed.

Lemma wp_elim_raise {A : Type} (c : M A) Q R w e w' :
  wp c Q R w -> c w = Raise e w' -> R e w'.
Proof. unfold wp. intros H E. now rewrite E in H. Qed.

Lemma norm_snoc cur raw x : norm cur (raw ++ [Name x]) = norm cur raw ++ [x].
Proof. rewrite norm_app. reflexivity. Qed.

(** ** A regular file at the top of the archive *)

Section Stray.
Variables (c : path) (extract_to : rawpath) (f : string).

Let target : path := norm c extract_to.
Let staging : path := target ++ ["temp"].
Let stray : path := staging ++ [f].

Definition stray_staged (w : World) : Prop :=
  cwd w = c /\ is_file (root w) stray = true.

Lemma staging_nonempty r :
  is_file r stray = true -> fs_get r staging <> Some (Dir []).
Proof.
  unfold is_file, stray. intros H E.
  rewrite fs_get_app, E in H. discriminate.
Qed.

Lemma stray_rename_kept r member item r' :
  is_file r stray = true ->
  os_rename c r
    (os_path_join (os_path_join (os_path_join extract_to [Name "temp"])
                     [Name member]) [Name item])
    (os_path_join extract_to [Name item]) = inr r' ->
  is_file r' stray = true.
Proof.
  intros Hf H. apply os_rename_ok in H as (Ws & Wd & ns & Gs & H).
  unfold os_path_join, is_abs in *.
  apply walk_snoc in Ws as (_ & Hd & _); [|discriminate].
  rewrite !norm_snoc in *. fold target in Hd, Gs, H. fold staging in Hd, Gs, H.
  assert (Hmf : member <> f).
  { intros ->. fold stray in Hd. unfold is_dir, is_file in *.
    destruct (fs_get r stray) as [[?|?]|]; discriminate. }
  destruct H as [[_ ->]|(_ & _ & Hrep & r1 & P1 & P2)]; [exact Hf|].
  assert (G1 : fs_get r1 stray = fs_get r stray).
  { eapply fs_get_put_diverge; [exact P1|].
    unfold stray. rewrite <- app_assoc.
    exact (diverge_siblings staging member f [item] [] Hmf). }
  destruct (String.eqb_spec item "temp") as [->|Hit].
  - exfalso. fold staging in Hrep.
    unfold is_file, stray in Hf. rewrite fs_get_app in Hf.
    destruct (fs_get r staging) as [[?|[|[y m] es]]|]; simpl in Hf;
      try discriminate.
    destruct ns; exact Hrep.
  - unfold is_file. 
    rewrite (fs_get_put_diverge r1 _ _ r' stray P2), G1; [exact Hf|].
    unfold stray, staging. rewrite <- app_assoc.
    exact (diverge_siblings target item "temp" [] [f] Hit).
Qed.

Lemma stray_rmdir_kept r member r' :
  is_file r stray = true ->
  os_rmdir c r (os_path_join (os_path_join extract_to [Name "temp"])
                  [Name member]) = inr r' ->
  is_file r' stray = true.
Proof.
  intros Hf H. apply os_rmdir_ok in H as (_ & Hg & P).
  unfold os_path_join, is_abs in *. rewrite !norm_snoc in *.
  fold target in Hg, P. fold staging in Hg, P.
  assert (Hmf : member <> f).
  { intros ->. fold stray in Hg. unfold is_file in Hf. rewrite Hg in Hf.
    discriminate. }
  unfold is_file. rewrite (fs_get_put_diverge r _ _ r' stray P); [exact Hf|].
  exact (diverge_siblings staging member f [] [] Hmf).
Qed.

Lemma unwrap_stray w :
  stray_staged w ->
  wp (unwrap extract_to) (fun _ _ => False)
    (fun _ w' => stray_staged w') w.
Proof.
  intros Hw. unfold unwrap.
  apply wp_bind, wp_attempt; [|intros; exact Hw].
  intros listing _.
  apply wp_bind.
  apply wp_mono with (Q := fun _ => stray_staged)
                     (R := fun _ => stray_staged); [| |auto].
  - apply wp_for_each; [exact Hw|].
    intros member w1 _ Hw1.
    apply wp_bind, wp_query.
    destruct (os_path_isdir _ _ _); [|exact Hw1].
    apply wp_bind, wp_attempt; [|intros; exact Hw1].
    intros items _. apply wp_bind.
    apply wp_mono with (Q := fun _ => stray_staged)
                       (R := fun _ => stray_staged); [| |auto].
    + apply wp_for_each; [exact Hw1|].
      intros item w2 _ [Hc2 Hf2].
      apply wp_syscall; [|intros; split; assumption].
      intros r' H. split; [exact Hc2|]. simpl.
      rewrite Hc2 in H. eapply stray_rename_kept; eassumption.
    + intros _ w2 [Hc2 Hf2].
      apply wp_syscall; [|intros; split; assumption].
      intros r' H. split; [exact Hc2|]. simpl.
      rewrite Hc2 in H. eapply stray_rmdir_kept; eassumption.
  - intros _ w1 [Hc1 Hf1].
    apply wp_syscall; [|intros; split; assumption].
    intros r' H. exfalso. rewrite Hc1 in H.
    apply os_rmdir_ok in H as (_ & Hg & _).
    unfold os_path_join, is_abs in Hg. rewrite norm_snoc in Hg.
    exact (staging_nonempty _ Hf1 Hg).
Qed.

Lemma extract_stray_member base name data r r' :
  norm c base = staging ->
  no_escape name = true -> norm [] name = [f] ->
  extract_member base (Member name (MFile data)) c r = inr r' ->
  is_file r' stray = true.
Proof.
  intros Hb Hn Hf H. unfold extract_member in H. cbn [m_name m_kind] in H.
  rewrite (os_path_join_rel _ _ (no_escape_rel _ Hn)) in H.
  match type of H with
  | match ?X with _ => _ end = _ => destruct X as [e|r1]
  end; [discriminate|].
  apply write_file_ok in H as (_ & _ & P).
  rewrite norm_app, Hb, (norm_rel _ _ Hn), Hf in P.
  unfold is_file. fold stray in P.
  now rewrite (fs_get_put_same r1 stray _ r' P).
Qed.

Lemma extract_members_stray_kept base ms w :
  stray_staged w ->
  wp (for_each ms
        (fun m =>
           match (fun tarinfo (_ : rawpath) => Some tarinfo) m base with
           | None => ret tt
           | Some tarinfo => syscall (extract_member base tarinfo)
           end))
    (fun _ => stray_staged) (fun _ _ => True) w.
Proof.
  intros Hw. apply wp_for_each; [exact Hw|].
  intros m w1 _ [Hc1 Hf1]. apply wp_syscall; [|auto].
  intros r' H. split; [exact Hc1|].
  apply extract_member_grows in H. apply (H stray). exact Hf1.
Qed.

Lemma stage_stray file_path t name data w :
  cwd w = c ->
  read_file c (root w) file_path = inr (TarGz t) ->
  In (Member name (MFile data)) (members t) ->
  no_escape name = true -> norm [] name = [f] ->
  wp (stage file_path extract_to)
    (fun _ => stray_staged) (fun _ _ => True) w.
Proof.
  intros Hc Hread Hin Hname Hf. unfold stage, tarfile_open.
  apply wp_bind, wp_bind, wp_attempt; [|auto].
  rewrite Hc, Hread. intros ct [= <-].
  destruct (members t) as [|m0 ms0] eqn:Hms; [contradiction|].
  rewrite <- Hms in *. clear m0 ms0 Hms.
  apply wp_ret.
  apply wp_bind, wp_syscall; [|auto]. intros r1 _.
  unfold extractall. apply wp_bind.
  destruct (in_split _ _ Hin) as (pre & post & ->).
  apply wp_for_each_app, wp_bind.
  apply wp_mono with (Q := fun _ w' => cwd w' = c) (R := fun _ _ => True);
    [| |auto].
  - apply wp_for_each; [exact Hc|].
    intros m w2 _ Hc2. apply wp_syscall; auto.
  - intros _ w2 Hc2. simpl. apply wp_bind.
    apply wp_syscall; [|auto]. intros r3 H3.
    rewrite Hc2 in H3.
    apply extract_stray_member in H3;
      [|unfold os_path_join, is_abs; apply norm_snoc | exact Hname
       | exact Hf].
    eapply wp_mono.
    + apply extract_members_stray_kept. split; [exact Hc2 | exact H3].
    + intros u w4 Hw4. destruct (damaged t); [exact I | exact Hw4].
    + auto.
Qed.
End Stray.

(** C10 (as amended).  An archive of directories and regular files with
    a regular file at its top level cannot be extracted: [extract_tar_gz]
    raises, whatever the state it starts from.  The file is a member
    whose name is relative, has no [..] and comes down to the one
    component [f] ([f], [./f]).  The error can come from any step.  When
    the whole archive has reached the staging directory, it is the second
    half of the function that raises, and it leaves that file where it
    was staged, [extract_to/temp/f]: it is not moved into the target. *)
Theorem extract_tar_gz_top_level_file :
  forall (w : World) (file_path extract_to : rawpath) (t : tarball)
         (name : rawpath) (f data : string),
    read_file (cwd w) (root w) file_path = inr (TarGz t) ->
    In (Member name (MFile data)) (members t) ->
    no_escape name = true -> norm [] name = [f] ->
    (exists e w', extract_tar_gz file_path extract_to w = Raise e w') /\
    (forall w1,
        stage file_path extract_to w = Ok tt w1 ->
        exists e w',
          unwrap extract_to w1 = Raise e w' /\
          is_file (root w')
            (norm (cwd w) (extract_to ++ [Name "temp"; Name f])) = true).
Proof.
  intros w file_path extract_to t name f data Hread Hin Hname Hone.
  pose proof (stage_stray (cwd w) extract_to f file_path t name data w
                eq_refl Hread Hin Hname Hone) as Hs.
  assert (Hu : forall w1,
             stage file_path extract_to w = Ok tt w1 ->
             exists e w',
               unwrap extract_to w1 = Raise e w' /\
               stray_staged (cwd w) extract_to f w').
  { intros w1 E1. pose proof (wp_elim_ok _ _ _ _ _ _ Hs E1) as H1.
    pose proof (unwrap_stray (cwd w) extract_to f w1 H1) as H2.
    unfold wp in H2. destruct (unwrap extract_to w1) as [a w'|e w'];
      [contradiction | eauto]. }
  split.
  - rewrite extract_tar_gz_phases. unfold bind.
    destruct (stage file_path extract_to w) as [[] w1|e w1] eqn:E1; [|eauto].
    destruct (Hu w1 eq_refl) as (e & w' & -> & _). eauto.
  - intros w1 E1. destruct (Hu w1 E1) as (e & w' & E & _ & Hf).
    exists e, w'. split; [exact E|].
    replace (extract_to ++ [Name "temp"; Name f])
      with ((extract_to ++ [Name "temp"]) ++ [Name f])
      by (rewrite <- app_assoc; reflexivity).
    rewrite !norm_snoc. exact Hf.
Qed.

(** ** Nothing in the script changes the working directory *)

Lemma cwd_kept_ret {A : Type} (a : A) : cwd_kept (ret a).
Proof. intros w. reflexivity. Qed.

Lemma cwd_kept_raise {A : Type} e : cwd_kept (@raise A e).
Proof. intros w. reflexivity. Qed.

Lemma cwd_kept_bind {A B : Type} (c : M A) (k : A -> M B) :
  cwd_kept c -> (forall a, cwd_kept (k a)) -> cwd_kept (bind c k).
Proof.
  intros Hc Hk w. unfold bind. specialize (Hc w).
  destruct (c w) as [a w'|e w']; simpl in *; [|exact Hc].
  rewrite Hk. exact Hc.
Qed.

Lemma cwd_kept_query {A : Type} (f : path -> node -> A) : cwd_kept (query f).
Proof. intros w. reflexivity. Qed.

Lemma cwd_kept_attempt {A : Type} (f : path -> node -> exn + A) :
  cwd_kept (attempt f).
Proof. intros w. unfold attempt. destruct (f _ _); reflexivity. Qed.

Lemma cwd_kept_syscall f : cwd_kept (syscall f).
Proof. intros w. unfold syscall. destruct (f _ _); reflexivity. Qed.

Lemma cwd_kept_logging l msg : cwd_kept (logging l msg).
Proof. intros w. reflexivity. Qed.

Lemma cwd_kept_record_request url : cwd_kept (record_request url).
Proof. intros w. reflexivity. Qed.

Lemma cwd_kept_for_each {A : Type} (xs : list A) (body : A -> M unit) :
  (forall x, cwd_kept (body x)) -> cwd_kept (for_each xs body).
Proof.
  intros Hb. induction xs as [|x xs IH]; simpl.
  - apply cwd_kept_ret.
  - apply cwd_kept_bind; auto.
Qed.

Create HintDb cwd_kept.
#[local] Hint Resolve cwd_kept_ret cwd_kept_raise cwd_kept_query
  cwd_kept_attempt cwd_kept_syscall cwd_kept_logging
  cwd_kept_record_request : cwd_kept.

Ltac cwd_kept_step :=
  match goal with
  | |- cwd_kept (bind _ _) => apply cwd_kept_bind
  | |- cwd_kept (for_each _ _) => apply cwd_kept_for_each
  | |- cwd_kept (match ?x with _ => _ end) => destruct x
  | |- forall _, _ => intro
  | |- cwd_kept _ => solve [auto with cwd_kept]
  end.

Ltac cwd_kept_auto := repeat cwd_kept_step.

Lemma cwd_kept_tarfile_open raw : cwd_kept (tarfile_open raw).
Proof. unfold tarfile_open. cwd_kept_auto. Qed.

Lemma cwd_kept_extractall t base filter : cwd_kept (extractall t base filter).
Proof. unfold extractall. cwd_kept_auto. Qed.

#[local] Hint Resolve cwd_kept_tarfile_open cwd_kept_extractall : cwd_kept.

Lemma cwd_kept_extract_tar_gz file_path extract_to :
  cwd_kept (extract_tar_gz file_path extract_to).
Proof. unfold extract_tar_gz. cwd_kept_auto. Qed.

Lemma cwd_kept_download_file net url local_path :
  cwd_kept (download_file net url local_path).
Proof. unfold download_file. cwd_kept_auto. Qed.

Lemma cwd_kept_read_local_version raw : cwd_kept (read_local_version raw).
Proof. unfold read_local_version. cwd_kept_auto. Qed.

Lemma cwd_kept_write_local_version raw v : cwd_kept (write_local_version raw v).
Proof. unfold write_local_version. cwd_kept_auto. Qed.

Lemma cwd_kept_get_latest_release_info net repo :
  cwd_kept (get_latest_release_info net repo).
Proof. unfold get_latest_release_info. cwd_kept_auto. Qed.

Lemma cwd_kept_version_parse (Version : Type) (parse : string -> option Version) s :
  cwd_kept (version_parse parse s).
Proof. unfold version_parse. cwd_kept_auto. Qed.

#[local] Hint Resolve cwd_kept_extract_tar_gz cwd_kept_download_file
  cwd_kept_read_local_version cwd_kept_write_local_version
  cwd_kept_get_latest_release_info cwd_kept_version_parse : cwd_kept.

Lemma wp_cwd_kept {A : Type} (c : M A) w :
  cwd_kept c ->
  wp c (fun _ w' => cwd w' = cwd w) (fun _ w' => cwd w' = cwd w) w.
Proof. intros H. specialize (H w). unfold wp. destruct (c w); exact H. Qed.

Lemma wp_conj {A : Type} (c : M A) Q1 Q2 R1 R2 w :
  wp c Q1 R1 w -> wp c Q2 R2 w ->
  wp c (fun a w' => Q1 a w' /\ Q2 a w') (fun e w' => R1 e w' /\ R2 e w') w.
Proof. unfold wp. destruct (c w); auto. Qed.

(** ** Steps that leave the file system alone *)

Lemma readonly_ret {A : Type} (a : A) : readonly (ret a).
Proof. intros w. split; reflexivity. Qed.

Lemma readonly_raise {A : Type} e : readonly (@raise A e).
Proof. intros w. split; reflexivity. Qed.

Lemma readonly_bind {A B : Type} (c : M A) (k : A -> M B) :
  readonly c -> (forall a, readonly (k a)) -> readonly (bind c k).
Proof.
  intros Hc Hk w. unfold bind. specialize (Hc w).
  destruct (c w) as [a w'|e w']; simpl in *; [|exact Hc].
  destruct Hc as [<- <-]. apply Hk.
Qed.

Lemma readonly_query {A : Type} (f : path -> node -> A) : readonly (query f).
Proof. intros w. split; reflexivity. Qed.

Lemma readonly_attempt {A : Type} (f : path -> node -> exn + A) :
  readonly (attempt f).
Proof. intros w. unfold attempt. destruct (f _ _); split; reflexivity. Qed.

Lemma readonly_logging l msg : readonly (logging l msg).
Proof. intros w. split; reflexivity. Qed.

Lemma readonly_record_request url : readonly (record_request url).
Proof. intros w. split; reflexivity. Qed.

Create HintDb readonly.
#[local] Hint Resolve readonly_ret readonly_raise readonly_query
  readonly_attempt readonly_logging readonly_record_request : readonly.

Ltac readonly_step :=
  match goal with
  | |- readonly (bind _ _) => apply readonly_bind
  | |- readonly (match ?x with _ => _ end) => destruct x
  | |- forall _, _ => intro
  | |- readonly _ => solve [auto with readonly]
  end.

Ltac readonly_auto := repeat readonly_step.

Lemma readonly_get_latest_release_info net repo :
  readonly (get_latest_release_info net repo).
Proof. unfold get_latest_release_info. readonly_auto. Qed.

Lemma readonly_read_local_version raw : readonly (read_local_version raw).
Proof. unfold read_local_version. readonly_auto. Qed.

Lemma readonly_version_parse (Version : Type) (parse : string -> option Version) s :
  readonly (version_parse parse s).
Proof. unfold version_parse. readonly_auto. Qed.

#[local] Hint Resolve readonly_get_latest_release_info
  readonly_read_local_version readonly_version_parse : readonly.

Lemma wp_readonly {A : Type} (c : M A) w :
  readonly c ->
  wp c (fun _ w' => root w' = root w /\ cwd w' = cwd w)
    (fun _ w' => root w' = root w /\ cwd w' = cwd w) w.
Proof. intros H. specialize (H w). unfold wp. destruct (c w); exact H. Qed.

(** ** A successful extraction removes its staging directory *)

Lemma cwd_kept_stage file_path extract_to : cwd_kept (stage file_path extract_to).
Proof. unfold stage. cwd_kept_auto. Qed.

Lemma extract_tar_gz_clears_staging file_path extract_to w :
  wp (extract_tar_gz file_path extract_to)
    (fun _ w' =>
       cwd w' = cwd w /\
       fs_get (root w') (norm (cwd w) extract_to ++ ["temp"]) = None)
    (fun _ _ => True) w.
Proof.
  eapply wp_eq; [apply extract_tar_gz_phases|].
  apply wp_bind.
  eapply wp_mono; [apply wp_cwd_kept, cwd_kept_stage | | auto].
  intros ? w1 Hc1. unfold unwrap.
  apply wp_bind, wp_attempt; [|auto]. intros listing _.
  apply wp_bind.
  eapply wp_mono; [apply wp_cwd_kept; cwd_kept_auto | | auto].
  intros ? w2 Hc2. cbv beta.
  apply wp_syscall; [|auto]. intros r' H.
  rewrite Hc2, Hc1 in H. simpl. split; [congruence|].
  apply os_rmdir_ok in H as (_ & _ & P).
  unfold os_path_join, is_abs in P. rewrite norm_snoc in P.
  exact (fs_get_put_same _ _ _ _ P).
Qed.

(** ** The scratch paths after a run of [main] *)

Lemma temp_extract_dir_eq : with_suffix EXTRACT_DIR "-temp" = [Name "frp-temp"].
Proof. reflexivity. Qed.

Ltac wp_skip_cwd w H :=
  apply wp_bind;
  eapply wp_mono;
  [ apply wp_cwd_kept; cwd_kept_auto | intros ? w H; cbv beta | auto ].

Section MainFacts.
Variable Version : Type.
Variable parse : string -> option Version.
Variable version_gt : Version -> Version -> bool.
Variable net : Remote.

Lemma swap_and_cleanup_scratch (tag : string) (c : path) w :
  cwd w = c ->
  fs_get (root w) (c ++ ["frp-temp"; "temp"]) = None ->
  wp (syscall (fun cwd r => os_rename cwd r [Name "frp-temp"] EXTRACT_DIR) ;;;
      logging INFO ("Updating local version to " +++ tag) ;;;
      write_local_version LOCAL_VERSION_FILE tag ;;;
      syscall (fun cwd r => shutil_rmtree cwd r DOWNLOAD_DIR) ;;;
      logging INFO "Update complete.")%py
    (fun _ w' => scratch_gone c (root w')) (fun _ _ => True) w.
Proof.
  intros Hc Hst.
  apply wp_bind, wp_syscall; [|auto]. intros r1 H1. rewrite Hc in H1.
  apply os_rename_ok in H1 as (_ & _ & ns & Gs & H1).
  change (norm c [Name "frp-temp"]) with (c ++ ["frp-temp"]) in *.
  change (norm c EXTRACT_DIR) with (c ++ ["frp"]) in *.
  assert (Hne : "frp-temp" <> "frp") by discriminate.
  destruct H1 as [[E _]|(_ & _ & _ & r0 & P0 & P1)].
  { apply app_inv_head in E. discriminate. }
  assert (G1 : fs_get r1 (c ++ ["frp-temp"]) = None).
  { rewrite (fs_get_put_diverge _ _ _ _ (c ++ ["frp-temp"]) P1).
    - exact (fs_get_put_same _ _ _ _ P0).
    - apply (diverge_siblings c "frp" "frp-temp" [] []). congruence. }
  assert (G2 : fs_get r1 (c ++ ["frp"; "temp"]) = None).
  { pose proof (fs_get_put_below _ _ _ _ ["temp"] P1) as E.
    rewrite <- app_assoc in E. simpl in E. rewrite E.
    replace (c ++ ["frp-temp"; "temp"]) with ((c ++ ["frp-temp"]) ++ ["temp"])
      in Hst by (rewrite <- app_assoc; reflexivity).
    rewrite fs_get_app, Gs in Hst. exact Hst. }
  apply wp_bind, wp_logging.
  apply wp_bind. unfold write_local_version.
  apply wp_syscall; [|auto]. simpl. intros r2 H2. rewrite Hc in H2.
  apply write_file_ok in H2 as (_ & _ & P2).
  change (norm c LOCAL_VERSION_FILE) with (c ++ ["local_version.txt"]) in P2.
  apply wp_bind, wp_syscall; [|auto]. simpl. intros r3 H3. rewrite Hc in H3.
  apply shutil_rmtree_ok in H3 as (_ & _ & P3).
  change (norm c DOWNLOAD_DIR) with (c ++ ["temp"]) in P3.
  apply wp_logging. simpl. repeat split.
  - exact (fs_get_put_same _ _ _ _ P3).
  - rewrite (fs_get_put_diverge _ _ _ _ (c ++ ["frp-temp"]) P3)
      by (apply (diverge_siblings c "temp" "frp-temp" [] []); discriminate).
    rewrite (fs_get_put_diverge _ _ _ _ (c ++ ["frp-temp"]) P2)
      by (apply (diverge_siblings c "local_version.txt" "frp-temp" [] []);
          discriminate).
    exact G1.
  - rewrite (fs_get_put_diverge _ _ _ _ (c ++ ["frp"; "temp"]) P3)
      by (apply (diverge_siblings c "temp" "frp" [] ["temp"]); discriminate).
    rewrite (fs_get_put_diverge _ _ _ _ (c ++ ["frp"; "temp"]) P2)
      by (apply (diverge_siblings c "local_version.txt" "frp" [] ["temp"]);
          discriminate).
    exact G2.
Qed.

Lemma main_scratch w :
  wp (main parse version_gt net)
    (fun _ w' => root w' = root w \/ scratch_gone (cwd w) (root w'))
    (fun _ _ => True) w.
Proof.
  unfold main. rewrite temp_extract_dir_eq.
  apply wp_bind.
  eapply wp_mono; [apply wp_readonly; auto with readonly | | auto].
  intros info w1 [Hr1 Hc1]. cbv beta zeta.
  destruct (find_asset_url (assets info)) as [asset_url|].
  2: { apply wp_logging. left. exact Hr1. }
  apply wp_bind.
  eapply wp_mono; [apply wp_readonly; auto with readonly | | auto].
  intros local_version w2 [Hr2 Hc2]. cbv beta.
  apply wp_bind.
  eapply wp_mono;
    [apply wp_readonly; destruct local_version; readonly_auto | | auto].
  intros stop w3 [Hr3 Hc3]. cbv beta.
  destruct stop.
  { apply wp_logging. left. simpl. congruence. }
  wp_skip_cwd w4 Hc4. wp_skip_cwd w5 Hc5. wp_skip_cwd w6 Hc6.
  wp_skip_cwd w7 Hc7. wp_skip_cwd w8 Hc8. wp_skip_cwd w9 Hc9.
  wp_skip_cwd w10 Hc10.
  assert (Hc : cwd w10 = cwd w) by congruence.
  clear Hc4 Hc5 Hc6 Hc7 Hc8 Hc9 Hc10.
  apply wp_bind.
  eapply wp_mono; [apply extract_tar_gz_clears_staging | | auto].
  intros ? w11 [Hc11 Hst]. cbv beta.
  rewrite Hc in Hc11, Hst. set (c := cwd w) in *.
  change (norm c [Name "frp-temp"] ++ ["temp"]) with
    ((c ++ ["frp-temp"]) ++ ["temp"]) in Hst.
  rewrite <- app_assoc in Hst. simpl in Hst.
  apply wp_bind, wp_query. apply wp_bind.
  apply wp_mono with
    (Q := fun _ w' => cwd w' = c /\
                      fs_get (root w') (c ++ ["frp-temp"; "temp"]) = None)
    (R := fun _ _ => True); [| |auto].
  - destruct (os_path_exists _ _ _); [|split; assumption].
    apply wp_bind, wp_logging. apply wp_syscall; [|auto].
    simpl. intros r' H. rewrite Hc11 in H. split; [exact Hc11|].
    apply shutil_rmtree_ok in H as (_ & _ & P).
    rewrite (fs_get_put_diverge _ _ _ _ (c ++ ["frp-temp"; "temp"]) P);
      [exact Hst|].
    apply (diverge_siblings c "frp" "frp-temp" [] ["temp"]). discriminate.
  - intros ? w12 [Hc12 Hst12].
    apply wp_bind, wp_logging.
    eapply wp_mono; [apply swap_and_cleanup_scratch | | auto].
    + exact Hc12.
    + exact Hst12.
    + intros ? w13 H. right. exact H.
Qed.
End MainFacts.

(** ** Archives of relative names without [..] stay inside the directory
    they are extracted to *)

Section Confined.
Variables (c : path) (e : string).

Let home : path := c ++ [e].

Lemma prefix_under (p t rest : rawpath) :
  p ++ t = Name e :: rest -> p <> [] -> no_escape rest = true ->
  exists rest', p = Name e :: rest' /\ no_escape rest' = true.
Proof.
  intros E Hp Hn. destruct p as [|x p]; [contradiction|].
  injection E as -> <-. rewrite no_escape_app in Hn.
  apply andb_true_iff in Hn as [Hn _]. eauto.
Qed.

Lemma put_under_inside rest r v r' :
  no_escape rest = true ->
  fs_put r (norm c (Name e :: rest)) v = Some r' -> inside home r r'.
Proof.
  intros Hn P. destruct (norm_under c e rest Hn) as [s Hs].
  rewrite Hs in P.
  replace (c ++ e :: s) with (home ++ s) in P
    by (unfold home; rewrite <- app_assoc; reflexivity).
  eapply put_inside_below, P.
Qed.

Lemma os_mkdir_inside rest r r' :
  no_escape rest = true ->
  os_mkdir c r (Name e :: rest) = inr r' -> inside home r r'.
Proof.
  intros Hn H. apply os_mkdir_ok in H as (_ & _ & P).
  eapply put_under_inside; eauto.
Qed.

Lemma write_file_inside rest ct r r' :
  no_escape rest = true ->
  write_file c r (Name e :: rest) ct = inr r' -> inside home r r'.
Proof.
  intros Hn H. apply write_file_ok in H as (_ & _ & P).
  eapply put_under_inside; eauto.
Qed.

Lemma os_rmdir_inside rest r r' :
  no_escape rest = true ->
  os_rmdir c r (Name e :: rest) = inr r' -> inside home r r'.
Proof.
  intros Hn H. apply os_rmdir_ok in H as (_ & _ & P).
  eapply put_under_inside; eauto.
Qed.

Lemma shutil_rmtree_inside rest r r' :
  no_escape rest = true ->
  shutil_rmtree c r (Name e :: rest) = inr r' -> inside home r r'.
Proof.
  intros Hn H. apply shutil_rmtree_ok in H as (_ & _ & P).
  eapply put_under_inside; eauto.
Qed.

Lemma os_rename_inside rest1 rest2 r r' :
  no_escape rest1 = true -> no_escape rest2 = true ->
  os_rename c r (Name e :: rest1) (Name e :: rest2) = inr r' ->
  inside home r r'.
Proof.
  intros Hn1 Hn2 H. apply os_rename_ok in H as (_ & _ & ns & _ & H).
  destruct H as [[_ ->]|(_ & _ & _ & r1 & P1 & P2)].
  - apply inside_refl.
  - apply inside_trans with r1.
    + eapply put_under_inside; [exact Hn1 | exact P1].
    + eapply put_under_inside; [exact Hn2 | exact P2].
Qed.

Lemma makedirs_from_inside rest : forall todo done t r r',
  no_escape rest = true ->
  (done ++ todo) ++ t = Name e :: rest ->
  makedirs_from c r done todo = inr r' -> inside home r r'.
Proof.
  induction todo as [|x todo IH]; intros done t r r' Hn E H; simpl in H.
  - injection H as <-. apply inside_refl.
  - assert (Hx : exists rest', done ++ [x] = Name e :: rest' /\
                               no_escape rest' = true).
    { apply prefix_under with (t := todo ++ t) (rest := rest); auto.
      - rewrite <- E, <- !app_assoc. reflexivity.
      - destruct done; discriminate. }
    destruct Hx as (rest' & Ex & Hn').
    assert (E' : ((done ++ [x]) ++ todo) ++ t = Name e :: rest).
    { rewrite <- E, <- !app_assoc. reflexivity. }
    destruct todo as [|y todo].
    + destruct (os_mkdir c r (done ++ [x])) as [err|r1] eqn:Hm.
      * destruct (os_path_isdir c r (done ++ [x])); [|discriminate].
        injection H as <-. apply inside_refl.
      * injection H as <-. rewrite Ex in Hm.
        eapply os_mkdir_inside; eauto.
    + destruct (os_path_exists c r (done ++ [x])).
      * eapply IH; eauto.
      * destruct (os_mkdir c r (done ++ [x])) as [err|r1] eqn:Hm;
          [discriminate|].
        eapply inside_trans.
        -- rewrite Ex in Hm. eapply os_mkdir_inside; eauto.
        -- eapply IH; eauto.
Qed.

Lemma os_makedirs_inside rest r r' :
  no_escape rest = true ->
  os_makedirs c r (Name e :: rest) = inr r' -> inside home r r'.
Proof.
  intros Hn H. unfold os_makedirs in H.
  eapply makedirs_from_inside with (t := []); eauto.
  now rewrite app_nil_r.
Qed.

Lemma extract_member_inside b m r r' :
  no_escape b = true -> no_escape (m_name m) = true ->
  extract_member (Name e :: b) m c r = inr r' -> inside home r r'.
Proof.
  intros Hb Hm H. unfold extract_member in H.
  rewrite (os_path_join_rel _ _ (no_escape_rel _ Hm)) in H.
  set (targetpath := (Name e :: b) ++ m_name m) in *.
  assert (Ht : no_escape (b ++ m_name m) = true)
    by (rewrite no_escape_app, Hb, Hm; reflexivity).
  match type of H with
  | match ?X with _ => _ end = _ => destruct X as [err|r1] eqn:Hup
  end; [discriminate|].
  assert (I1 : inside home r r1).
  { destruct (removelast targetpath) as [|u us] eqn:Eu.
    - injection Hup as <-. apply inside_refl.
    - destruct (os_path_exists c r (u :: us)).
      + injection Hup as <-. apply inside_refl.
      + unfold os_makedirs in Hup.
        eapply makedirs_from_inside
          with (t := [last targetpath Cur]) (rest := b ++ m_name m);
          [exact Ht | | exact Hup].
        change (([] ++ u :: us) ++ [last targetpath Cur])
          with ((u :: us) ++ [last targetpath Cur]).
        rewrite <- Eu.
        rewrite <- app_removelast_last by discriminate. reflexivity. }
  eapply inside_trans; [exact I1|].
  change targetpath with (Name e :: (b ++ m_name m)) in H.
  destruct (m_kind m).
  - destruct (os_mkdir c r1 _) as [err|r2] eqn:Hmk.
    + destruct err; try discriminate.
      destruct (os_path_isdir c r1 _); [|discriminate].
      injection H as <-. apply inside_refl.
    + injection H as <-. eapply os_mkdir_inside; eauto.
  - eapply write_file_inside; eauto.
Qed.
End Confined.

Lemma extract_tar_gz_inside file_path e w :
  (forall t, read_file (cwd w) (root w) file_path = inr (TarGz t) ->
             safe_tarball t = true) ->
  let I := fun w' => cwd w' = cwd w /\
                     inside (cwd w ++ [e]) (root w) (root w') in
  wp (extract_tar_gz file_path [Name e]) (fun _ => I) (fun _ => I) w.
Proof.
  intros Hsafe I.
  assert (I0 : I w) by (split; [reflexivity | apply inside_refl]).
  assert (Istep : forall f rest w1,
             I w1 -> no_escape rest = true ->
             (forall r r', f (cwd w) r = inr r' ->
                           inside (cwd w ++ [e]) r r') ->
             wp (syscall f) (fun _ => I) (fun _ => I) w1).
  { intros f rest w1 [Hc1 Hi1] _ Hf.
    apply wp_syscall; [|intros; split; assumption].
    intros r' H. split; [exact Hc1|]. simpl. rewrite Hc1 in H.
    eapply inside_trans; [exact Hi1 | eapply Hf, H]. }
  unfold extract_tar_gz, tarfile_open, os_path_join, is_abs. simpl app.
  apply wp_bind, wp_bind, wp_attempt; [|intros; exact I0].
  intros ct Hread.
  destruct ct as [s|t]; [exact I0|].
  specialize (Hsafe t Hread).
  assert (wp (ret t) (fun a w' => a = t /\ I w') (fun _ => I) w)
    by (split; [reflexivity | exact I0]).
  apply wp_mono with (Q := fun a w' => a = t /\ I w') (R := fun _ => I);
    [destruct (members t), (damaged t); try exact H; exact I0 | | auto].
  clear H. intros ? w1 [-> H1]. cbv beta.
  apply wp_bind. eapply wp_mono;
    [apply (Istep _ [Name "temp"] w1 H1 eq_refl) | | auto].
  { intros r r'. apply os_makedirs_inside. reflexivity. }
  intros ? w2 H2. cbv beta. apply wp_bind. unfold extractall.
  apply wp_bind.
  apply wp_mono with (Q := fun _ => I) (R := fun _ => I); [| |auto].
  { apply wp_for_each; [exact H2|].
    intros m w3 Hm H3.
    apply (Istep _ [] w3 H3 eq_refl). intros r r'.
    apply extract_member_inside with (b := [Name "temp"]); [reflexivity|].
    unfold safe_tarball in Hsafe. rewrite forallb_forall in Hsafe.
    apply Hsafe, Hm. }
  intros ? w3 H3. destruct (damaged t); [exact H3|].
  apply wp_ret. 
  apply wp_bind, wp_attempt; [|intros; exact H3]. intros listing _.
  apply wp_bind.
  apply wp_mono with (Q := fun _ => I) (R := fun _ => I); [| |auto].
  { apply wp_for_each; [exact H3|].
    intros member w4 _ H4. apply wp_bind, wp_query.
    destruct (os_path_isdir _ _ _); [|exact H4].
    apply wp_bind, wp_attempt; [|intros; exact H4]. intros items _.
    apply wp_bind.
    apply wp_mono with (Q := fun _ => I) (R := fun _ => I); [| |auto].
    - apply wp_for_each; [exact H4|].
      intros item w5 _ H5.
      apply (Istep _ [] w5 H5 eq_refl). intros r r'.
      apply os_rename_inside; reflexivity.
    - intros ? w5 H5. apply (Istep _ [] w5 H5 eq_refl). intros r r'.
      apply os_rmdir_inside. reflexivity. }
  intros ? w4 H4. apply (Istep _ [] w4 H4 eq_refl). intros r r'.
  apply os_rmdir_inside. reflexivity.
Qed.

(** ** The version file during a run *)

Lemma removelast_snoc {A : Type} (l : list A) (a : A) : removelast (l ++ [a]) = l.
Proof. apply removelast_last. Qed.

Lemma os_rename_inside2 c e1 e2 r r' :
  os_rename c r [Name e1] [Name e2] = inr r' ->
  exists r1, inside (c ++ [e1]) r r1 /\ inside (c ++ [e2]) r1 r'.
Proof.
  intros H. apply os_rename_ok in H as (_ & _ & ns & _ & H).
  destruct H as [[_ ->]|(_ & _ & _ & r1 & P1 & P2)].
  - exists r. split; apply inside_refl.
  - exists r1. split; eapply put_inside; eassumption.
Qed.

(* the download lands in [temp/<name>] or does not land at all *)
Lemma comp_of_string_rel s : comp_of_string s <> Root.
Proof.
  unfold comp_of_string.
  destruct (s =? "..")%string; [discriminate|].
  destruct (s =? ".")%string; [discriminate|].
  destruct (s =? "")%string; discriminate.
Qed.

Lemma join_comp_of_string a s :
  os_path_join a [comp_of_string s] = a ++ [comp_of_string s].
Proof.
  apply os_path_join_rel. pose proof (comp_of_string_rel s) as H.
  destruct (comp_of_string s); simpl; congruence.
Qed.

Lemma download_write c r cmp ct r' :
  cmp <> Root ->
  write_file c r [Name "temp"; cmp] ct = inr r' ->
  exists b, cmp = Name b /\
            fs_put r (c ++ ["temp"; b]) (Some (File ct)) = Some r'.
Proof.
  intros Hrel H. apply write_file_ok in H as (W & Hd & P).
  destruct cmp as [| |b|]; [| | |congruence].
  - exfalso. change (norm c [Name "temp"; Up]) with (removelast (c ++ ["temp"])) in *.
    rewrite removelast_snoc in *. simpl in W. unfold is_dir in Hd.
    destruct (fs_get r c) as [[?|?]|]; discriminate.
  - exfalso. change (norm c [Name "temp"; Cur]) with (c ++ ["temp"]) in *.
    apply (walk_snoc r c [Name "temp"] Cur _ ltac:(discriminate)) in W as (_ & Hd' & _).
    change (norm c [Name "temp"]) with (c ++ ["temp"]) in Hd'. congruence.
  - exists b. split; [reflexivity|].
    change (norm c [Name "temp"; Name b]) with ((c ++ ["temp"]) ++ [b]) in P.
    rewrite <- app_assoc in P. exact P.
Qed.

Lemma read_downloaded c r b ct x :
  fs_get r (c ++ ["temp"; b]) = Some (File ct) ->
  read_file c r [Name "temp"; Name b] = inr x -> x = ct.
Proof.
  intros G H. unfold read_file in H.
  destruct (walk r c [Name "temp"; Name b]) as [e|p] eqn:W; [discriminate|].
  apply walk_norm in W. subst p.
  change (norm c [Name "temp"; Name b]) with ((c ++ ["temp"]) ++ [b]) in H.
  rewrite <- app_assoc in H. simpl in H. rewrite G in H. congruence.
Qed.

Lemma rmtree_temp_succeeds c r b n :
  fs_get r (c ++ ["temp"; b]) = Some n ->
  exists r', shutil_rmtree c r DOWNLOAD_DIR = inr r' /\
             fs_put r (c ++ ["temp"]) None = Some r'.
Proof.
  intros G.
  replace (c ++ ["temp"; b]) with ((c ++ ["temp"]) ++ [b]) in G
    by (rewrite <- app_assoc; reflexivity).
  pose proof (fs_get_snoc_dir _ _ _ _ G) as Ht.
  assert (Hc : is_dir r c = true).
  { unfold is_dir in Ht.
    destruct (fs_get r (c ++ ["temp"])) as [n'|] eqn:Gt; [|discriminate].
    eapply fs_get_snoc_dir, Gt. }
  destruct (fs_put_succeeds r c "temp" None Hc) as [r' P].
  exists r'. split; [|exact P].
  unfold shutil_rmtree, DOWNLOAD_DIR, put_or.
  pose proof (proj2 (walk_one r c (Name "temp") ltac:(discriminate)) Hc) as W.
  simpl step in W. rewrite W.
  unfold is_dir in Ht.
  destruct (fs_get r (c ++ ["temp"])) as [[?|?]|]; try discriminate.
  rewrite P. reflexivity.
Qed.

Section VersionFile.
Variable Version : Type.
Variable parse : string -> option Version.
Variable version_gt : Version -> Version -> bool.
Variable net : Remote.
Hypothesis archives_safe :
  forall url t, asset_body net url = HttpBody (TarGz t) -> safe_tarball t = true.

Variable c : path.
Variable v0 : option node.

Let vfile : path := c ++ ["local_version.txt"].

Definition vf_kept (w : World) : Prop :=
  cwd w = c /\ fs_get (root w) vfile = v0.

(* the download is in place, and nothing else has changed the version *)
Definition downloaded (url : string) (b : string) (w : World) : Prop :=
  vf_kept w /\
  exists ct, asset_body net url = HttpBody ct /\
             fs_get (root w) (c ++ ["temp"; b]) = Some (File ct).

Lemma vf_kept_same w1 w2 :
  root w2 = root w1 -> cwd w2 = cwd w1 -> vf_kept w1 -> vf_kept w2.
Proof. unfold vf_kept. intros -> ->. auto. Qed.

Lemma vf_kept_inside x w1 r' :
  x <> "local_version.txt" ->
  vf_kept w1 -> inside (c ++ [x]) (root w1) r' -> vf_kept (set_root w1 r').
Proof.
  intros Hx [Hc Hv] Hi. split; [exact Hc|]. simpl.
  rewrite Hi; [exact Hv|].
  apply (diverge_siblings c x "local_version.txt" [] []). exact Hx.
Qed.

Lemma downloaded_inside url b x w1 r' :
  x <> "local_version.txt" -> x <> "temp" ->
  downloaded url b w1 -> inside (c ++ [x]) (root w1) r' ->
  downloaded url b (set_root w1 r').
Proof.
  intros Hx Ht [Hk (ct & Hb & G)] Hi. split.
  - eapply vf_kept_inside; eauto.
  - exists ct. split; [exact Hb|]. simpl. rewrite Hi; [exact G|].
    apply (diverge_siblings c x "temp" [] [b]). exact Ht.
Qed.

Lemma vf_syscall x f w1 :
  x <> "local_version.txt" ->
  vf_kept w1 ->
  (forall r r', f c r = inr r' -> inside (c ++ [x]) r r') ->
  wp (syscall f) (fun _ => vf_kept) (fun _ => vf_kept) w1.
Proof.
  intros Hx Hk Hf. apply wp_syscall; [|intros; exact Hk].
  intros r' H. destruct Hk as [Hc Hv]. rewrite Hc in H.
  eapply vf_kept_inside; [exact Hx | split; assumption | eapply Hf, H].
Qed.

Lemma downloaded_syscall url b x f w1 :
  x <> "local_version.txt" -> x <> "temp" ->
  downloaded url b w1 ->
  (forall r r', f c r = inr r' -> inside (c ++ [x]) r r') ->
  wp (syscall f) (fun _ => downloaded url b) (fun _ => vf_kept) w1.
Proof.
  intros Hx Ht Hd Hf. apply wp_syscall; [|intros; exact (proj1 Hd)].
  intros r' H. pose proof (proj1 (proj1 Hd)) as Hc. rewrite Hc in H.
  eapply downloaded_inside; [exact Hx | exact Ht | exact Hd | eapply Hf, H].
Qed.

Lemma downloaded_extract url b x w1 :
  x <> "local_version.txt" -> x <> "temp" ->
  downloaded url b w1 ->
  wp (extract_tar_gz [Name "temp"; Name b] [Name x])
    (fun _ => downloaded url b) (fun _ => vf_kept) w1.
Proof.
  intros Hx Ht Hd.
  pose proof Hd as [[Hc Hv] (ct & Hb & G)].
  assert (Hw : forall w2, cwd w2 = cwd w1 /\
                          inside (cwd w1 ++ [x]) (root w1) (root w2) ->
                          downloaded url b w2).
  { intros w2 [Hc2 Hi]. rewrite Hc in Hi.
    pose proof (downloaded_inside url b x w1 (root w2) Hx Ht Hd Hi) as D.
    destruct D as [[_ Dv] (ct' & Db & Dg)]. simpl in *.
    split; [split; [congruence | exact Dv]|]. eauto. }
  eapply wp_mono.
  - apply extract_tar_gz_inside. intros t Hread. rewrite Hc in Hread.
    apply (read_downloaded _ _ _ _ _ G) in Hread. subst ct.
    eapply archives_safe, Hb.
  - intros ? w2 H. apply Hw, H.
  - intros ? w2 H. apply Hw, H.
Qed.

Definition updated (w : World) : Prop :=
  exists info l,
    release_json net
      ("https://api.github.com/repos/" +++ GITHUB_REPO +++ "/releases/latest")
    = Some info /\
    fs_get (root w) vfile = Some (File (Raw (tag_name info))) /\
    logs w = l ++ [(INFO, "Update complete.")].

Lemma download_file_version url w1 :
  vf_kept w1 ->
  wp (download_file net url
        (os_path_join DOWNLOAD_DIR [comp_of_string (os_path_basename url)]))
    (fun _ w' => exists b,
         comp_of_string (os_path_basename url) = Name b /\
         downloaded url b w')
    (fun _ => vf_kept) w1.
Proof.
  intros Hk. unfold download_file, DOWNLOAD_DIR. rewrite join_comp_of_string.
  simpl app.
  apply wp_bind, wp_record_request.
  set (w2 := mkWorld _ _ _ _).
  assert (Hk2 : vf_kept w2) by exact Hk.
  clearbody w2.
  assert (Hwr : forall ct r',
             write_file (cwd w2) (root w2)
               [Name "temp"; comp_of_string (os_path_basename url)] ct
             = inr r' ->
             exists b, comp_of_string (os_path_basename url) = Name b /\
                       vf_kept (set_root w2 r') /\
                       fs_get r' (c ++ ["temp"; b]) = Some (File ct)).
  { intros ct r' H. pose proof (proj1 Hk2) as Hc. rewrite Hc in H.
    apply download_write in H as (b & Eb & P);
      [|apply comp_of_string_rel]. exists b.
    split; [exact Eb|]. split.
    - apply vf_kept_inside with (x := "temp");
        [discriminate | exact Hk2 |].
      apply put_inside_below with (s := [b]) (v := Some (File ct)).
      rewrite <- app_assoc. exact P.
    - exact (fs_get_put_same _ _ _ _ P). }
  destruct (asset_body net url) as [|ct|ct] eqn:Hb.
  - exact Hk2.
  - apply wp_syscall; [|intros; exact Hk2].
    intros r' H. destruct (Hwr ct r' H) as (b & Eb & Hk3 & G).
    exists b. split; [exact Eb|]. split; [exact Hk3|]. eauto.
  - apply wp_bind, wp_syscall; [|intros; exact Hk2].
    intros r' H. destruct (Hwr ct r' H) as (b & Eb & Hk3 & G). exact Hk3.
Qed.

Lemma install_version url b tag info w1 :
  release_json net
    ("https://api.github.com/repos/" +++ GITHUB_REPO +++ "/releases/latest")
  = Some info ->
  tag = tag_name info ->
  downloaded url b w1 ->
  wp (syscall (fun cwd r => os_rename cwd r [Name "frp-temp"] EXTRACT_DIR) ;;;
      logging INFO ("Updating local version to " +++ tag) ;;;
      write_local_version LOCAL_VERSION_FILE tag ;;;
      syscall (fun cwd r => shutil_rmtree cwd r DOWNLOAD_DIR) ;;;
      logging INFO "Update complete.")%py
    (fun _ => updated) (fun _ => vf_kept) w1.
Proof.
  intros Hrel -> Hd.
  apply wp_bind.
  apply wp_mono with (Q := fun _ => downloaded url b) (R := fun _ => vf_kept);
    [| |auto].
  { apply wp_syscall; [|intros; exact (proj1 Hd)].
    intros r' H. pose proof (proj1 (proj1 Hd)) as Hc. rewrite Hc in H.
    apply os_rename_inside2 in H as (r1 & I1 & I2).
    pose proof (downloaded_inside url b "frp-temp" w1 r1
                  ltac:(discriminate) ltac:(discriminate) Hd I1) as D1.
    exact (downloaded_inside url b "frp" (set_root w1 r1) r'
             ltac:(discriminate) ltac:(discriminate) D1 I2). }
  intros ? w2 Hd2. apply wp_bind, wp_logging.
  set (w3 := mkWorld _ _ _ _).
  assert (Hd3 : downloaded url b w3) by exact Hd2. clearbody w3.
  destruct Hd3 as [[Hc3 Hv3] (ct & Hb & G3)].
  apply wp_bind. unfold write_local_version.
  apply wp_syscall; [|intros; split; assumption].
  intros r4 H4. rewrite Hc3 in H4.
  apply write_file_ok in H4 as (_ & _ & P4).
  change (norm c LOCAL_VERSION_FILE) with vfile in P4.
  assert (G4 : fs_get r4 (c ++ ["temp"; b]) = Some (File ct)).
  { rewrite (fs_get_put_diverge _ _ _ _ (c ++ ["temp"; b]) P4); [exact G3|].
    apply (diverge_siblings c "local_version.txt" "temp" [] [b]).
    discriminate. }
  destruct (rmtree_temp_succeeds c r4 b _ G4) as (r5 & E5 & P5).
  apply wp_bind, wp_syscall; simpl; rewrite Hc3, E5; [|discriminate].
  intros r' [= <-]. apply wp_logging.
  exists info, (logs w3). split; [exact Hrel|]. split; [|reflexivity].
  change (fs_get r5 vfile = Some (File (Raw (tag_name info)))).
  rewrite (fs_get_put_diverge _ _ _ _ vfile P5).
  - exact (fs_get_put_same _ _ _ _ P4).
  - apply (diverge_siblings c "temp" "local_version.txt" [] []). discriminate.
Qed.
Ltac wp_readonly_step a w Hk Hk' :=
  apply wp_bind;
  eapply wp_mono;
  [ apply wp_readonly; readonly_auto
  | intros a w [? ?];
    assert (Hk' : vf_kept w) by (eapply vf_kept_same; eassumption);
    cbv beta
  | intros ? ? [? ?]; eapply vf_kept_same; eassumption ].

Ltac wp_logging_step P w Hd Hd' :=
  apply wp_bind, wp_logging;
  match goal with |- wp _ _ _ ?x => set (w := x) end;
  assert (Hd' : P w) by exact Hd; clearbody w.

Lemma main_version_file w :
  vf_kept w ->
  wp (main parse version_gt net)
    (fun _ w' => vf_kept w' \/ updated w') (fun _ => vf_kept) w.
Proof.
  intros Hk. unfold main. rewrite temp_extract_dir_eq.
  apply wp_bind. unfold get_latest_release_info.
  apply wp_bind, wp_record_request.
  match goal with |- wp _ _ _ ?x => set (w1 := x) end.
  assert (Hk1 : vf_kept w1) by exact Hk. clearbody w1.
  destruct (release_json net _) as [info|] eqn:Hrel; [|exact Hk1].
  apply wp_ret. cbv beta zeta.
  destruct (find_asset_url (assets info)) as [asset_url|].
  2: { apply wp_logging. left. exact Hk1. }
  wp_readonly_step local_version w2 Hk1 Hk2.
  apply wp_bind.
  eapply wp_mono;
    [ apply wp_readonly; destruct local_version; readonly_auto
    | intros stop w3 [? ?];
      assert (Hk3 : vf_kept w3) by (eapply vf_kept_same; eassumption);
      cbv beta
    | intros ? ? [? ?]; eapply vf_kept_same; eassumption ].
  destruct stop.
  { apply wp_logging. left. exact Hk3. }
  wp_logging_step vf_kept w4 Hk3 Hk4.
  apply wp_bind.
  eapply wp_mono;
    [ apply (vf_syscall "temp");
      [ discriminate | exact Hk4
      | intros r r'; apply (os_makedirs_inside c "temp" []); reflexivity ]
    | intros ? w5 Hk5; cbv beta | auto ].
  wp_logging_step vf_kept w6 Hk5 Hk6.
  apply wp_bind.
  eapply wp_mono;
    [ apply download_file_version; exact Hk6
    | intros ? w7 (b & Eb & Hd7); cbv beta | auto ].
  rewrite Eb.
  wp_logging_step (downloaded asset_url b) w8 Hd7 Hd8.
  apply wp_bind.
  eapply wp_mono;
    [ apply (downloaded_extract asset_url b "frp");
      [ discriminate | discriminate | exact Hd8 ]
    | intros ? w9 Hd9; cbv beta | auto ].
  apply wp_bind.
  eapply wp_mono;
    [ apply (downloaded_syscall asset_url b "frp-temp");
      [ discriminate | discriminate | exact Hd9
      | intros r r'; apply (os_makedirs_inside c "frp-temp" []); reflexivity ]
    | intros ? w10 Hd10; cbv beta | auto ].
  apply wp_bind.
  eapply wp_mono;
    [ apply (downloaded_extract asset_url b "frp-temp");
      [ discriminate | discriminate | exact Hd10 ]
    | intros ? w11 Hd11; cbv beta | auto ].
  apply wp_bind, wp_query. apply wp_bind.
  apply wp_mono with (Q := fun _ => downloaded asset_url b)
                     (R := fun _ => vf_kept); [| |auto].
  { destruct (os_path_exists _ _ _); [|exact Hd11].
    wp_logging_step (downloaded asset_url b) w12 Hd11 Hd12.
    apply (downloaded_syscall asset_url b "frp");
      [ discriminate | discriminate | exact Hd12 |].
    intros r r'. apply (shutil_rmtree_inside c "frp" []). reflexivity. }
  intros ? w12 Hd12.
  wp_logging_step (downloaded asset_url b) w13 Hd12 Hd13.
  eapply wp_mono;
    [ apply (install_version asset_url b (tag_name info) info);
      [ exact Hrel | reflexivity | exact Hd13 ]
    | intros ? w14 Hup; right; exact Hup | auto ].
Qed.

Lemma script_version_file w :
  vf_kept w ->
  wp (script parse version_gt net)
    (fun _ w' => vf_kept w' \/ updated w') (fun _ => vf_kept) w.
Proof.
  intros Hk. unfold script, module_init.
  apply wp_bind.
  eapply wp_mono;
    [ apply (vf_syscall "frp");
      [ discriminate | exact Hk
      | intros r r'; apply (os_makedirs_inside c "frp" []); reflexivity ]
    | intros ? w1 Hk1; apply main_version_file, Hk1 | auto ].
Qed.
End VersionFile.

(** ** The version gate of [main] *)

Lemma logs_grow_ret {A : Type} (a : A) : logs_grow (ret a).
Proof. intros w. exists []. simpl. now rewrite app_nil_r. Qed.

Lemma logs_grow_raise {A : Type} e : logs_grow (@raise A e).
Proof. intros w. exists []. simpl. now rewrite app_nil_r. Qed.

Lemma logs_grow_bind {A B : Type} (c : M A) (k : A -> M B) :
  logs_grow c -> (forall a, logs_grow (k a)) -> logs_grow (bind c k).
Proof.
  intros Hc Hk w. unfold bind. destruct (Hc w) as [l Hl].
  destruct (c w) as [a w'|e w']; simpl in *; [|eauto].
  destruct (Hk a w') as [l' Hl']. exists (l ++ l').
  now rewrite Hl', Hl, app_assoc.
Qed.

Lemma logs_grow_query {A : Type} (f : path -> node -> A) : logs_grow (query f).
Proof. intros w. exists []. simpl. now rewrite app_nil_r. Qed.

Lemma logs_grow_attempt {A : Type} (f : path -> node -> exn + A) :
  logs_grow (attempt f).
Proof.
  intros w. exists []. unfold attempt.
  destruct (f _ _); simpl; now rewrite app_nil_r.
Qed.

Lemma logs_grow_syscall f : logs_grow (syscall f).
Proof.
  intros w. exists []. unfold syscall.
  destruct (f _ _); simpl; now rewrite app_nil_r.
Qed.

Lemma logs_grow_logging l msg : logs_grow (logging l msg).
Proof. intros w. exists [(l, msg)]. reflexivity. Qed.

Lemma logs_grow_record_request url : logs_grow (record_request url).
Proof. intros w. exists []. simpl. now rewrite app_nil_r. Qed.

Lemma logs_grow_for_each {A : Type} (xs : list A) (body : A -> M unit) :
  (forall x, logs_grow (body x)) -> logs_grow (for_each xs body).
Proof.
  intros Hb. induction xs as [|x xs IH]; simpl.
  - apply logs_grow_ret.
  - apply logs_grow_bind; auto.
Qed.

Create HintDb logs_grow.
#[local] Hint Resolve logs_grow_ret logs_grow_raise logs_grow_query
  logs_grow_attempt logs_grow_syscall logs_grow_logging
  logs_grow_record_request : logs_grow.

Ltac logs_grow_step :=
  match goal with
  | |- logs_grow (bind _ _) => apply logs_grow_bind
  | |- logs_grow (for_each _ _) => apply logs_grow_for_each
  | |- logs_grow (match ?x with _ => _ end) => destruct x
  | |- forall _, _ => intro
  | |- logs_grow _ => solve [auto with logs_grow]
  end.

Ltac logs_grow_auto := repeat logs_grow_step.

Lemma logs_grow_extract_tar_gz file_path extract_to :
  logs_grow (extract_tar_gz file_path extract_to).
Proof. unfold extract_tar_gz, tarfile_open, extractall. logs_grow_auto. Qed.

Lemma logs_grow_download_file net url local_path :
  logs_grow (download_file net url local_path).
Proof. unfold download_file. logs_grow_auto. Qed.

Lemma logs_grow_write_local_version raw v :
  logs_grow (write_local_version raw v).
Proof. unfold write_local_version. logs_grow_auto. Qed.

#[local] Hint Resolve logs_grow_extract_tar_gz logs_grow_download_file
  logs_grow_write_local_version : logs_grow.

Lemma bind_ok {A B : Type} (c : M A) (k : A -> M B) w a w' :
  c w = Ok a w' -> bind c k w = k a w'.
Proof. unfold bind. now intros ->. Qed.

Lemma bind_raise {A B : Type} (c : M A) (k : A -> M B) w e w' :
  c w = Raise e w' -> bind c k w = Raise e w'.
Proof. unfold bind. now intros ->. Qed.

(* the first computation of a [bind] returns [v], or raises [e], without
   changing the world *)
Ltac bind_steps_ok H v :=
  match type of H with
  | _ = bind ?c ?k ?w => rewrite (bind_ok c k w v w eq_refl) in H
  end.

Ltac bind_steps_raise H e :=
  match type of H with
  | _ = bind ?c ?k ?w => rewrite (bind_raise c k w e w eq_refl) in H
  end.

Lemma read_local_version_world raw w :
  final_world (read_local_version raw w) = w.
Proof.
  unfold read_local_version, bind, query, attempt, raise, ret.
  destruct (negb _); [reflexivity|].
  destruct (read_file _ _ _) as [?|[?|?]]; reflexivity.
Qed.

(** X13.  What [main] does once an asset is found, for every stored
    version and every release tag: it stops with "No new version available" exactly
    when a version is stored and compares greater than the tag; when no
    version is stored, or the stored one is not greater (equal included),
    it announces a new version and goes on to download. *)
Theorem update_gate :
  forall (Version : Type) (parse : string -> option Version)
         (version_gt : Version -> Version -> bool) (net : Remote)
         (w : World) (info : ReleaseInfo) (asset_url : string),
    release_json net
      ("https://api.github.com/repos/" +++ GITHUB_REPO +++ "/releases/latest")
    = Some info ->
    find_asset_url (assets info) = Some asset_url ->
    let w1 :=
      mkWorld (root w) (cwd w) (logs w)
        (requests w ++ ["https://api.github.com/repos/" +++ GITHUB_REPO
                        +++ "/releases/latest"]) in
    let goes_on :=
      exists l,
        logs (final_world (main parse version_gt net w))
        = logs w ++ (INFO, "New version available: " +++ tag_name info) :: l in
    match read_local_version LOCAL_VERSION_FILE w1 with
    | Raise e _ => main parse version_gt net w = Raise e w1
    | Ok None _ => goes_on
    | Ok (Some stored) _ =>
        match parse stored, parse (tag_name info) with
        | Some a, Some b =>
            if version_gt a b
            then main parse version_gt net w
                 = Ok tt (mkWorld (root w) (cwd w)
                            (logs w ++ [(INFO, "No new version available")])
                            (requests w1))
            else goes_on
        | _, _ => main parse version_gt net w = Raise InvalidVersion w1
        end
    end.
Proof.
  intros Version parse version_gt net w info asset_url Hrel Hfind w1 goes_on.
  subst goes_on.
  remember (main parse version_gt net w) as outcome eqn:Hm.
  unfold main in Hm. rewrite temp_extract_dir_eq in Hm.
  rewrite (bind_ok _ _ w info w1) in Hm.
  2: { unfold get_latest_release_info, bind, record_request.
       rewrite Hrel. reflexivity. }
  cbv beta zeta in Hm. rewrite Hfind in Hm.
  pose proof (read_local_version_world LOCAL_VERSION_FILE w1) as Hw.
  destruct (read_local_version LOCAL_VERSION_FILE w1) as [lv w2|e w2]
    eqn:Hread; simpl in Hw; subst w2.
  2: { rewrite (bind_raise _ _ w1 e w1 Hread) in Hm. exact Hm. }
  rewrite (bind_ok _ _ w1 lv w1 Hread) in Hm.
  assert (Hgo : forall rest : M unit,
             logs_grow rest ->
             outcome
             = (logging INFO ("New version available: " +++ tag_name info) ;;;
                rest)%py w1 ->
             exists l,
               logs (final_world outcome)
               = logs w ++ (INFO, "New version available: "
                                  +++ tag_name info) :: l).
  { intros rest Hg ->. unfold bind, logging.
    destruct (Hg (mkWorld (root w1) (cwd w1)
                    (logs w1 ++ [(INFO, "New version available: "
                                        +++ tag_name info)])
                    (requests w1))) as [l Hl].
    exists l. rewrite Hl. simpl. now rewrite <- app_assoc. }
  destruct lv as [stored|].
  - unfold version_parse in Hm.
    destruct (parse stored) as [a|].
    + destruct (parse (tag_name info)) as [b|].
      * bind_steps_ok Hm (version_gt a b).
        destruct (version_gt a b); [exact Hm|].
        eapply Hgo; [|exact Hm]. logs_grow_auto.
      * bind_steps_raise Hm InvalidVersion. exact Hm.
    + bind_steps_raise Hm InvalidVersion. exact Hm.
  - bind_steps_ok Hm false.
    eapply Hgo; [|exact Hm]. logs_grow_auto.
Qed.

(** * Main results *)


(** C7 (as amended).  A run of [main] that returns normally has either
    done nothing to the file system (no matching asset, or nothing newer
    to install) or has removed every scratch path: [temp] with the
    downloaded archive in it, [frp-temp], and the staging directory
    [frp/temp].  Nothing is said about runs that raise: they clean up
    nothing. *)
Theorem main_success_removes_scratch :
  forall (Version : Type) (parse : string -> option Version)
         (version_gt : Version -> Version -> bool) (net : Remote)
         (w w' : World),
    main parse version_gt net w = Ok tt w' ->
    root w' = root w \/ scratch_gone (cwd w) (root w').
Proof.
  intros Version parse version_gt net w w' H.
  exact (wp_elim_ok _ _ _ _ _ _
           (main_scratch Version parse version_gt net w) H).
Qed.

(** C8 (as amended).  When no asset of the release matches, [main] logs
    the error and returns, having requested the release description and
    nothing else, with the file system exactly as it was.  Running the
    file also executes the module-level [os.makedirs(EXTRACT_DIR)] before
    [main]: that leaves an existing [frp] directory and the version file
    alone, and creates an empty [frp] when there was none. *)
Theorem no_matching_asset_run :
  forall (Version : Type) (parse : string -> option Version)
         (version_gt : Version -> Version -> bool) (net : Remote)
         (w : World) (info : ReleaseInfo),
    release_json net
      ("https://api.github.com/repos/" +++ GITHUB_REPO +++ "/releases/latest")
    = Some info ->
    find_asset_url (assets info) = None ->
    let said (v : World) :=
      mkWorld (root v) (cwd v)
        (logs v ++ [(ERROR, "No matching asset found.")])
        (requests v ++ ["https://api.github.com/repos/" +++ GITHUB_REPO
                        +++ "/releases/latest"]) in
    main parse version_gt net w = Ok tt (said w) /\
    match os_makedirs (cwd w) (root w) EXTRACT_DIR with
    | inl e => script parse version_gt net w = Raise e w
    | inr r' =>
        script parse version_gt net w = Ok tt (said (set_root w r')) /\
        fs_get r' (cwd w ++ ["local_version.txt"])
        = fs_get (root w) (cwd w ++ ["local_version.txt"]) /\
        (is_dir (root w) (cwd w ++ ["frp"]) = true -> r' = root w) /\
        (fs_get (root w) (cwd w ++ ["frp"]) = None ->
         fs_get r' (cwd w ++ ["frp"]) = Some (Dir []))
    end.
Proof.
  intros Version parse version_gt net w info Hrel Hnone said.
  assert (Hmain : forall v, main parse version_gt net v = Ok tt (said v)).
  { intros v. unfold main, get_latest_release_info, bind, record_request.
    rewrite Hrel. unfold ret. rewrite Hnone. reflexivity. }
  split; [apply Hmain|].
  unfold script, module_init, bind, syscall.
  destruct (os_makedirs (cwd w) (root w) EXTRACT_DIR) as [e|r'] eqn:Hmk;
    [reflexivity|].
  split; [apply Hmain|].
  unfold os_makedirs, EXTRACT_DIR in Hmk. simpl in Hmk.
  destruct (os_mkdir (cwd w) (root w) [Name "frp"]) as [e|r1] eqn:Hm.
  - destruct (os_path_isdir (cwd w) (root w) [Name "frp"]) eqn:Hd;
      [|discriminate].
    injection Hmk as <-. repeat split; auto.
    intros Hn. exfalso. unfold os_path_isdir in Hd.
    destruct (walk (root w) (cwd w) [Name "frp"]) as [?|p] eqn:W;
      [discriminate|].
    apply walk_norm in W. subst p.
    change (norm (cwd w) [Name "frp"]) with (cwd w ++ ["frp"]) in Hd.
    unfold is_dir in Hd. rewrite Hn in Hd. discriminate.
  - injection Hmk as <-. apply os_mkdir_ok in Hm as (_ & Hn & P).
    change (norm (cwd w) [Name "frp"]) with (cwd w ++ ["frp"]) in *.
    repeat split.
    + apply (fs_get_put_diverge _ _ _ _ _ P).
      apply (diverge_siblings (cwd w) "frp" "local_version.txt" [] []).
      discriminate.
    + unfold is_dir. rewrite Hn. discriminate.
    + intros _. exact (fs_get_put_same _ _ _ _ P).
Qed.

(** * The archive name pattern *)

Lemma append_assoc (a b c : string) : (a +++ b) +++ c = a +++ (b +++ c).
Proof. induction a as [|x a IH]; simpl; [reflexivity | now rewrite IH]. Qed.

Lemma append_nil_r (a : string) : a +++ "" = a.
Proof. induction a as [|x a IH]; simpl; [reflexivity | now rewrite IH]. Qed.

Lemma append_eq_nil (a b : string) : a +++ b = "" -> a = "" /\ b = "".
Proof. destruct a; simpl; [auto | discriminate]. Qed.

Lemma append_eq_cons (a b : string) c s :
  a +++ b = String c s ->
  (a = "" /\ b = String c s) \/ (exists a', a = String c a' /\ s = a' +++ b).
Proof.
  destruct a as [|x a]; simpl; [auto|].
  intros [= -> <-]. right. eauto.
Qed.

Lemma in_row_nonempty p lo hi : in_row p lo hi "" = false.
Proof. destruct p; reflexivity. Qed.

Lemma is_decimal_nonempty : is_decimal "" = false.
Proof.
  unfold is_decimal. generalize decimal_digits as rows.
  induction rows as [|[[p lo] hi] rows IH]; simpl; [reflexivity|].
  now rewrite in_row_nonempty.
Qed.

Lemma nullable_lang r : nullable r = true <-> lang r "".
Proof.
  split.
  - induction r; simpl; intros H; try discriminate.
    + constructor.
    + apply andb_true_iff in H as [H1 H2].
      change "" with ("" +++ ""). constructor; auto.
    + apply orb_true_iff in H as [H|H];
        [apply lang_alt_l | apply lang_alt_r]; auto.
    + constructor.
  - intros H. remember "" as s eqn:Es.
    induction H; simpl; try discriminate; auto.
    + subst d. rewrite is_decimal_nonempty in H. discriminate.
    + apply append_eq_nil in Es as [-> ->].
      rewrite IHlang1, IHlang2; auto.
    + rewrite IHlang; auto.
    + rewrite IHlang, orb_true_r; auto.
Qed.

Lemma lang_void_inv s : ~ lang Void s.
Proof. inversion 1. Qed.

Lemma lang_eps_inv s : lang Eps s -> s = "".
Proof. inversion 1; reflexivity. Qed.

Lemma lang_chr_inv c s : lang (Lit c) s -> s = String c "".
Proof. inversion 1; reflexivity. Qed.

Lemma lang_range_inv lo hi s :
  lang (Range lo hi) s -> exists c, in_range lo hi c = true /\ s = String c "".
Proof. inversion 1; eauto. Qed.

Lemma lang_digit_inv s : lang Digit s -> is_decimal s = true.
Proof. inversion 1; auto. Qed.

Lemma lang_cat_inv r1 r2 s :
  lang (Cat r1 r2) s -> exists s1 s2, s = s1 +++ s2 /\ lang r1 s1 /\ lang r2 s2.
Proof. inversion 1; subst; eauto. Qed.

Lemma lang_alt_inv r1 r2 s : lang (Alt r1 r2) s -> lang r1 s \/ lang r2 s.
Proof. inversion 1; auto. Qed.

(** The bytes a decimal digit goes on with. *)

Lemma lang_alt r s t : lang (alt r s) t <-> lang r t \/ lang s t.
Proof.
  pose proof (lang_void_inv t) as Hv.
  assert (Ha : lang (Alt r s) t <-> lang r t \/ lang s t).
  { split; [apply lang_alt_inv|].
    intros [H|H]; [now apply lang_alt_l | now apply lang_alt_r]. }
  destruct r, s; simpl; tauto.
Qed.

Lemma lang_row p lo hi s :
  lang (Cat (bytes p) (Range lo hi)) s <-> in_row p lo hi s = true.
Proof.
  revert s; induction p as [|b p IH]; intros s; simpl; split.
  - intros H. apply lang_cat_inv in H as (s1 & s2 & -> & H1 & H2).
    apply lang_eps_inv in H1 as ->.
    apply lang_range_inv in H2 as (c & Hc & ->). exact Hc.
  - destruct s as [|c [|? ?]]; try discriminate. intros H.
    change (String c "") with ("" +++ String c "").
    constructor; [constructor | now constructor].
  - intros H. apply lang_cat_inv in H as (s1 & s2 & -> & H1 & H2).
    apply lang_cat_inv in H1 as (s3 & s4 & -> & H3 & H4).
    apply lang_chr_inv in H3 as ->. simpl. rewrite Ascii.eqb_refl. simpl.
    apply IH. now constructor.
  - destruct s as [|c s]; [discriminate|]. intros H.
    apply andb_true_iff in H as [Hc H]. apply Ascii.eqb_eq in Hc as ->.
    apply IH in H. apply lang_cat_inv in H as (s1 & s2 & -> & H1 & H2).
    change (String (ascii_of_nat b) (s1 +++ s2))
      with ((String (ascii_of_nat b) "" +++ s1) +++ s2).
    constructor; [|exact H2]. constructor; [constructor | exact H1].
Qed.

Lemma lang_row_after c p lo hi s :
  lang (row_after c (p, lo, hi)) s <-> in_row p lo hi (String c s) = true.
Proof.
  destruct p as [|b p]; simpl.
  - destruct (in_range lo hi c); split.
    + intros H. now apply lang_eps_inv in H as ->.
    + destruct s; [constructor | discriminate].
    + intros H. now apply lang_void_inv in H.
    + destruct s; discriminate.
  - destruct (Ascii.eqb c (ascii_of_nat b)); simpl.
    + apply lang_row.
    + split; [intros H; now apply lang_void_inv in H | discriminate].
Qed.

Lemma lang_digit_after c s :
  lang (digit_after c) s <-> is_decimal (String c s) = true.
Proof.
  unfold digit_after, is_decimal. generalize decimal_digits as rows.
  induction rows as [|[[p lo] hi] rows IH]; cbn [fold_right existsb].
  - split; [intros H; now apply lang_void_inv in H | discriminate].
  - rewrite lang_alt, orb_true_iff, IH, lang_row_after. reflexivity.
Qed.

Lemma deriv_sound c r : forall s, lang (deriv c r) s -> lang r (String c s).
Proof.
  induction r; simpl; intros s H.
  - inversion H.
  - inversion H.
  - destruct (Ascii.eqb_spec c c0) as [->|]; inversion H. constructor.
  - destruct (in_range lo hi c) eqn:Hd; inversion H. now constructor.
  - constructor. now apply lang_digit_after.
  - assert (Hcat : forall t, lang (Cat (deriv c r1) r2) t ->
                             lang (Cat r1 r2) (String c t)).
    { intros t Ht. inversion Ht; subst.
      change (String c (s1 +++ s2)) with (String c s1 +++ s2).
      constructor; auto. }
    destruct (nullable r1) eqn:Hn; [|auto].
    inversion H; subst; [auto|].
    change (String c s) with ("" +++ String c s).
    constructor; [now apply nullable_lang | auto].
  - inversion H; subst; [apply lang_alt_l | apply lang_alt_r]; auto.
  - inversion H; subst.
    change (String c (s1 +++ s2)) with (String c s1 +++ s2).
    constructor; auto.
Qed.

Lemma deriv_complete c r t :
  lang r t -> forall u, t = String c u -> lang (deriv c r) u.
Proof.
  induction 1; intros u E; simpl; try discriminate.
  - injection E as -> <-. rewrite Ascii.eqb_refl. constructor.
  - injection E as -> <-. rewrite H. constructor.
  - subst d. now apply lang_digit_after.
  - apply append_eq_cons in E as [[-> ->]|(a' & -> & ->)].
    + assert (Hn : nullable r1 = true) by now apply nullable_lang.
      rewrite Hn. apply lang_alt_r. auto.
    + destruct (nullable r1);
        [apply lang_alt_l|]; constructor; auto.
  - apply lang_alt_l; auto.
  - apply lang_alt_r; auto.
  - apply append_eq_cons in E as [[-> ->]|(a' & -> & ->)].
    + apply (IHlang2 u eq_refl).
    + constructor; auto.
Qed.

Lemma re_match_lang r s :
  re_match r s = true <-> exists s1 s2, s = s1 +++ s2 /\ lang r s1.
Proof.
  revert r; induction s as [|c s IH]; intros r; simpl.
  - rewrite orb_false_r, nullable_lang. split.
    + intros H. exists "", "". auto.
    + intros (s1 & s2 & E & H). symmetry in E.
      apply append_eq_nil in E as [-> _]. exact H.
  - rewrite orb_true_iff, nullable_lang, IH. split.
    + intros [H|(s1 & s2 & -> & H)].
      * exists "", (String c s). auto.
      * exists (String c s1), s2. split; [reflexivity|].
        now apply deriv_sound.
    + intros (s1 & s2 & E & H). symmetry in E.
      apply append_eq_cons in E as [[-> _]|(a' & -> & ->)]; [now left|].
      right. exists a', s2. split; [reflexivity|].
      eapply deriv_complete; eauto.
Qed.

Lemma lang_lit_iff t s : lang (lit t) s <-> s = t.
Proof.
  revert s; induction t as [|c t IH]; intros s; simpl; split.
  - apply lang_eps_inv.
  - intros ->. constructor.
  - intros H. apply lang_cat_inv in H as (s1 & s2 & -> & H1 & H2).
    apply lang_chr_inv in H1 as ->. apply IH in H2 as ->. reflexivity.
  - intros ->. change (String c t) with (String c "" +++ t).
    constructor; [constructor | now apply IH].
Qed.

Lemma lang_star_digits s : lang (Star Digit) s <-> s = "" \/ numeral s.
Proof.
  split.
  - intros H. remember (Star Digit) as r eqn:Er.
    induction H; try discriminate; [now left|].
    injection Er as ->. right.
    apply lang_digit_inv in H.
    destruct (IHlang2 eq_refl) as [->|Hn].
    + rewrite append_nil_r. now constructor.
    + now apply numeral_more.
  - intros [->|H]; [constructor|].
    induction H as [d Hd|d s Hd _ IH].
    + rewrite <- (append_nil_r d).
      constructor; [now constructor | constructor].
    + constructor; [now constructor | exact IH].
Qed.

Lemma lang_number s : lang (Plus Digit) s <-> numeral s.
Proof.
  unfold Plus. split.
  - intros H. apply lang_cat_inv in H as (s1 & s2 & -> & H1 & H2).
    apply lang_digit_inv in H1.
    apply lang_star_digits in H2 as [->|H2].
    + rewrite append_nil_r. now constructor.
    + now apply numeral_more.
  - intros H. destruct H as [d Hd|d s Hd H].
    + rewrite <- (append_nil_r d).
      constructor; [now constructor | constructor].
    + constructor; [now constructor|].
      apply lang_star_digits. now right.
Qed.

(** ASCII digits are decimal digits. *)

Lemma is_digit_decimal c : is_digit c = true -> is_decimal (String c "") = true.
Proof.
  intros H. unfold is_decimal, decimal_digits. cbn [existsb in_row].
  unfold is_digit in H. now rewrite H.
Qed.

Lemma all_digits_numeral c s :
  is_digit c = true -> all_digits s = true -> numeral (String c s).
Proof.
  revert c; induction s as [|c' s IH]; intros c Hc H.
  - constructor. now apply is_digit_decimal.
  - simpl in H. apply andb_true_iff in H as [Hc' H].
    change (String c (String c' s)) with (String c "" +++ String c' s).
    apply numeral_more; [now apply is_digit_decimal | now apply IH].
Qed.

Lemma is_number_numeral s : is_number s = true -> numeral s.
Proof.
  destruct s as [|c s]; simpl; [discriminate|]. intros H.
  apply andb_true_iff in H as [Hc H]. now apply all_digits_numeral.
Qed.

Lemma lang_archive_name s :
  lang ARCHIVE_NAME_PATTERN s <->
  exists major minor patch,
    numeral major /\ numeral minor /\ numeral patch /\
    s = "frp_" +++ major +++ "." +++ minor +++ "." +++ patch
        +++ "_linux_amd64.tar.gz".
Proof.
  unfold ARCHIVE_NAME_PATTERN, Group. split.
  - intros H.
    apply lang_cat_inv in H as (p & s1 & -> & Hp & H).
    apply lang_lit_iff in Hp as ->.
    apply lang_cat_inv in H as (v & q & -> & Hv & Hq).
    apply lang_lit_iff in Hq as ->.
    apply lang_cat_inv in Hv as (a & v1 & -> & Ha & Hv).
    apply lang_cat_inv in Hv as (d1 & v2 & -> & Hd1 & Hv).
    apply lang_cat_inv in Hv as (b & v3 & -> & Hb & Hv).
    apply lang_cat_inv in Hv as (d2 & c & -> & Hd2 & Hc).
    apply lang_chr_inv in Hd1 as ->. apply lang_chr_inv in Hd2 as ->.
    apply lang_number in Ha, Hb, Hc.
    exists a, b, c. repeat split; auto.
    rewrite !append_assoc. reflexivity.
  - intros (a & b & c & Ha & Hb & Hc & ->).
    apply lang_number in Ha, Hb, Hc.
    apply lang_cat with (r1 := lit "frp_"); [now apply lang_lit_iff|].
    replace (a +++ "." +++ b +++ "." +++ c +++ "_linux_amd64.tar.gz")
      with ((a +++ "." +++ b +++ "." +++ c) +++ "_linux_amd64.tar.gz")
      by (rewrite !append_assoc; reflexivity).
    constructor; [|now apply lang_lit_iff].
    constructor; [exact Ha|].
    apply lang_cat with (r1 := Lit ".") (s1 := "."); [constructor|].
    constructor; [exact Hb|].
    apply lang_cat with (r1 := Lit ".") (s1 := "."); [constructor|].
    exact Hc.
Qed.

Lemma re_match_conventional n :
  re_match ARCHIVE_NAME_PATTERN n = true <-> conventional n.
Proof.
  rewrite re_match_lang. unfold conventional. split.
  - intros (s1 & rest & -> & H).
    apply lang_archive_name in H as (a & b & c & Ha & Hb & Hc & ->).
    exists a, b, c, rest. repeat split; auto.
    rewrite !append_assoc. reflexivity.
  - intros (a & b & c & rest & Ha & Hb & Hc & ->).
    exists ("frp_" +++ a +++ "." +++ b +++ "." +++ c
            +++ "_linux_amd64.tar.gz"), rest.
    split; [rewrite !append_assoc; reflexivity|].
    apply lang_archive_name. exists a, b, c. auto.
Qed.

(** C6.  [find_asset_url] goes through the assets in list order.  It
    returns the download URL of the first asset whose name starts with
    [frp_<digits>.<digits>.<digits>_linux_amd64.tar.gz], the digits being
    decimal digits of any script, as [\d] takes them: every asset before
    it fails to match, whatever comes after it.  When no name matches it
    returns [None]; being a total function, it never raises. *)
Theorem find_asset_url_first_match :
  forall assets : list Asset,
    match find_asset_url assets with
    | Some url =>
        exists before asset after,
          assets = before ++ asset :: after /\
          (forall a, In a before -> ~ conventional (name a)) /\
          conventional (name asset) /\
          url = browser_download_url asset
    | None => forall a, In a assets -> ~ conventional (name a)
    end.
Proof.
  intros l. induction l as [|a rest IH]; simpl.
  - intros a [].
  - destruct (re_match ARCHIVE_NAME_PATTERN (name a)) eqn:Hm.
    + exists [], a, rest.
      split; [reflexivity|]. split; [intros b []|].
      split; [now apply re_match_conventional | reflexivity].
    + assert (Ha : ~ conventional (name a)).
      { intros Hc. apply re_match_conventional in Hc. congruence. }
      destruct (find_asset_url rest) as [url|].
      * destruct IH as (before & asset & after & -> & Hb & Hc & ->).
        exists (a :: before), asset, after.
        split; [reflexivity|]. split; [|split; [exact Hc | reflexivity]].
        intros b [<-|Hin]; auto.
      * intros b [<-|Hin]; auto.
Qed.

(** * An entry that climbs out of the staging directory *)

Lemma aremove_absent {V : Type} x (es : list (string * V)) :
  alookup x es = None -> aremove x es = es.
Proof.
  induction es as [|[y u] es IH]; simpl; [reflexivity|].
  destruct (String.eqb x y); [discriminate|].
  intros H. now rewrite IH.
Qed.

Lemma aremove_ainsert_absent {V : Type} x v (es : list (string * V)) :
  alookup x es = None -> aremove x (ainsert x v es) = es.
Proof.
  induction es as [|[y u] es IH]; simpl.
  - now rewrite String.eqb_refl.
  - destruct (String.eqb x y) eqn:E; [discriminate|].
    intros H. simpl. rewrite E, IH; auto.
Qed.

Lemma fs_put_entries r p x v r' es :
  fs_get r p = Some (Dir es) ->
  fs_put r (p ++ [x]) v = Some r' ->
  fs_get r' p =
  Some (Dir (match v with
             | Some n => ainsert x n es
             | None => aremove x es
             end)).
Proof.
  revert r r'; induction p as [|y p IH]; intros r r' G P.
  - simpl in *. injection G as ->. injection P as <-. reflexivity.
  - destruct r as [ct|fs]; [discriminate|]. simpl in G.
    change ((y :: p) ++ [x]) with (y :: (p ++ [x])) in P.
    rewrite fs_put_deep in P by (destruct p; discriminate).
    destruct (alookup y fs) as [ch|] eqn:Hy; [|discriminate].
    destruct (fs_put ch (p ++ [x]) v) as [ch'|] eqn:Hc; [|discriminate].
    injection P as <-. simpl. rewrite alookup_ainsert, String.eqb_refl.
    exact (IH ch ch' G Hc).
Qed.

Section Traversal.
Variables (c : path) (e n data : string) (es : list (string * node)).

Let target : path := c ++ [e].
Let staging : path := target ++ ["temp"].
Let outside : path := c ++ [n].

Let evil : tarball := Tarball [Member [Up; Up; Name n] (MFile data)] false.

Variable r : node.
Hypothesis target_dir : fs_get r target = Some (Dir es).
Hypothesis no_staging : alookup "temp" es = None.
Hypothesis outside_free : is_dir r outside = false.

Lemma traversal_names : e <> n.
Proof.
  intros ->. unfold is_dir, outside, target in *.
  rewrite target_dir in outside_free. discriminate.
Qed.

Lemma traversal_cwd_dir : is_dir r c = true.
Proof. eapply fs_get_snoc_dir, target_dir. Qed.

Lemma traversal_diverge s : diverge (target ++ s) outside.
Proof.
  apply diverge_extend.
  exact (diverge_siblings c e n [] [] traversal_names).
Qed.

Lemma dir_walk_two r0 :
  is_dir r0 c = true -> is_dir r0 target = true ->
  walk r0 c [Name e; Name "temp"] = inr staging.
Proof.
  intros Hc Ht.
  change [Name e; Name "temp"] with ([Name e] ++ [Name "temp"]).
  rewrite walk_app, (proj2 (walk_one r0 c (Name e) ltac:(discriminate)) Hc).
  exact (proj2 (walk_one r0 target (Name "temp") ltac:(discriminate)) Ht).
Qed.

Lemma traversal_makedirs :
  exists r1,
    os_makedirs c r [Name e; Name "temp"] = inr r1 /\
    fs_put r staging (Some (Dir [])) = Some r1.
Proof.
  assert (Ht : is_dir r target = true)
    by (unfold is_dir; now rewrite target_dir).
  destruct (fs_put_succeeds r target "temp" (Some (Dir [])) Ht) as [r1 P].
  exists r1. split; [|exact P].
  unfold os_makedirs. simpl.
  assert (Hex : os_path_exists c r [Name e] = true).
  { unfold os_path_exists.
    rewrite (proj2 (walk_one r c (Name e) ltac:(discriminate)) traversal_cwd_dir).
    unfold present. simpl. fold target. now rewrite target_dir. }
  rewrite Hex. unfold os_mkdir, put_or.
  rewrite (dir_walk_two r traversal_cwd_dir Ht).
  unfold staging. rewrite fs_get_app, target_dir. simpl.
  rewrite no_staging. rewrite P. reflexivity.
Qed.

Lemma traversal_extract r1 :
  fs_put r staging (Some (Dir [])) = Some r1 ->
  exists r2,
    extract_member [Name e; Name "temp"] (Member [Up; Up; Name n] (MFile data))
      c r1 = inr r2 /\
    fs_put r1 outside (Some (File (Raw data))) = Some r2.
Proof.
  intros P1.
  assert (Hs : fs_get r1 staging = Some (Dir []))
    by exact (fs_get_put_same _ _ _ _ P1).
  destruct (fs_put_above r (Some (Dir [])) r1 target "temp" [] P1)
    as [_ Ht].
  assert (Hc : is_dir r1 c = true).
  { unfold is_dir in Ht. 
    destruct (fs_get r1 target) as [nt|] eqn:G; [|discriminate].
    eapply fs_get_snoc_dir, G. }
  assert (Ho : fs_get r1 outside = fs_get r outside).
  { apply (fs_get_put_diverge _ _ _ _ _ P1), traversal_diverge. }
  destruct (fs_put_succeeds r1 c n (Some (File (Raw data))) Hc) as [r2 P2].
  exists r2. split; [|exact P2].
  assert (Hsd : is_dir r1 staging = true)
    by (unfold is_dir; now rewrite Hs).
  assert (W4 : walk r1 c [Name e; Name "temp"; Up; Up] = inr c).
  { change [Name e; Name "temp"; Up; Up]
      with ([Name e; Name "temp"] ++ [Up] ++ [Up]).
    rewrite walk_app, (dir_walk_two r1 Hc Ht), walk_app.
    rewrite (proj2 (walk_one r1 staging Up ltac:(discriminate)) Hsd).
    change (step staging Up) with (removelast (target ++ ["temp"])).
    rewrite removelast_snoc.
    rewrite (proj2 (walk_one r1 target Up ltac:(discriminate)) Ht).
    change (step target Up) with (removelast (c ++ [e])).
    now rewrite removelast_snoc. }
  assert (W : forall tail,
             walk r1 c ([Name e; Name "temp"; Up; Up] ++ tail)
             = walk r1 c tail).
  { intros tail. now rewrite walk_app, W4. }
  unfold extract_member. cbn [m_name]. unfold os_path_join, is_abs.
  simpl app. simpl removelast.
  assert (Hex : os_path_exists c r1 [Name e; Name "temp"; Up; Up] = true).
  { unfold os_path_exists.
    rewrite W4.
    unfold present, is_dir in *.
    destruct (fs_get r1 c); [reflexivity | discriminate]. }
  rewrite Hex. simpl m_kind. unfold write_file, put_or.
  change [Name e; Name "temp"; Up; Up; Name n]
    with ([Name e; Name "temp"; Up; Up] ++ [Name n]).
  rewrite W, (proj2 (walk_one r1 c (Name n) ltac:(discriminate)) Hc).
  change (step c (Name n)) with outside. rewrite Ho.
  unfold is_dir in outside_free. unfold outside in *.
  destruct (fs_get r (c ++ [n])) as [[?|?]|]; try discriminate;
    rewrite P2; reflexivity.
Qed.

Lemma traversal_run file_path w :
  cwd w = c -> root w = r ->
  read_file c r file_path = inr (TarGz evil) ->
  exists w',
    extract_tar_gz file_path [Name e] w = Ok tt w' /\
    fs_get (root w') outside = Some (File (Raw data)) /\
    fs_get (root w') target = Some (Dir es).
Proof.
  intros Hc Hr Hread.
  destruct traversal_makedirs as (r1 & M1 & P1).
  destruct (traversal_extract r1 P1) as (r2 & M2 & P2).
  assert (Hs2 : fs_get r2 staging = Some (Dir [])).
  { rewrite (fs_get_put_diverge _ _ _ _ staging P2).
    - exact (fs_get_put_same _ _ _ _ P1).
    - apply diverge_sym, traversal_diverge. }
  assert (Ht2 : fs_get r2 target =
                Some (Dir (ainsert "temp" (Dir []) es))).
  { rewrite (fs_get_put_diverge _ _ _ _ target P2).
    - exact (fs_put_entries _ _ _ _ _ _ target_dir P1).
    - apply diverge_sym.
      pose proof (traversal_diverge []) as D. now rewrite app_nil_r in D. }
  assert (Hc2 : is_dir r2 c = true).
  { eapply fs_get_snoc_dir, Ht2. }
  assert (W2 : walk r2 c [Name e; Name "temp"] = inr staging).
  { apply dir_walk_two; [exact Hc2|]. unfold is_dir. now rewrite Ht2. }
  assert (Ht2d : is_dir r2 target = true)
    by (unfold is_dir; now rewrite Ht2).
  destruct (fs_put_succeeds r2 target "temp" None Ht2d) as [r3 P3].
  change (target ++ ["temp"]) with staging in P3.
  assert (R3 : os_rmdir c r2 [Name e; Name "temp"] = inr r3).
  { unfold os_rmdir, put_or. now rewrite W2, Hs2, P3. }
  assert (L2 : os_listdir c r2 [Name e; Name "temp"] = inr []).
  { unfold os_listdir. now rewrite W2, Hs2. }
  assert (Hwp : wp (extract_tar_gz file_path [Name e])
                  (fun _ w' => root w' = r3) (fun _ _ => False) w).
  { unfold extract_tar_gz, tarfile_open, os_path_join, is_abs. simpl app.
    apply wp_bind, wp_bind, wp_attempt; rewrite Hc, Hr, Hread;
      [|discriminate].
    intros ct [= <-]. simpl. apply wp_ret.
    apply wp_bind, wp_syscall; rewrite Hc, Hr, M1; [|discriminate].
    intros r' [= <-].
    unfold extractall. simpl for_each. simpl damaged.
    apply wp_bind, wp_bind, wp_bind, wp_syscall; simpl; rewrite Hc, M2;
      [|discriminate].
    intros r' [= <-]. apply wp_ret, wp_ret.
    apply wp_bind, wp_attempt; simpl; rewrite Hc, L2; [|discriminate].
    intros listing [= <-]. simpl for_each. apply wp_bind, wp_ret.
    apply wp_syscall; simpl; rewrite Hc, R3; [|discriminate].
    intros r' [= <-]. reflexivity. }
  unfold wp in Hwp.
  destruct (extract_tar_gz file_path [Name e] w) as [[] w'|? ?];
    [|contradiction].
  exists w'. split; [reflexivity|]. rewrite Hwp. split.
  - rewrite (fs_get_put_diverge _ _ _ _ outside P3).
    + exact (fs_get_put_same _ _ _ _ P2).
    + apply traversal_diverge.
  - rewrite (fs_put_entries _ _ _ _ _ _ Ht2 P3).
    now rewrite aremove_ainsert_absent.
Qed.
End Traversal.


(** * Concrete runs *)

(** The first scenario of the specification: nothing installed, release
    [v1.5.0] with one matching asset. *)
Example fresh_install :
  exists w',
    run flat_server (site []) = Ok tt w' /\
    root w' =
    Dir [("srv",
          Dir [ ("frp", Dir [ ("frpc", File (Raw "frpc 1.5.0"));
                              ("frps", File (Raw "frps 1.5.0")) ]);
                ("local_version.txt", File (Raw "v1.5.0")) ])] /\
    requests w' = [api_url; asset_url_1_5_0].
Proof. eexists. split; [vm_compute; reflexivity|]. split; reflexivity. Qed.

(** The installed version is newer than the release: nothing happens. *)
Example newer_installed_is_left_alone :
  run (server "v1.4.9" [frp_asset "1.4.9"] HttpError) (site installed_1_5_0)
  = Ok tt (mkWorld (root (site installed_1_5_0)) ["srv"]
             [(INFO, "No new version available")] [api_url]).
Proof. vm_compute. reflexivity. Qed.

(** C1.  The archive breaks off after its first file.  The run raises,
    and the installation directory is no longer what it was: the first
    [extract_tar_gz] works inside [frp] itself, so the half-extracted
    archive sits in [frp/temp]. *)
Theorem damaged_archive_reaches_installation :
  fs_get (root (site installed_1_0_0)) ["srv"; "frp"]
  = Some (Dir [("frpc", File (Raw "frpc 1.0.0"))]) /\
  exists w',
    run damaged_server (site installed_1_0_0) = Raise ReadError w' /\
    fs_get (root w') ["srv"; "frp"]
    = Some (Dir [ ("frpc", File (Raw "frpc 1.0.0"));
                  ("temp",
                   Dir [("frp_1.5.0_linux_amd64",
                         Dir [("frpc", File (Raw "frpc 1.5.0"))])]) ]).
Proof.
  split; [reflexivity|]. eexists. split; [vm_compute; reflexivity|].
  reflexivity.
Qed.


(** C3.  Version [v1.5.0] is installed and the release is [v1.5.0]: the
    script announces a new version, downloads the asset and installs it
    again. *)
Theorem equal_version_reinstalls :
  exists w',
    run flat_server (site installed_1_5_0) = Ok tt w' /\
    requests w' = [api_url; asset_url_1_5_0] /\
    logs w' =
    [ (INFO, "New version available: v1.5.0");
      (INFO, "Downloading " +++ asset_url_1_5_0
             +++ " to temp/frp_1.5.0_linux_amd64.tar.gz");
      (INFO, "Extracting temp/frp_1.5.0_linux_amd64.tar.gz to frp");
      (INFO, "Removing existing directory frp");
      (INFO, "Renaming frp-temp to frp");
      (INFO, "Updating local version to v1.5.0");
      (INFO, "Update complete.") ].
Proof. eexists. split; [vm_compute; reflexivity|]. split; reflexivity. Qed.

(** C4.  Two runs in a row against the same release.  The second run is
    not a no-op: it fetches the asset a second time and installs it
    again.  With the archive of the specification, whose payload has a
    subdirectory, the second run even raises half-way and leaves the
    installation directory different from what the first run produced. *)
Theorem second_run_is_not_a_noop :
  (exists w1 w2,
      run flat_server (site []) = Ok tt w1 /\
      run flat_server w1 = Ok tt w2 /\
      requests w2 = [api_url; asset_url_1_5_0; api_url; asset_url_1_5_0]) /\
  (exists w1 w2,
     run (spec_server "1.2.3" "a 1.2.3" "c 1.2.3") (site []) = Ok tt w1 /\
     fs_get (root w1) ["srv"; "frp"]
     = Some (Dir [ ("a", File (Raw "a 1.2.3"));
                   ("b", Dir [("c", File (Raw "c 1.2.3"))]) ]) /\
     run (spec_server "1.2.3" "a 1.2.3" "c 1.2.3") w1
     = Raise OSError_ENOTEMPTY w2 /\
     fs_get (root w2) ["srv"; "frp"]
     = Some (Dir [ ("a", File (Raw "a 1.2.3"));
                   ("b", Dir [("c", File (Raw "c 1.2.3"))]);
                   ("temp",
                    Dir [("pkg-v1.2.3",
                          Dir [("b", Dir [("c", File (Raw "c 1.2.3"))])])]) ])).
Proof.
  split.
  - eexists. eexists. split; [vm_compute; reflexivity|].
    split; [vm_compute; reflexivity|]. reflexivity.
  - eexists. eexists. split; [vm_compute; reflexivity|].
    split; [reflexivity|]. split; [vm_compute; reflexivity|]. reflexivity.
Qed.

(** C5.  An installation whose payload has the subdirectory [b] is
    upgraded with an archive of the same shape.  The first
    [extract_tar_gz] moves the new [b] onto the old, non-empty [frp/b]:
    [os.rename] raises, the run stops, and [frp] keeps the old [b/c] next
    to the new [a] and the left-over staging directory. *)
Theorem upgrade_over_subdirectory_fails :
  exists w',
    run (spec_server "1.3.0" "a 1.3.0" "c 1.3.0") (site installed_spec_pkg)
    = Raise OSError_ENOTEMPTY w' /\
    fs_get (root w') ["srv"; "frp"]
    = Some (Dir [ ("a", File (Raw "a 1.3.0"));
                  ("b", Dir [("c", File (Raw "c 1.2.3"))]);
                  ("temp",
                   Dir [("pkg-v1.3.0",
                         Dir [("b", Dir [("c", File (Raw "c 1.3.0"))])])]) ]) /\
    fs_get (root w') ["srv"; "local_version.txt"] = Some (File (Raw "v1.2.3")).
Proof.
  eexists. split; [vm_compute; reflexivity|]. split; reflexivity.
Qed.

(** The same function fails on a fresh target when the payload has an
    item called [temp], the name of the staging directory. *)
Example payload_named_temp_fails :
  exists w',
    extract_tar_gz [Name "dl"; Name "p.tar.gz"] [Name "out"]
      (dl_site temp_named_pkg)
    = Raise OSError_ENOTEMPTY w' /\
    fs_get (root w') ["srv"; "out"]
    = Some (Dir [("temp", Dir [("pkg", Dir [("temp", File (Raw "t"))])])]).
Proof. eexists. split; [vm_compute; reflexivity|]. reflexivity. Qed.

(** The archive of the specification installs as expected on a fresh
    site. *)
Example unwrap_on_fresh_site :
  exists w',
    run (spec_server "1.2.3" "a 1.2.3" "c 1.2.3") (site []) = Ok tt w' /\
    root w' = Dir [("srv", Dir installed_spec_pkg)].
Proof. eexists. split; [vm_compute; reflexivity|]. reflexivity. Qed.

(** A file beside the wrapping directory: the contents of the directory
    are moved into the target, the file stays in the staging directory,
    and the final [os.rmdir] of the staging directory raises. *)
Example top_level_file_stays_staged :
  exists w',
    extract_tar_gz [Name "dl"; Name "p.tar.gz"] [Name "out"]
      (dl_site stray_pkg)
    = Raise OSError_ENOTEMPTY w' /\
    fs_get (root w') ["srv"; "out"]
    = Some (Dir [ ("temp", Dir [("README", File (Raw "hello"))]);
                  ("frpc", File (Raw "frpc 1.5.0")) ]).
Proof. eexists. split; [vm_compute; reflexivity|]. reflexivity. Qed.

(** C7, counterexample.  The downloaded file is not an archive.  The run
    raises at the first [tarfile.open] and nothing is cleaned up: the
    download directory and the file are still there. *)
Lemma failed_run_leaves_scratch :
  exists w',
    run html_server (site installed_1_0_0) = Raise ReadError w' /\
    fs_get (root w') ["srv"; "temp"]
    = Some (Dir [("frp_1.5.0_linux_amd64.tar.gz", File (Raw "<html>"))]).
Proof. eexists. split; [vm_compute; reflexivity|]. reflexivity. Qed.

(** C8, counterexample.  No asset matches and there is no installation
    directory: after the run there is one. *)
Lemma no_asset_run_creates_directory :
  fs_get (root (site [])) ["srv"; "frp"] = None /\
  exists w',
    run windows_only_server (site []) = Ok tt w' /\
    fs_get (root w') ["srv"; "frp"] = Some (Dir []).
Proof.
  split; [reflexivity|]. eexists. split; [vm_compute; reflexivity|].
  reflexivity.
Qed.


(** An absolute member name does the same without any [..]:
    [os.path.join] drops the staging directory in front of it. *)
Example absolute_entry_overwrites_version :
  safe_tarball abs_pkg = false /\
  exists w',
    run abs_server (site installed_1_0_0) = Raise OSError_ENOTEMPTY w' /\
    fs_get (root w') ["srv"; "local_version.txt"]
    = Some (File (Raw "v9.9.9")).
Proof.
  split; [reflexivity|].
  eexists. split; [vm_compute; reflexivity|]. reflexivity.
Qed.

(** The version of a name can be written in the digits of another
    script: [\d] takes the Arabic-Indic digits as it takes 0 to 9. *)
Example digits_of_another_script_match :
  find_asset_url [arabic_indic_asset; frp_asset "1.5.0"]
  = Some "https://example.org/frp.tar.gz".
Proof. reflexivity. Qed.

(** C10, counterexample.  The archive has [README] at its top level and
    is extracted to a directory where [frpc] is a directory.  Extraction
    fails, but not at the final removal of the staging directory: the
    [os.rename] of the payload file [frpc] onto the directory raises
    [IsADirectoryError] inside the loop.  Nothing has been moved into the
    target, and the wrapping directory is still staged with its
    content. *)
Lemma top_level_file_fails_before_the_removal :
  In (Member [Name "README"] (MFile "hello")) (members stray_pkg) /\
  exists w',
    extract_tar_gz [Name "dl"; Name "p.tar.gz"] [Name "out"] clash_site
    = Raise IsADirectoryError w' /\
    fs_get (root w') ["srv"; "out"]
    = Some (Dir [ ("frpc", Dir []);
                  ("temp",
                   Dir [ ("README", File (Raw "hello"));
                         ("frp_1.5.0_linux_amd64",
                          Dir [("frpc", File (Raw "frpc 1.5.0"))]) ]) ]).
Proof.
  split; [left; reflexivity|].
  eexists. split; [vm_compute; reflexivity|]. reflexivity.
Qed.

(** * The theorems above at concrete inputs *)

(** C10 at the archive [README, frp_1.5.0_linux_amd64/frpc]. *)
Lemma extract_tar_gz_top_level_file_witness :
  read_file (cwd (dl_site stray_pkg)) (root (dl_site stray_pkg))
    [Name "dl"; Name "p.tar.gz"] = inr (TarGz stray_pkg) /\
  In (Member [Name "README"] (MFile "hello")) (members stray_pkg) /\
  no_escape [Name "README"] = true /\ norm [] [Name "README"] = ["README"] /\
  (exists e w',
      extract_tar_gz [Name "dl"; Name "p.tar.gz"] [Name "out"]
        (dl_site stray_pkg) = Raise e w') /\
  (forall w1,
      stage [Name "dl"; Name "p.tar.gz"] [Name "out"] (dl_site stray_pkg)
      = Ok tt w1 ->
      exists e w',
        unwrap [Name "out"] w1 = Raise e w' /\
        is_file (root w') ["srv"; "out"; "temp"; "README"] = true).
Proof.
  split; [reflexivity|]. split; [left; reflexivity|].
  split; [reflexivity|]. split; [reflexivity|].
  apply (extract_tar_gz_top_level_file (dl_site stray_pkg)
           [Name "dl"; Name "p.tar.gz"] [Name "out"] stray_pkg
           [Name "README"] "README" "hello").
  - reflexivity.
  - left. reflexivity.
  - reflexivity.
  - reflexivity.
Defined.


(** C7 at an upgrade from [v1.0.0] to [v1.5.0]. *)
Lemma main_success_removes_scratch_witness :
  main release_parse release_gt flat_server (site installed_1_0_0)
  = Ok tt (final_world
             (main release_parse release_gt flat_server
                (site installed_1_0_0))) /\
  (root (final_world
           (main release_parse release_gt flat_server (site installed_1_0_0)))
   = root (site installed_1_0_0) \/
   scratch_gone ["srv"]
     (root (final_world
              (main release_parse release_gt flat_server
                 (site installed_1_0_0))))).
Proof.
  split; [vm_compute; reflexivity|].
  apply (main_success_removes_scratch (list nat) release_parse release_gt
           flat_server (site installed_1_0_0)).
  vm_compute. reflexivity.
Defined.

(** C8 at a release that only has a Windows asset. *)
Lemma no_matching_asset_run_witness :
  release_json windows_only_server
    ("https://api.github.com/repos/" +++ GITHUB_REPO +++ "/releases/latest")
  = Some windows_release /\
  find_asset_url (assets windows_release) = None /\
  main release_parse release_gt windows_only_server (site installed_1_0_0)
  = Ok tt (mkWorld (root (site installed_1_0_0)) ["srv"]
             [(ERROR, "No matching asset found.")] [api_url]).
Proof.
  split; [reflexivity|]. split; [reflexivity|].
  exact (proj1 (no_matching_asset_run (list nat) release_parse release_gt
                  windows_only_server (site installed_1_0_0) windows_release
                  eq_refl eq_refl)).
Defined.


(** * Further properties of the code *)

(** ** The version store *)

Lemma write_read_file c r raw ct r' :
  write_file c r raw ct = inr r' ->
  read_file c r' raw = inr ct /\ os_path_exists c r' raw = true.
Proof.
  intros H. pose proof (write_file_grows c r raw ct r' H) as G.
  apply write_file_ok in H as (W & _ & P).
  assert (W' : walk r' c raw = inr (norm c raw)).
  { eapply walk_stable; [|exact W]. intros q. apply (G q). }
  unfold read_file, os_path_exists, present.
  rewrite W', (fs_get_put_same _ _ _ _ P). split; reflexivity.
Qed.

Lemma lstrip_clean s :
  match lstrip s with
  | EmptyString => True
  | String c _ => is_space c = false
  end.
Proof.
  induction s as [|c s IH]; simpl; [exact I|].
  destruct (is_space c) eqn:E; [exact IH | exact E].
Qed.

Lemma rstrip_head c s :
  is_space c = false -> exists t, rstrip (String c s) = String c t.
Proof.
  intros E. simpl. destruct (rstrip s); [rewrite E|]; eauto.
Qed.

Lemma rstrip_idempotent s : rstrip (rstrip s) = rstrip s.
Proof.
  induction s as [|c s IH]; simpl; [reflexivity|].
  destruct (rstrip s) as [|d t] eqn:E.
  - destruct (is_space c) eqn:Ec; simpl; [reflexivity|]. now rewrite Ec.
  - simpl in *. rewrite IH. reflexivity.
Qed.

Lemma strip_idempotent s : strip (strip s) = strip s.
Proof.
  unfold strip. pose proof (lstrip_clean s) as H.
  destruct (lstrip s) as [|c t] eqn:E; [reflexivity|].
  destruct (rstrip_head c t H) as [u Hu]. rewrite Hu.
  assert (L : lstrip (String c u) = String c u) by (simpl; now rewrite H).
  rewrite L, <- Hu. apply rstrip_idempotent.
Qed.

Lemma read_local_version_value raw w s w' :
  read_local_version raw w = Ok (Some s) w' ->
  exists t, s = strip t.
Proof.
  unfold read_local_version, bind, query, attempt, raise, ret.
  destruct (negb _); [discriminate|].
  destruct (read_file _ _ _) as [?|[t|?]]; try discriminate.
  intros [= <- _]. eauto.
Qed.

Lemma write_then_read raw v w w' :
  write_local_version raw v w = Ok tt w' ->
  read_local_version raw w' = Ok (Some (strip v)) w'.
Proof.
  unfold write_local_version, syscall.
  destruct (write_file (cwd w) (root w) raw (Raw v)) as [e|r'] eqn:H;
    [discriminate|].
  intros [= <-]. apply write_read_file in H as [Hr He].
  unfold read_local_version, bind, query, attempt, ret.
  change (cwd (set_root w r')) with (cwd w).
  change (root (set_root w r')) with r'.
  rewrite He. cbn [negb].
  change (cwd (set_root w r')) with (cwd w).
  change (root (set_root w r')) with r'.
  now rewrite Hr.
Qed.

(** X1.  Round trip of the version store, for a version that is plain
    text (ASCII, no carriage return): once [write_local_version] has
    written [v] to a path, [read_local_version] on that path returns [v]
    with the surrounding whitespace stripped, and changes nothing. *)
Theorem write_read_local_version :
  forall (file_path : rawpath) (version : string) (w w' : World),
    plain_text version = true ->
    write_local_version file_path version w = Ok tt w' ->
    read_local_version file_path w' = Ok (Some (strip version)) w'.
Proof. intros file_path version w w' _. apply write_then_read. Qed.

(** X2.  What [read_local_version] returns is stable: writing the value
    it returned back to the same path and reading again gives the same
    value, because stripping a stripped text changes nothing. *)
Theorem read_write_read_local_version :
  forall (file_path : rawpath) (s : string) (w w1 w2 : World),
    read_local_version file_path w = Ok (Some s) w1 ->
    write_local_version file_path s w1 = Ok tt w2 ->
    read_local_version file_path w2 = Ok (Some s) w2.
Proof.
  intros file_path s w w1 w2 Hr Hw.
  apply read_local_version_value in Hr as [t ->].
  rewrite (write_then_read _ _ _ _ Hw), strip_idempotent. reflexivity.
Qed.

(** ** Downloads *)

(** X3.  What [download_file] leaves behind.  On an error status nothing
    is written.  After a complete download the file at [local_path] holds
    the body.  When the stream breaks the function raises in every case,
    and unless the file could not be opened the partial body stays at
    [local_path]: nothing removes it. *)
Theorem download_file_outcomes :
  forall (net : Remote) (url : string) (local_path : rawpath) (w : World),
    let asked :=
      mkWorld (root w) (cwd w) (logs w) (requests w ++ [url]) in
    match asset_body net url with
    | HttpError =>
        download_file net url local_path w = Raise RequestException asked
    | HttpBody ct =>
        forall w',
          download_file net url local_path w = Ok tt w' ->
          read_file (cwd w') (root w') local_path = inr ct /\
          requests w' = requests w ++ [url]
    | HttpBroken ct =>
        exists e w',
          download_file net url local_path w = Raise e w' /\
          (w' = asked \/
           (e = RequestException /\
            read_file (cwd w') (root w') local_path = inr ct))
    end.
Proof.
  intros net url local_path w asked.
  unfold download_file, bind, record_request, syscall. fold asked.
  destruct (asset_body net url) as [|ct|ct].
  - reflexivity.
  - intros w'. simpl.
    destruct (write_file (cwd w) (root w) local_path ct) as [e|r'] eqn:H;
      [discriminate|].
    intros [= <-]. apply write_read_file in H as [Hr _]. simpl. auto.
  - simpl.
    destruct (write_file (cwd w) (root w) local_path ct) as [e|r'] eqn:H.
    + exists e, asked. auto.
    + apply write_read_file in H as [Hr _].
      eexists. eexists. split; [reflexivity|]. right. simpl. auto.
Qed.

(** ** Extraction *)

(** X4.  An archive of directories and regular files whose names are
    relative and free of [..] is extracted inside the target directory:
    whether [extract_tar_gz] returns or raises, every path outside
    [extract_to] holds what it held before. *)
Theorem extract_tar_gz_stays_inside :
  forall (w : World) (file_path : rawpath) (e : string),
    (forall t, read_file (cwd w) (root w) file_path = inr (TarGz t) ->
               safe_tarball t = true) ->
    inside (cwd w ++ [e]) (root w)
      (root (final_world (extract_tar_gz file_path [Name e] w))).
Proof.
  intros w file_path e Hsafe.
  pose proof (extract_tar_gz_inside file_path e w Hsafe) as H.
  unfold wp in H.
  destruct (extract_tar_gz file_path [Name e] w); exact (proj2 H).
Qed.

(** X5.  When [extract_tar_gz] returns normally its staging directory
    [extract_to/temp] is gone. *)
Theorem extract_tar_gz_removes_staging :
  forall (w w' : World) (file_path extract_to : rawpath),
    extract_tar_gz file_path extract_to w = Ok tt w' ->
    fs_get (root w') (norm (cwd w) extract_to ++ ["temp"]) = None.
Proof.
  intros w w' file_path extract_to H.
  exact (proj2 (wp_elim_ok _ _ _ _ _ _
                  (extract_tar_gz_clears_staging file_path extract_to w) H)).
Qed.

Lemma stage_grows file_path extract_to w :
  wp (stage file_path extract_to)
    (fun _ w' => grows (root w) (root w'))
    (fun _ w' => grows (root w) (root w')) w.
Proof.
  assert (G0 : grows (root w) (root w)) by apply grows_refl.
  unfold stage, tarfile_open.
  apply wp_bind, wp_bind, wp_attempt; [|intros; exact G0].
  intros ct _. destruct ct as [s|t]; [exact G0|].
  apply wp_mono with (Q := fun _ w' => w' = w)
                     (R := fun _ w' => grows (root w) (root w'));
    [destruct (members t), (damaged t); try reflexivity; exact G0 | | auto].
  intros tar w1 ->.
  apply wp_bind, wp_syscall; [|intros; exact G0].
  intros r1 H1. apply os_makedirs_grows in H1.
  unfold extractall. apply wp_bind.
  apply wp_mono with (Q := fun _ w' => grows (root w) (root w'))
                     (R := fun _ w' => grows (root w) (root w'));
    [| |auto].
  - apply wp_for_each; [exact H1|].
    intros m w2 _ H2. apply wp_syscall; [|intros; exact H2].
    intros r3 H3. simpl. apply extract_member_grows in H3.
    eapply grows_trans; eassumption.
  - intros ? w2 H2. destruct (damaged tar); exact H2.
Qed.

(** X6.  The first half of [extract_tar_gz] (opening the archive, making
    the staging directory, [extractall]) only adds to the file system
    when the archive is made of directories and regular files, whatever
    their names: a path that was a directory is still a directory
    afterwards and a path that was a file is still a file.  Nothing is
    removed, also when extraction stops half-way. *)
Theorem stage_only_adds :
  forall (w : World) (file_path extract_to : rawpath) (q : path),
    (is_dir (root w) q = true ->
     is_dir (root (final_world (stage file_path extract_to w))) q = true) /\
    (is_file (root w) q = true ->
     is_file (root (final_world (stage file_path extract_to w))) q = true).
Proof.
  intros w file_path extract_to q.
  pose proof (stage_grows file_path extract_to w) as H. unfold wp in H.
  destruct (stage file_path extract_to w); exact (H q).
Qed.

(** ** The asset locator *)

(** X7.  The pattern is anchored at the start of the name only.  An asset
    whose name continues after [.tar.gz], such as the checksum file of the
    archive, matches as well, and is the one returned when it is the first
    in the list. *)
Theorem find_asset_url_accepts_longer_names :
  forall (major minor patch rest url : string) (others : list Asset),
    is_number major = true -> is_number minor = true ->
    is_number patch = true ->
    find_asset_url
      (mkAsset ("frp_" +++ major +++ "." +++ minor +++ "." +++ patch
                +++ "_linux_amd64.tar.gz" +++ rest) url :: others)
    = Some url.
Proof.
  intros major minor patch rest url others Ha Hb Hc.
  assert (H : re_match ARCHIVE_NAME_PATTERN
                ("frp_" +++ major +++ "." +++ minor +++ "." +++ patch
                 +++ "_linux_amd64.tar.gz" +++ rest) = true).
  { apply re_match_conventional. exists major, minor, patch, rest.
    auto using is_number_numeral. }
  cbn [find_asset_url name browser_download_url]. now rewrite H.
Qed.

(** X8.  Searching a list made of two parts: the second part is looked at
    only when the first has no match. *)
Theorem find_asset_url_app :
  forall l1 l2 : list Asset,
    find_asset_url (l1 ++ l2) =
    match find_asset_url l1 with
    | Some url => Some url
    | None => find_asset_url l2
    end.
Proof.
  intros l1 l2. induction l1 as [|a l1 IH]; simpl; [reflexivity|].
  destruct (re_match ARCHIVE_NAME_PATTERN (name a)); auto.
Qed.

(** ** Unwrapping a staged archive *)

Section AssocMore.
Variable V : Type.
Implicit Types (es a b : list (string * V)) (x y : string).

Lemma alookup_app x a b :
  alookup x (a ++ b) =
  match alookup x a with
  | Some v => Some v
  | None => alookup x b
  end.
Proof.
  induction a as [|[y u] a IH]; simpl; [reflexivity|].
  destruct (String.eqb x y); auto.
Qed.

Lemma alookup_none_iff x es : alookup x es = None <-> ~ In x (map fst es).
Proof.
  induction es as [|[y u] es IH]; simpl; [tauto|].
  destruct (String.eqb_spec x y) as [->|Hxy].
  - split; [discriminate | intros H; exfalso; auto].
  - rewrite IH. split; [intros H [E|E]; [congruence | auto] | tauto].
Qed.

Lemma alookup_single x (v : V) : alookup x [(x, v)] = Some v.
Proof. simpl. now rewrite String.eqb_refl. Qed.

Lemma ainsert_same x v es : alookup x es = Some v -> ainsert x v es = es.
Proof.
  induction es as [|[y u] es IH]; simpl; [discriminate|].
  destruct (String.eqb_spec x y) as [->|Hxy].
  - now intros [= ->].
  - intros H. now rewrite IH.
Qed.

Lemma ainsert_ainsert x u v es : ainsert x v (ainsert x u es) = ainsert x v es.
Proof.
  induction es as [|[y t] es IH]; simpl.
  - now rewrite String.eqb_refl.
  - destruct (String.eqb x y) eqn:E; simpl.
    + now rewrite String.eqb_refl.
    + now rewrite E, IH.
Qed.

Lemma ainsert_app_present x u v a b :
  alookup x a = Some u -> ainsert x v (a ++ b) = ainsert x v a ++ b.
Proof.
  induction a as [|[y t] a IH]; simpl; [discriminate|].
  destruct (String.eqb x y); [reflexivity|].
  intros H. now rewrite IH.
Qed.

Lemma ainsert_absent x v es :
  alookup x es = None -> ainsert x v es = es ++ [(x, v)].
Proof.
  induction es as [|[y t] es IH]; simpl; [reflexivity|].
  destruct (String.eqb x y); [discriminate|].
  intros H. now rewrite IH.
Qed.

Lemma aremove_app x a b : aremove x (a ++ b) = aremove x a ++ aremove x b.
Proof.
  induction a as [|[y t] a IH]; simpl; [reflexivity|].
  destruct (String.eqb x y); [exact IH|]. simpl. now rewrite IH.
Qed.

Lemma aremove_ainsert x v es : aremove x (ainsert x v es) = aremove x es.
Proof.
  induction es as [|[y t] es IH]; simpl.
  - now rewrite String.eqb_refl.
  - destruct (String.eqb x y) eqn:E; simpl.
    + now rewrite String.eqb_refl.
    + now rewrite E, IH.
Qed.

Lemma aremove_head x (v : V) es :
  ~ In x (map fst es) -> aremove x ((x, v) :: es) = es.
Proof.
  intros H. simpl. rewrite String.eqb_refl.
  apply aremove_absent. now apply alookup_none_iff.
Qed.
End AssocMore.

Lemma fs_get_dir es x p :
  fs_get (Dir es) (x :: p) =
  match alookup x es with
  | Some ch => fs_get ch p
  | None => None
  end.
Proof. reflexivity. Qed.

Lemma fs_put_leaf es x v :
  fs_put (Dir es) [x] v =
  Some (Dir (match v with
             | Some ch => ainsert x ch es
             | None => aremove x es
             end)).
Proof. reflexivity. Qed.

(** A change below [p] is a change of the subtree at [p]. *)
Lemma fs_put_through r p q v n n' :
  fs_get r p = Some n -> fs_put n q v = Some n' ->
  exists r', fs_put r (p ++ q) v = Some r' /\ fs_get r' p = Some n'.
Proof.
  revert r; induction p as [|x p IH]; intros r G P.
  - simpl in *. injection G as ->. eauto.
  - destruct r as [ct|es]; [discriminate|]. rewrite fs_get_dir in G.
    destruct (alookup x es) as [ch|] eqn:Hx; [|discriminate].
    destruct (IH ch G P) as (ch' & Pc & Gc).
    exists (Dir (ainsert x ch' es)). split.
    + change ((x :: p) ++ q) with (x :: (p ++ q)).
      rewrite fs_put_deep, Hx, Pc; [reflexivity|].
      intros E. apply app_eq_nil in E as [_ ->].
      destruct n; discriminate.
    + rewrite fs_get_dir, alookup_ainsert, String.eqb_refl. exact Gc.
Qed.

Lemma is_prefix_app_both p a b : is_prefix (p ++ a) (p ++ b) = is_prefix a b.
Proof. induction p; simpl; [|rewrite String.eqb_refl]; auto. Qed.

Lemma path_eqb_app_both p a b : path_eqb (p ++ a) (p ++ b) = path_eqb a b.
Proof. induction p; simpl; [|rewrite String.eqb_refl]; auto. Qed.

Lemma walk_names r names : forall cur,
  dirs_to r cur names -> walk r cur (map Name names) = inr (cur ++ names).
Proof.
  induction names as [|x names IH]; intros cur H; simpl.
  - now rewrite app_nil_r.
  - destruct H as [Hd H]. unfold is_dir in Hd.
    destruct (fs_get r cur) as [[?|?]|]; try discriminate.
    rewrite (IH _ H), <- app_assoc. reflexivity.
Qed.

Lemma os_rename_moves c r src dst ps pd ns r1 r' :
  walk r c src = inr ps -> walk r c dst = inr pd ->
  fs_get r ps = Some ns ->
  path_eqb ps pd = false -> is_prefix ps pd = false ->
  is_prefix pd ps = false ->
  fs_get r pd = None ->
  fs_put r ps None = Some r1 -> fs_put r1 pd (Some ns) = Some r' ->
  os_rename c r src dst = inr r'.
Proof.
  intros Ws Wd Gs E P A Gd P1 P2. unfold os_rename, put_or.
  rewrite Ws, Wd, Gs, E, P, A, Gd, P1, P2. destruct ns; reflexivity.
Qed.

Lemma os_listdir_lists c r raw p es :
  walk r c raw = inr p -> fs_get r p = Some (Dir es) ->
  os_listdir c r raw = inr (map fst es).
Proof. intros W G. unfold os_listdir. now rewrite W, G. Qed.

Lemma os_rmdir_removes c r raw p r' :
  walk r c raw = inr p -> fs_get r p = Some (Dir []) ->
  fs_put r p None = Some r' ->
  os_rmdir c r raw = inr r'.
Proof. intros W G P. unfold os_rmdir, put_or. now rewrite W, G, P. Qed.

Section AssocOrder.
Variable V : Type.
Implicit Types (es : list (string * V)) (x y : string).

(* replacing an entry that exists does not disturb another insertion *)
Lemma ainsert_comm x y (u v : V) es :
  x <> y -> alookup y es <> None ->
  ainsert x u (ainsert y v es) = ainsert y v (ainsert x u es).
Proof.
  intros Hxy. induction es as [|[z t] es IH]; intros Hy; simpl in *.
  - contradiction.
  - destruct (String.eqb_spec y z) as [->|Hyz].
    + apply String.eqb_neq in Hxy. simpl. rewrite Hxy. simpl.
      now rewrite String.eqb_refl.
    + destruct (String.eqb_spec x z) as [->|Hxz]; simpl.
      * rewrite String.eqb_refl.
        apply String.eqb_neq in Hyz. now rewrite Hyz.
      * apply String.eqb_neq in Hyz, Hxz. rewrite Hyz, Hxz.
        now rewrite IH.
Qed.

Lemma aremove_ainsert_other x y (v : V) es :
  x <> y -> aremove y (ainsert x v es) = ainsert x v (aremove y es).
Proof.
  intros Hxy. induction es as [|[z t] es IH]; simpl.
  - apply not_eq_sym, String.eqb_neq in Hxy. now rewrite Hxy.
  - destruct (String.eqb_spec x z) as [->|Hxz]; simpl.
    + apply not_eq_sym, String.eqb_neq in Hxy. rewrite Hxy. simpl.
      now rewrite String.eqb_refl.
    + destruct (String.eqb_spec y z) as [->|Hyz]; [exact IH|].
      simpl. apply String.eqb_neq in Hxz. now rewrite Hxz, IH.
Qed.
End AssocOrder.

Lemma replaces_file ct old : replaces (File ct) old = not_a_dir old.
Proof. destruct old as [[?|?]|]; reflexivity. Qed.

Lemma replaces_nonempty n x ch es :
  replaces n (Some (Dir ((x, ch) :: es))) = false.
Proof. destruct n; reflexivity. Qed.

Lemma place_all_cons x n items es :
  place_all ((x, n) :: items) es = place_all items (ainsert x n es).
Proof. reflexivity. Qed.

Lemma place_all_fresh items : forall es,
  NoDup (map fst items) ->
  (forall x, In x (map fst items) -> alookup x es = None) ->
  place_all items es = es ++ items.
Proof.
  induction items as [|[y n] items IH]; intros es Hnd Hfree.
  - cbn. now rewrite app_nil_r.
  - cbn [map fst In] in Hnd, Hfree.
    apply NoDup_cons_iff in Hnd as [Hni Hnd].
    rewrite place_all_cons.
    rewrite (ainsert_absent _ y n es (Hfree y (or_introl eq_refl))).
    rewrite IH; [now rewrite <- app_assoc|exact Hnd|].
    intros x Hx. rewrite alookup_app, (Hfree x (or_intror Hx)).
    cbn [alookup].
    destruct (String.eqb_spec x y) as [->|]; [contradiction|reflexivity].
Qed.

Lemma place_all_nil items :
  NoDup (map fst items) -> place_all items [] = items.
Proof. intros H. now rewrite place_all_fresh. Qed.

Lemma aremove_place_all y items : forall es,
  ~ In y (map fst items) ->
  aremove y (place_all items es) = place_all items (aremove y es).
Proof.
  induction items as [|[x n] items IH]; intros es Hy; [reflexivity|].
  cbn [map fst In] in Hy.
  rewrite !place_all_cons, IH by tauto.
  rewrite aremove_ainsert_other; [reflexivity|].
  intros ->. tauto.
Qed.

Lemma os_rename_replaces c r src dst ps pd ns r1 r' :
  walk r c src = inr ps -> walk r c dst = inr pd ->
  fs_get r ps = Some ns ->
  path_eqb ps pd = false -> is_prefix ps pd = false ->
  is_prefix pd ps = false ->
  replaces ns (fs_get r pd) = true ->
  fs_put r ps None = Some r1 -> fs_put r1 pd (Some ns) = Some r' ->
  os_rename c r src dst = inr r'.
Proof.
  intros Ws Wd Gs E P A Hr P1 P2. unfold os_rename, put_or.
  rewrite Ws, Wd, Gs, E, P, A, P1, P2.
  destruct ns, (fs_get r pd) as [[?|[|? ?]]|]; try reflexivity;
    discriminate.
Qed.

Section Unwrap.
Variables (c : path) (e wname : string).

Let target : path := c ++ [e].
Let staging : path := target ++ ["temp"].
Let wrapper : path := staging ++ [wname].

(* the target directory while the wrapping directory holds [todo]; its
   other entries are those of [base] *)
Definition unwrapping (todo base : list (string * node)) : node :=
  Dir (ainsert "temp" (Dir [(wname, Dir todo)]) base).

Lemma unwrapping_staging todo base :
  fs_get (unwrapping todo base) ["temp"] = Some (Dir [(wname, Dir todo)]).
Proof.
  unfold unwrapping. rewrite fs_get_dir, alookup_ainsert.
  now rewrite String.eqb_refl.
Qed.

Lemma unwrapping_wrapper todo base p :
  fs_get (unwrapping todo base) ("temp" :: wname :: p) = fs_get (Dir todo) p.
Proof.
  unfold unwrapping. rewrite fs_get_dir, alookup_ainsert.
  rewrite String.eqb_refl, fs_get_dir, alookup_single. reflexivity.
Qed.

Lemma unwrapping_item todo base x :
  x <> "temp" -> fs_get (unwrapping todo base) [x] = alookup x base.
Proof.
  intros Hx. unfold unwrapping. rewrite fs_get_dir, alookup_ainsert.
  apply String.eqb_neq in Hx. rewrite Hx.
  destruct (alookup x base); reflexivity.
Qed.

Lemma unwrapping_dirs r todo base :
  fs_get r target = Some (unwrapping todo base) ->
  is_dir r c = true /\ is_dir r target = true /\
  is_dir r staging = true /\ is_dir r wrapper = true.
Proof.
  intros G. split; [eapply fs_get_snoc_dir, G|].
  unfold is_dir, wrapper, staging.
  rewrite <- !app_assoc, !fs_get_app, G.
  cbn [app]. rewrite unwrapping_staging, unwrapping_wrapper. auto.
Qed.

(* removing [item] from the wrapping directory *)
Lemma unwrapping_take item n todo base :
  ~ In item (map fst todo) ->
  fs_put (unwrapping ((item, n) :: todo) base) ["temp"; wname; item] None
  = Some (unwrapping todo base).
Proof.
  intros Hn. unfold unwrapping.
  rewrite fs_put_deep by discriminate.
  rewrite alookup_ainsert, String.eqb_refl.
  rewrite fs_put_deep by discriminate.
  rewrite alookup_single, fs_put_leaf, aremove_head by exact Hn.
  cbn [ainsert]. rewrite String.eqb_refl.
  now rewrite ainsert_ainsert.
Qed.

(* putting [item] into the target directory *)
Lemma unwrapping_give item n todo base :
  item <> "temp" -> alookup "temp" base <> None ->
  fs_put (unwrapping todo base) [item] (Some n)
  = Some (unwrapping todo (ainsert item n base)).
Proof.
  intros Ht Hb. unfold unwrapping. rewrite fs_put_leaf.
  now rewrite ainsert_comm.
Qed.

Lemma rename_item r item n todo base :
  fs_get r target = Some (unwrapping ((item, n) :: todo) base) ->
  item <> "temp" -> alookup "temp" base <> None ->
  replaces n (alookup item base) = true ->
  ~ In item (map fst todo) ->
  exists r',
    os_rename c r
      [Name e; Name "temp"; Name wname; Name item] [Name e; Name item]
    = inr r' /\
    fs_get r' target = Some (unwrapping todo (ainsert item n base)) /\
    inside target r r'.
Proof.
  intros G Ht Hb Hr Hn.
  destruct (unwrapping_dirs r _ _ G) as (Dc & Dt & Ds & Dw).
  destruct (fs_put_through r target ["temp"; wname; item] None _ _ G
              (unwrapping_take item n todo base Hn)) as (r1 & P1 & G1).
  destruct (fs_put_through r1 target [item] (Some n) _ _ G1
              (unwrapping_give item n todo base Ht Hb))
    as (r' & P2 & G2).
  exists r'. split; [|split; [exact G2|]].
  - apply os_rename_replaces
      with (ps := target ++ ["temp"; wname; item]) (pd := target ++ [item])
           (ns := n) (r1 := r1).
    + replace (target ++ ["temp"; wname; item])
        with (c ++ [e; "temp"; wname; item])
        by (unfold target; rewrite <- app_assoc; reflexivity).
      apply (walk_names r [e; "temp"; wname; item]).
      cbn [dirs_to]. fold target. fold staging. fold wrapper. auto.
    + replace (target ++ [item]) with (c ++ [e; item])
        by (unfold target; rewrite <- app_assoc; reflexivity).
      apply (walk_names r [e; item]). cbn [dirs_to]. fold target. auto.
    + rewrite fs_get_app, G, unwrapping_wrapper, fs_get_dir.
      cbn [alookup]. now rewrite String.eqb_refl.
    + rewrite path_eqb_app_both. cbn [path_eqb]. apply andb_false_r.
    + rewrite is_prefix_app_both. cbn [is_prefix]. apply andb_false_r.
    + rewrite is_prefix_app_both. cbn [is_prefix].
      apply String.eqb_neq in Ht. now rewrite Ht.
    + rewrite fs_get_app, G, (unwrapping_item _ _ _ Ht). exact Hr.
    + exact P1.
    + exact P2.
  - apply inside_trans with r1; eapply put_inside_below; eassumption.
Qed.

Lemma move_items : forall todo base w,
  cwd w = c ->
  fs_get (root w) target = Some (unwrapping todo base) ->
  alookup "temp" base <> None ->
  NoDup (map fst todo) ->
  (forall x n, In (x, n) todo ->
               x <> "temp" /\ replaces n (alookup x base) = true) ->
  wp (for_each (map fst todo)
        (fun item =>
           syscall (fun cwd r =>
                      os_rename cwd r
                        (os_path_join
                           (os_path_join (os_path_join [Name e] [Name "temp"])
                              [Name wname]) [Name item])
                        (os_path_join [Name e] [Name item]))))
    (fun _ w' =>
       cwd w' = c /\
       fs_get (root w') target = Some (unwrapping [] (place_all todo base)) /\
       inside target (root w) (root w'))
    (fun _ _ => False) w.
Proof.
  induction todo as [|[item n] todo IH]; intros base w Hc G Hb Hnd Hok.
  - simpl. split; [exact Hc|split; [exact G|]]. apply inside_refl.
  - cbn [map fst for_each] in *. apply NoDup_cons_iff in Hnd as [Hni Hnd'].
    destruct (Hok item n (or_introl eq_refl)) as (Ht & Hr).
    destruct (rename_item (root w) item n todo base G Ht Hb Hr Hni)
      as (r' & Hren & G' & I').
    apply wp_bind, wp_syscall; unfold os_path_join, is_abs; cbn [app];
      rewrite Hc, Hren; [|discriminate].
    intros ? [= <-].
    eapply wp_mono;
      [apply (IH (ainsert item n base) (set_root w r'))| |auto].
    + exact Hc.
    + exact G'.
    + rewrite alookup_ainsert.
      apply not_eq_sym, String.eqb_neq in Ht. now rewrite Ht.
    + exact Hnd'.
    + intros x m Hx. destruct (Hok x m (or_intror Hx)) as (Hxt & Hxr).
      split; [exact Hxt|]. rewrite alookup_ainsert.
      destruct (String.eqb_spec x item) as [->|]; [|exact Hxr].
      exfalso. apply Hni. apply (in_map fst) in Hx. exact Hx.
    + intros ? w' (Hc' & Gw & Iw). cbn [root set_root] in Iw.
      split; [exact Hc'|split; [exact Gw|]].
      eapply inside_trans; eassumption.
Qed.

Lemma unwrapping_drop_wrapper base :
  fs_put (unwrapping [] base) ["temp"; wname] None
  = Some (Dir (ainsert "temp" (Dir []) base)).
Proof.
  unfold unwrapping. rewrite fs_put_deep by discriminate.
  rewrite alookup_ainsert, String.eqb_refl.
  rewrite fs_put_leaf. cbn [aremove]. rewrite String.eqb_refl.
  now rewrite ainsert_ainsert.
Qed.

Lemma drop_staging base :
  fs_put (Dir (ainsert "temp" (Dir []) base)) ["temp"] None
  = Some (Dir (aremove "temp" base)).
Proof. now rewrite fs_put_leaf, aremove_ainsert. Qed.

Lemma walk_staging r :
  is_dir r c = true -> is_dir r target = true ->
  walk r c [Name e; Name "temp"] = inr staging.
Proof.
  intros Dc Dt. unfold staging, target. rewrite <- app_assoc.
  apply (walk_names r [e; "temp"]). cbn [dirs_to]. auto.
Qed.

Lemma walk_wrapper r :
  is_dir r c = true -> is_dir r target = true -> is_dir r staging = true ->
  walk r c [Name e; Name "temp"; Name wname] = inr wrapper.
Proof.
  intros Dc Dt Ds. unfold wrapper, staging, target. rewrite <- !app_assoc.
  apply (walk_names r [e; "temp"; wname]). cbn [dirs_to].
  fold target. fold staging. auto.
Qed.

Lemma unwrap_run es1 cs w :
  cwd w = c ->
  fs_get (root w) target = Some (Dir es1) ->
  alookup "temp" es1 = Some (Dir [(wname, Dir cs)]) ->
  NoDup (map fst cs) ->
  (forall x n, In (x, n) cs -> replaces n (alookup x es1) = true) ->
  wp (unwrap [Name e])
    (fun _ w' =>
       cwd w' = c /\
       fs_get (root w') target
       = Some (Dir (aremove "temp" (place_all cs es1))) /\
       inside target (root w) (root w'))
    (fun _ _ => False) w.
Proof.
  intros Hc G Ht Hnd Hok.
  assert (G0 : fs_get (root w) target = Some (unwrapping cs es1)).
  { unfold unwrapping. rewrite ainsert_same by exact Ht. exact G. }
  assert (Hb : alookup "temp" es1 <> None) by (rewrite Ht; discriminate).
  assert (Hok' : forall x n, In (x, n) cs ->
            x <> "temp" /\ replaces n (alookup x es1) = true).
  { intros x n Hx. pose proof (Hok x n Hx) as Hr. split; [|exact Hr].
    intros ->. rewrite Ht, replaces_nonempty in Hr. discriminate. }
  destruct (unwrapping_dirs _ _ _ G0) as (Dc & Dt & Ds & Dw).
  assert (Gs : fs_get (root w) staging = Some (Dir [(wname, Dir cs)])).
  { unfold staging. now rewrite fs_get_app, G0, unwrapping_staging. }
  assert (Gw : fs_get (root w) wrapper = Some (Dir cs)).
  { unfold wrapper, staging. rewrite <- app_assoc, fs_get_app, G0.
    cbn [app]. now rewrite unwrapping_wrapper. }
  pose proof (os_listdir_lists c _ _ _ _ (walk_staging _ Dc Dt) Gs) as L1.
  pose proof (os_listdir_lists c _ _ _ _ (walk_wrapper _ Dc Dt Ds) Gw) as L2.
  unfold unwrap, os_path_join, is_abs. cbn [app].
  apply wp_bind, wp_attempt; rewrite Hc, L1; [|discriminate].
  intros a [= <-]. cbn [map fst for_each].
  apply wp_bind, wp_bind, wp_bind, wp_query.
  rewrite Hc. unfold os_path_isdir at 1.
  rewrite (walk_wrapper _ Dc Dt Ds), Dw.
  apply wp_bind, wp_attempt; rewrite Hc, L2; [|discriminate].
  intros a [= <-]. apply wp_bind.
  eapply wp_mono; [apply (move_items cs es1 w Hc G0 Hb Hnd Hok')| |auto].
  intros ? w1 (Hc1 & G1 & I1).
  destruct (unwrapping_dirs _ _ _ G1) as (Dc1 & Dt1 & Ds1 & Dw1).
  destruct (fs_put_through _ target ["temp"; wname] None _ _ G1
              (unwrapping_drop_wrapper (place_all cs es1)))
    as (r2 & P2 & G2).
  assert (Gw1 : fs_get (root w1) wrapper = Some (Dir [])).
  { unfold wrapper, staging. rewrite <- app_assoc, fs_get_app, G1.
    cbn [app]. now rewrite unwrapping_wrapper. }
  assert (P2' : fs_put (root w1) wrapper None = Some r2).
  { unfold wrapper, staging. rewrite <- app_assoc. exact P2. }
  apply wp_syscall;
    rewrite Hc1,
      (os_rmdir_removes c _ _ _ _ (walk_wrapper _ Dc1 Dt1 Ds1) Gw1 P2');
    [|discriminate].
  intros ? [= <-]. apply wp_ret.
  destruct (fs_put_through _ target ["temp"] None _ _ G2
              (drop_staging (place_all cs es1)))
    as (r3 & P3 & G3).
  assert (Dc2 : is_dir r2 c = true) by (eapply fs_get_snoc_dir, G2).
  assert (Dt2 : is_dir r2 target = true) by (unfold is_dir; now rewrite G2).
  assert (Gs2 : fs_get r2 staging = Some (Dir [])).
  { unfold staging.
    rewrite fs_get_app, G2, fs_get_dir, alookup_ainsert.
    now rewrite String.eqb_refl. }
  apply wp_syscall; cbn [cwd root set_root];
    rewrite Hc1, (os_rmdir_removes c _ _ _ _ (walk_staging _ Dc2 Dt2) Gs2 P3);
    [|discriminate].
  intros ? [= <-]. cbn [cwd root set_root].
  split; [reflexivity|split; [exact G3|]].
  eapply inside_trans; [exact I1|].
  eapply inside_trans; eapply put_inside_below; eassumption.
Qed.
End Unwrap.


(** ** Staging an archive of the usual shape *)

Section Staging.
Variables (c : path) (e d : string) (es : list (string * node)).

Let target : path := c ++ [e].
Let staging : path := target ++ ["temp"].
Let wrapper : path := staging ++ [d].

Lemma wrapper_put x n todo :
  alookup x todo = None ->
  fs_put (unwrapping d todo es) ["temp"; d; x] (Some n)
  = Some (unwrapping d (todo ++ [(x, n)]) es).
Proof.
  intros Hx. unfold unwrapping.
  rewrite fs_put_deep by discriminate.
  rewrite alookup_ainsert, String.eqb_refl.
  rewrite fs_put_deep by discriminate.
  rewrite alookup_single, fs_put_leaf.
  rewrite (ainsert_absent _ x n todo Hx).
  cbn [ainsert]. rewrite String.eqb_refl.
  now rewrite ainsert_ainsert.
Qed.

Lemma stage_file r x data todo :
  fs_get r target = Some (unwrapping d todo es) ->
  alookup x todo = None ->
  exists r',
    extract_member [Name e; Name "temp"]
      (Member [Name d; Name x] (MFile data)) c r = inr r' /\
    fs_get r' target
    = Some (unwrapping d (todo ++ [(x, File (Raw data))]) es) /\
    inside target r r'.
Proof.
  intros G Hx.
  destruct (unwrapping_dirs c e d r _ _ G) as (Dc & Dt & Ds & Dw).
  destruct (fs_put_through r target ["temp"; d; x] (Some (File (Raw data)))
              _ _ G (wrapper_put x _ todo Hx)) as (r' & P & G').
  exists r'. split; [|split; [exact G' | eapply put_inside_below, P]].
  assert (Gw : fs_get r wrapper = Some (Dir todo)).
  { unfold wrapper, staging. rewrite <- app_assoc, fs_get_app, G.
    cbn [app]. now rewrite unwrapping_wrapper. }
  assert (W : walk r c [Name e; Name "temp"; Name d; Name x]
              = inr (target ++ ["temp"; d; x])).
  { unfold target. rewrite <- app_assoc.
    apply (walk_names r [e; "temp"; d; x]). cbn [dirs_to].
    fold target. fold staging. fold wrapper. auto. }
  assert (Gx : fs_get r (target ++ ["temp"; d; x]) = None).
  { rewrite fs_get_app, G, unwrapping_wrapper, fs_get_dir, Hx. reflexivity. }
  unfold extract_member, os_path_join, is_abs. cbn [app m_name m_kind removelast].
  unfold os_path_exists, present.
  rewrite (walk_wrapper c e d r Dc Dt Ds). fold target staging wrapper.
  rewrite Gw. unfold write_file, put_or. now rewrite W, Gx, P.
Qed.

Lemma stage_dir r :
  fs_get r target = Some (Dir (ainsert "temp" (Dir []) es)) ->
  exists r',
    extract_member [Name e; Name "temp"] (Member [Name d] MDir) c r = inr r' /\
    fs_get r' target = Some (unwrapping d [] es) /\
    inside target r r'.
Proof.
  intros G.
  assert (Dc : is_dir r c = true) by (eapply fs_get_snoc_dir, G).
  assert (Dt : is_dir r target = true) by (unfold is_dir; now rewrite G).
  assert (Gs : fs_get r staging = Some (Dir [])).
  { unfold staging.
    rewrite fs_get_app, G, fs_get_dir, alookup_ainsert.
    now rewrite String.eqb_refl. }
  assert (Ds : is_dir r staging = true) by (unfold is_dir; now rewrite Gs).
  assert (P0 : fs_put (Dir (ainsert "temp" (Dir []) es)) ["temp"; d]
                 (Some (Dir []))
               = Some (unwrapping d [] es)).
  { unfold unwrapping.
    rewrite fs_put_deep by discriminate.
    rewrite alookup_ainsert, String.eqb_refl, fs_put_leaf.
    cbn [ainsert]. now rewrite ainsert_ainsert. }
  destruct (fs_put_through r target ["temp"; d] (Some (Dir [])) _ _ G P0)
    as (r' & P & G').
  exists r'. split; [|split; [exact G' | eapply put_inside_below, P]].
  assert (Gd : fs_get r (target ++ ["temp"; d]) = None).
  { rewrite fs_get_app, G, fs_get_dir, alookup_ainsert, String.eqb_refl.
    reflexivity. }
  unfold extract_member, os_path_join, is_abs. cbn [app m_name m_kind removelast].
  unfold os_path_exists, present.
  rewrite (walk_staging c e r Dc Dt). fold target staging. rewrite Gs.
  unfold os_mkdir, put_or.
  rewrite (walk_wrapper c e d r Dc Dt Ds). fold target staging wrapper.
  unfold wrapper, staging. rewrite <- app_assoc. cbn [app].
  now rewrite Gd, P.
Qed.

Lemma stage_files : forall files todo w,
  cwd w = c ->
  fs_get (root w) target = Some (unwrapping d todo es) ->
  NoDup (map fst files) ->
  (forall x, In x (map fst files) -> alookup x todo = None) ->
  wp (for_each (file_members d files)
        (fun m => syscall (extract_member [Name e; Name "temp"] m)))
    (fun _ w' =>
       cwd w' = c /\
       fs_get (root w') target
       = Some (unwrapping d (todo ++ file_nodes files) es) /\
       inside target (root w) (root w'))
    (fun _ _ => False) w.
Proof.
  induction files as [|[x data] files IH]; intros todo w Hc G Hnd Hfree.
  - simpl. rewrite app_nil_r. split; [exact Hc|split; [exact G|]].
    apply inside_refl.
  - cbn [file_members file_nodes map fst snd for_each] in *.
    apply NoDup_cons_iff in Hnd as [Hni Hnd'].
    destruct (stage_file (root w) x data todo G (Hfree x (or_introl eq_refl)))
      as (r' & Hex & G' & I').
    apply wp_bind, wp_syscall; rewrite Hc, Hex; [|discriminate].
    intros ? [= <-].
    eapply wp_mono;
      [apply (IH (todo ++ [(x, File (Raw data))]) (set_root w r'))| |auto].
    + exact Hc.
    + exact G'.
    + exact Hnd'.
    + intros y Hy. rewrite alookup_app, (Hfree y (or_intror Hy)).
      cbn [alookup].
      destruct (String.eqb_spec y x) as [->|]; [contradiction|reflexivity].
    + intros ? w' (Hc' & Gw & Iw). cbn [root set_root] in Iw.
      rewrite <- app_assoc in Gw. split; [exact Hc'|split; [exact Gw|]].
      eapply inside_trans; eassumption.
Qed.
End Staging.

Lemma map_fst_file_nodes files : map fst (file_nodes files) = map fst files.
Proof. unfold file_nodes. rewrite map_map. reflexivity. Qed.

Lemma in_file_nodes x n files :
  In (x, n) (file_nodes files) ->
  In x (map fst files) /\ exists data, n = File (Raw data).
Proof.
  unfold file_nodes. intros H. apply in_map_iff in H as ([y data] & E & H).
  injection E as <- <-. split; [|eauto].
  apply (in_map fst) in H. exact H.
Qed.

Lemma extract_flat_run file_path e d files es w :
  read_file (cwd w) (root w) file_path = inr (TarGz (flat_archive d files)) ->
  fs_get (root w) (cwd w ++ [e]) = Some (Dir es) ->
  alookup "temp" es = None ->
  NoDup (map fst files) ->
  (forall x, In x (map fst files) ->
             x <> "temp" /\ not_a_dir (alookup x es) = true) ->
  wp (extract_tar_gz file_path [Name e])
    (fun _ w' =>
       cwd w' = cwd w /\
       fs_get (root w') (cwd w ++ [e])
       = Some (Dir (place_all (file_nodes files) es)) /\
       inside (cwd w ++ [e]) (root w) (root w'))
    (fun _ _ => False) w.
Proof.
  intros Hread G Ht Hnd Hok.
  destruct (traversal_makedirs (cwd w) e es (root w) G Ht) as (r1 & Hmk & P1).
  pose proof (fs_put_entries _ _ _ _ _ _ G P1) as G1. cbv beta iota in G1.
  destruct (stage_dir (cwd w) e d es r1 G1) as (r2 & Hdir & G2 & I2).
  eapply wp_eq; [apply extract_tar_gz_phases|].
  apply wp_bind. unfold stage, tarfile_open, os_path_join, is_abs. cbn [app].
  apply wp_bind, wp_bind, wp_attempt; rewrite Hread; [|discriminate].
  intros ct [= <-]. cbn [flat_archive members damaged]. apply wp_ret.
  apply wp_bind, wp_syscall; rewrite Hmk; [|discriminate].
  intros ? [= <-]. unfold extractall.
  cbn [flat_archive members damaged for_each].
  apply wp_bind, wp_bind, wp_syscall; cbn [cwd root set_root];
    rewrite Hdir; [|discriminate].
  intros ? [= <-].
  eapply wp_mono;
    [apply (stage_files (cwd w) e d es files [] (set_root (set_root w r1) r2))
    | |auto].
  - reflexivity.
  - exact G2.
  - exact Hnd.
  - reflexivity.
  - intros ? w3 (Hc3 & G3 & I3). cbn [app root set_root] in G3, I3.
    apply wp_ret.
    assert (Hnt : ~ In "temp" (map fst (file_nodes files))).
    { rewrite map_fst_file_nodes. intros Hx.
      destruct (Hok "temp" Hx) as [Hne _]. now apply Hne. }
    eapply wp_mono;
      [apply (unwrap_run (cwd w) e d
                (ainsert "temp" (Dir [(d, Dir (file_nodes files))]) es)
                (file_nodes files) w3 Hc3)
      | |auto].
    + exact G3.
    + now rewrite alookup_ainsert, String.eqb_refl.
    + now rewrite map_fst_file_nodes.
    + intros x n Hx. apply in_file_nodes in Hx as (Hx & data & ->).
      destruct (Hok x Hx) as [Hxt Hxe].
      apply String.eqb_neq in Hxt.
      now rewrite replaces_file, alookup_ainsert, Hxt.
    + intros ? w' (Hc' & G' & I').
      rewrite (aremove_place_all _ _ _ Hnt) in G'.
      rewrite (aremove_ainsert_absent _ _ _ Ht) in G'.
      split; [exact Hc'|split; [exact G'|]].
      eapply inside_trans; [eapply put_inside_below, P1|].
      eapply inside_trans; [exact I2|].
      eapply inside_trans; [exact I3|exact I'].
Qed.


(** ** What the script asks of the network *)

Lemma requests_kept_ret {A : Type} (a : A) : requests_kept (ret a).
Proof. intros w. reflexivity. Qed.

Lemma requests_kept_raise {A : Type} e : requests_kept (@raise A e).
Proof. intros w. reflexivity. Qed.

Lemma requests_kept_bind {A B : Type} (c : M A) (k : A -> M B) :
  requests_kept c -> (forall a, requests_kept (k a)) ->
  requests_kept (bind c k).
Proof.
  intros Hc Hk w. unfold bind. specialize (Hc w).
  destruct (c w) as [a w'|e w']; simpl in *; [|exact Hc].
  rewrite Hk. exact Hc.
Qed.

Lemma requests_kept_query {A : Type} (f : path -> node -> A) :
  requests_kept (query f).
Proof. intros w. reflexivity. Qed.

Lemma requests_kept_attempt {A : Type} (f : path -> node -> exn + A) :
  requests_kept (attempt f).
Proof. intros w. unfold attempt. destruct (f _ _); reflexivity. Qed.

Lemma requests_kept_syscall f : requests_kept (syscall f).
Proof. intros w. unfold syscall. destruct (f _ _); reflexivity. Qed.

Lemma requests_kept_logging l msg : requests_kept (logging l msg).
Proof. intros w. reflexivity. Qed.

Lemma requests_kept_for_each {A : Type} (xs : list A) (body : A -> M unit) :
  (forall x, requests_kept (body x)) -> requests_kept (for_each xs body).
Proof.
  intros Hb. induction xs as [|x xs IH]; simpl.
  - apply requests_kept_ret.
  - apply requests_kept_bind; auto.
Qed.

Create HintDb requests_kept.
#[local] Hint Resolve requests_kept_ret requests_kept_raise
  requests_kept_query requests_kept_attempt requests_kept_syscall
  requests_kept_logging : requests_kept.

Ltac requests_kept_step :=
  match goal with
  | |- requests_kept (bind _ _) => apply requests_kept_bind
  | |- requests_kept (for_each _ _) => apply requests_kept_for_each
  | |- requests_kept (match ?x with _ => _ end) => destruct x
  | |- forall _, _ => intro
  | |- requests_kept _ => solve [auto with requests_kept]
  end.

Ltac requests_kept_auto := repeat requests_kept_step.

Lemma requests_kept_extract_tar_gz file_path extract_to :
  requests_kept (extract_tar_gz file_path extract_to).
Proof.
  unfold extract_tar_gz, tarfile_open, extractall. requests_kept_auto.
Qed.

Lemma requests_kept_read_local_version raw :
  requests_kept (read_local_version raw).
Proof. unfold read_local_version. requests_kept_auto. Qed.

Lemma requests_kept_write_local_version raw v :
  requests_kept (write_local_version raw v).
Proof. unfold write_local_version. requests_kept_auto. Qed.

Lemma requests_kept_version_parse (Version : Type)
  (parse : string -> option Version) s :
  requests_kept (version_parse parse s).
Proof. unfold version_parse. requests_kept_auto. Qed.

#[local] Hint Resolve requests_kept_extract_tar_gz
  requests_kept_read_local_version requests_kept_write_local_version
  requests_kept_version_parse : requests_kept.

Lemma wp_requests_kept {A : Type} (c : M A) w :
  requests_kept c ->
  wp c (fun _ w' => requests w' = requests w)
    (fun _ w' => requests w' = requests w) w.
Proof. intros H. specialize (H w). unfold wp. destruct (c w); exact H. Qed.

Lemma download_file_requests net url local_path w :
  requests (final_world (download_file net url local_path w))
  = requests w ++ [url].
Proof.
  unfold download_file, bind, record_request, syscall, raise.
  destruct (asset_body net url) as [|ct|ct]; cbn [cwd root requests];
    try reflexivity;
    destruct (write_file _ _ _ _); reflexivity.
Qed.

(** X11.  [main] sends at most two requests, in this order: the one for
    the description of the latest release, always, and then at most one
    download, of the address that [find_asset_url] picked from that
    description. *)
Theorem main_requests :
  forall (Version : Type) (parse : string -> option Version)
         (version_gt : Version -> Version -> bool) (net : Remote) (w : World),
    let api :=
      "https://api.github.com/repos/" +++ GITHUB_REPO +++ "/releases/latest" in
    let after := requests (final_world (main parse version_gt net w)) in
    after = requests w ++ [api] \/
    exists info url,
      release_json net api = Some info /\
      find_asset_url (assets info) = Some url /\
      after = requests w ++ [api; url].
Proof.
  intros Version parse version_gt net w api after.
  set (asked := fun w' : World => requests w' = requests w ++ [api]).
  set (fetched := fun w' : World =>
         exists info url,
           release_json net api = Some info /\
           find_asset_url (assets info) = Some url /\
           requests w' = requests w ++ [api; url]).
  assert (H : wp (main parse version_gt net)
                (fun _ w' => asked w' \/ fetched w')
                (fun _ w' => asked w' \/ fetched w') w).
  { unfold main. rewrite temp_extract_dir_eq.
    apply wp_bind. unfold get_latest_release_info.
    apply wp_bind, wp_record_request. fold api.
    match goal with |- wp _ _ _ ?x => set (w1 := x) end.
    assert (A1 : asked w1) by reflexivity. clearbody w1.
    destruct (release_json net api) as [info|] eqn:Hrel; [|left; exact A1].
    apply wp_ret. cbv beta zeta.
    destruct (find_asset_url (assets info)) as [url|] eqn:Hfind.
    2: { apply wp_logging. left. exact A1. }
    assert (Hkeep : forall (A : Type) (c : M A) w2,
               requests_kept c -> asked w2 ->
               wp c (fun _ w' => asked w') (fun _ w' => asked w' \/ fetched w')
                 w2).
    { intros A c w2 Hk A2. eapply wp_mono; [apply (wp_requests_kept c w2 Hk)| |].
      - intros ? w' E. unfold asked in *. congruence.
      - intros ? w' E. left. unfold asked in *. congruence. }
    apply wp_bind.
    eapply wp_mono; [apply Hkeep; [requests_kept_auto|exact A1]| |auto].
    intros local_version w2 A2. cbv beta. apply wp_bind.
    eapply wp_mono;
      [apply Hkeep; [destruct local_version; requests_kept_auto|exact A2]
      | |auto].
    intros stop w3 A3. cbv beta.
    destruct stop; [apply wp_logging; left; exact A3|].
    apply wp_bind, wp_logging.
    apply wp_bind.
    eapply wp_mono; [apply Hkeep; [requests_kept_auto|exact A3]| |auto].
    intros ? w4 A4. cbv beta. apply wp_bind, wp_logging. apply wp_bind.
    match goal with |- wp (download_file ?n ?u ?p) _ _ ?x =>
      pose proof (download_file_requests n u p x) as D;
      assert (F : fetched (final_world (download_file n u p x)))
    end.
    { exists info, url. split; [reflexivity|split; [exact Hfind|]].
      rewrite D. cbn [requests]. unfold asked in A4. rewrite A4.
      now rewrite <- app_assoc. }
    clear D.
    match goal with |- wp ?c _ _ ?x =>
      unfold wp at 1; destruct (c x) as [[] w5|ex w5]
    end; cbn [final_world] in F; [|right; exact F].
    eapply wp_mono; [apply wp_requests_kept; requests_kept_auto| |];
      intros ? w' E; right;
      destruct F as (i & u & F1 & F2 & F3); exists i, u;
      (split; [exact F1|split; [exact F2|congruence]]). }
  unfold wp in H. subst after.
  destruct (main parse version_gt net w); exact H.
Qed.

(** ** The paths a run can touch *)

Section Untouched.
Variable Version : Type.
Variable parse : string -> option Version.
Variable version_gt : Version -> Version -> bool.
Variable net : Remote.
Hypothesis archives_safe :
  forall url t, asset_body net url = HttpBody (TarGz t) -> safe_tarball t = true.

Variable c : path.
Variable q : path.
Variable v0 : option node.

Let own : list string := ["frp"; "frp-temp"; "temp"; "local_version.txt"].

Hypothesis q_apart : forall x, In x own -> diverge (c ++ [x]) q.

Definition q_kept (w : World) : Prop :=
  cwd w = c /\ fs_get (root w) q = v0.

(* the download is in place, and [q] is as it was *)
Definition got (url : string) (b : string) (w : World) : Prop :=
  q_kept w /\
  exists ct, asset_body net url = HttpBody ct /\
             fs_get (root w) (c ++ ["temp"; b]) = Some (File ct).

Lemma q_kept_same w1 w2 :
  root w2 = root w1 -> cwd w2 = cwd w1 -> q_kept w1 -> q_kept w2.
Proof. unfold q_kept. intros -> ->. auto. Qed.

Lemma q_kept_inside x w1 r' :
  In x own ->
  q_kept w1 -> inside (c ++ [x]) (root w1) r' -> q_kept (set_root w1 r').
Proof.
  intros Hx [Hc Hv] Hi. split; [exact Hc|]. simpl.
  rewrite Hi; [exact Hv|]. apply q_apart, Hx.
Qed.

Lemma got_inside url b x w1 r' :
  In x own -> x <> "temp" ->
  got url b w1 -> inside (c ++ [x]) (root w1) r' ->
  got url b (set_root w1 r').
Proof.
  intros Hx Ht [Hk (ct & Hb & G)] Hi. split.
  - eapply q_kept_inside; eauto.
  - exists ct. split; [exact Hb|]. simpl. rewrite Hi; [exact G|].
    apply (diverge_siblings c x "temp" [] [b]). exact Ht.
Qed.

Lemma q_syscall x f w1 :
  In x own ->
  q_kept w1 ->
  (forall r r', f c r = inr r' -> inside (c ++ [x]) r r') ->
  wp (syscall f) (fun _ => q_kept) (fun _ => q_kept) w1.
Proof.
  intros Hx Hk Hf. apply wp_syscall; [|intros; exact Hk].
  intros r' H. destruct Hk as [Hc Hv]. rewrite Hc in H.
  eapply q_kept_inside; [exact Hx | split; assumption | eapply Hf, H].
Qed.

Lemma got_syscall url b x f w1 :
  In x own -> x <> "temp" ->
  got url b w1 ->
  (forall r r', f c r = inr r' -> inside (c ++ [x]) r r') ->
  wp (syscall f) (fun _ => got url b) (fun _ => q_kept) w1.
Proof.
  intros Hx Ht Hd Hf. apply wp_syscall; [|intros; exact (proj1 Hd)].
  intros r' H. pose proof (proj1 (proj1 Hd)) as Hc. rewrite Hc in H.
  eapply got_inside; [exact Hx | exact Ht | exact Hd | eapply Hf, H].
Qed.

Lemma got_extract url b x w1 :
  In x own -> x <> "temp" ->
  got url b w1 ->
  wp (extract_tar_gz [Name "temp"; Name b] [Name x])
    (fun _ => got url b) (fun _ => q_kept) w1.
Proof.
  intros Hx Ht Hd.
  pose proof Hd as [[Hc Hv] (ct & Hb & G)].
  assert (Hw : forall w2, cwd w2 = cwd w1 /\
                          inside (cwd w1 ++ [x]) (root w1) (root w2) ->
                          got url b w2).
  { intros w2 [Hc2 Hi]. rewrite Hc in Hi.
    pose proof (got_inside url b x w1 (root w2) Hx Ht Hd Hi) as D.
    destruct D as [[_ Dv] (ct' & Db & Dg)]. simpl in *.
    split; [split; [congruence | exact Dv]|]. eauto. }
  eapply wp_mono.
  - apply extract_tar_gz_inside. intros t Hread. rewrite Hc in Hread.
    apply (read_downloaded _ _ _ _ _ G) in Hread. subst ct.
    eapply archives_safe, Hb.
  - intros ? w2 H. apply Hw, H.
  - intros ? w2 H. apply Hw, H.
Qed.

Lemma download_file_got url w1 :
  q_kept w1 ->
  wp (download_file net url
        (os_path_join DOWNLOAD_DIR [comp_of_string (os_path_basename url)]))
    (fun _ w' => exists b,
         comp_of_string (os_path_basename url) = Name b /\ got url b w')
    (fun _ => q_kept) w1.
Proof.
  intros Hk. unfold download_file, DOWNLOAD_DIR. rewrite join_comp_of_string.
  simpl app.
  apply wp_bind, wp_record_request.
  set (w2 := mkWorld _ _ _ _).
  assert (Hk2 : q_kept w2) by exact Hk.
  clearbody w2.
  assert (Hwr : forall ct r',
             write_file (cwd w2) (root w2)
               [Name "temp"; comp_of_string (os_path_basename url)] ct
             = inr r' ->
             exists b, comp_of_string (os_path_basename url) = Name b /\
                       q_kept (set_root w2 r') /\
                       fs_get r' (c ++ ["temp"; b]) = Some (File ct)).
  { intros ct r' H. pose proof (proj1 Hk2) as Hc. rewrite Hc in H.
    apply download_write in H as (b & Eb & P);
      [|apply comp_of_string_rel]. exists b.
    split; [exact Eb|]. split.
    - apply q_kept_inside with (x := "temp");
        [right; right; left; reflexivity | exact Hk2 |].
      apply put_inside_below with (s := [b]) (v := Some (File ct)).
      rewrite <- app_assoc. exact P.
    - exact (fs_get_put_same _ _ _ _ P). }
  destruct (asset_body net url) as [|ct|ct] eqn:Hb.
  - exact Hk2.
  - apply wp_syscall; [|intros; exact Hk2].
    intros r' H. destruct (Hwr ct r' H) as (b & Eb & Hk3 & G).
    exists b. split; [exact Eb|]. split; [exact Hk3|]. eauto.
  - apply wp_bind, wp_syscall; [|intros; exact Hk2].
    intros r' H. destruct (Hwr ct r' H) as (b & Eb & Hk3 & G). exact Hk3.
Qed.

Ltac q_readonly_step a w Hk' :=
  apply wp_bind;
  eapply wp_mono;
  [ apply wp_readonly; readonly_auto
  | intros a w [? ?];
    assert (Hk' : q_kept w) by (eapply q_kept_same; eassumption);
    cbv beta
  | intros ? ? [? ?]; eapply q_kept_same; eassumption ].

Ltac q_logging_step P w Hd Hd' :=
  apply wp_bind, wp_logging;
  match goal with |- wp _ _ _ ?x => set (w := x) end;
  assert (Hd' : P w) by exact Hd; clearbody w.

Lemma in_own_frp : In "frp" own.
Proof. left. reflexivity. Qed.

Lemma in_own_frp_temp : In "frp-temp" own.
Proof. right. left. reflexivity. Qed.

Lemma in_own_temp : In "temp" own.
Proof. right. right. left. reflexivity. Qed.

Lemma in_own_version : In "local_version.txt" own.
Proof. right. right. right. left. reflexivity. Qed.

Lemma main_q_kept w :
  q_kept w ->
  wp (main parse version_gt net) (fun _ => q_kept) (fun _ => q_kept) w.
Proof.
  intros Hk. unfold main. rewrite temp_extract_dir_eq.
  apply wp_bind. unfold get_latest_release_info.
  apply wp_bind, wp_record_request.
  match goal with |- wp _ _ _ ?x => set (w1 := x) end.
  assert (Hk1 : q_kept w1) by exact Hk. clearbody w1.
  destruct (release_json net _) as [info|] eqn:Hrel; [|exact Hk1].
  apply wp_ret. cbv beta zeta.
  destruct (find_asset_url (assets info)) as [asset_url|].
  2: { apply wp_logging. exact Hk1. }
  q_readonly_step local_version w2 Hk2.
  apply wp_bind.
  eapply wp_mono;
    [ apply wp_readonly; destruct local_version; readonly_auto
    | intros stop w3 [? ?];
      assert (Hk3 : q_kept w3) by (eapply q_kept_same; eassumption);
      cbv beta
    | intros ? ? [? ?]; eapply q_kept_same; eassumption ].
  destruct stop.
  { apply wp_logging. exact Hk3. }
  q_logging_step q_kept w4 Hk3 Hk4.
  apply wp_bind.
  eapply wp_mono;
    [ apply (q_syscall "temp");
      [ exact in_own_temp | exact Hk4
      | intros r r'; apply (os_makedirs_inside c "temp" []); reflexivity ]
    | intros ? w5 Hk5; cbv beta | auto ].
  q_logging_step q_kept w6 Hk5 Hk6.
  apply wp_bind.
  eapply wp_mono;
    [ apply download_file_got; exact Hk6
    | intros ? w7 (b & Eb & Hd7); cbv beta | auto ].
  rewrite Eb.
  q_logging_step (got asset_url b) w8 Hd7 Hd8.
  apply wp_bind.
  eapply wp_mono;
    [ apply (got_extract asset_url b "frp");
      [ exact in_own_frp | discriminate | exact Hd8 ]
    | intros ? w9 Hd9; cbv beta | auto ].
  apply wp_bind.
  eapply wp_mono;
    [ apply (got_syscall asset_url b "frp-temp");
      [ exact in_own_frp_temp | discriminate | exact Hd9
      | intros r r'; apply (os_makedirs_inside c "frp-temp" []); reflexivity ]
    | intros ? w10 Hd10; cbv beta | auto ].
  apply wp_bind.
  eapply wp_mono;
    [ apply (got_extract asset_url b "frp-temp");
      [ exact in_own_frp_temp | discriminate | exact Hd10 ]
    | intros ? w11 [Hk11 _]; cbv beta | auto ].
  apply wp_bind, wp_query. apply wp_bind.
  apply wp_mono with (Q := fun _ => q_kept) (R := fun _ => q_kept); [| |auto].
  { destruct (os_path_exists _ _ _); [|exact Hk11].
    q_logging_step q_kept w12 Hk11 Hk12.
    apply (q_syscall "frp"); [ exact in_own_frp | exact Hk12 |].
    intros r r'. apply (shutil_rmtree_inside c "frp" []). reflexivity. }
  intros ? w12 Hk12.
  q_logging_step q_kept w13 Hk12 Hk13.
  apply wp_bind.
  apply wp_mono with (Q := fun _ => q_kept) (R := fun _ => q_kept); [| |auto].
  { apply wp_syscall; [|intros; exact Hk13].
    intros r' Hren. pose proof (proj1 Hk13) as Hc. rewrite Hc in Hren.
    apply os_rename_inside2 in Hren as (r1 & I1 & I2).
    pose proof (q_kept_inside "frp-temp" w13 r1 in_own_frp_temp Hk13 I1) as K1.
    exact (q_kept_inside "frp" (set_root w13 r1) r' in_own_frp K1 I2). }
  intros ? w14 Hk14.
  q_logging_step q_kept w15 Hk14 Hk15.
  apply wp_bind. unfold write_local_version.
  eapply wp_mono;
    [ apply (q_syscall "local_version.txt");
      [ exact in_own_version | exact Hk15
      | intros r r';
        apply (write_file_inside c "local_version.txt" []); reflexivity ]
    | intros ? w16 Hk16; cbv beta | auto ].
  apply wp_bind.
  eapply wp_mono;
    [ apply (q_syscall "temp");
      [ exact in_own_temp | exact Hk16
      | intros r r'; apply (shutil_rmtree_inside c "temp" []); reflexivity ]
    | intros ? w17 Hk17; cbv beta | auto ].
  apply wp_logging. exact Hk17.
Qed.

Lemma script_q_kept w :
  q_kept w ->
  wp (script parse version_gt net) (fun _ => q_kept) (fun _ => q_kept) w.
Proof.
  intros Hk. unfold script, module_init.
  apply wp_bind.
  eapply wp_mono;
    [ apply (q_syscall "frp");
      [ exact in_own_frp | exact Hk
      | intros r r'; apply (os_makedirs_inside c "frp" []); reflexivity ]
    | intros ? w1 Hk1; apply main_q_kept, Hk1 | auto ].
Qed.
End Untouched.

(** X12.  A run touches nothing but its own four paths.  When the
    archives the host serves are made of directories and regular files
    whose names are relative and free of [..], a path that is not below
    [frp], [frp-temp], [temp] or [local_version.txt] of the working
    directory (and does not lead there) holds after the run what it held
    before it, however the run ends; this is so for [main] and for the
    whole script. *)
Theorem run_touches_only_its_own_paths :
  forall (Version : Type) (parse : string -> option Version)
         (version_gt : Version -> Version -> bool) (net : Remote)
         (w : World) (q : path),
    (forall url t,
        asset_body net url = HttpBody (TarGz t) -> safe_tarball t = true) ->
    (forall x, In x ["frp"; "frp-temp"; "temp"; "local_version.txt"] ->
               diverge (cwd w ++ [x]) q) ->
    fs_get (root (final_world (main parse version_gt net w))) q
    = fs_get (root w) q /\
    fs_get (root (final_world (script parse version_gt net w))) q
    = fs_get (root w) q.
Proof.
  intros Version parse version_gt net w q Hsafe Hq.
  assert (Hk : q_kept (cwd w) q (fs_get (root w) q) w) by (split; reflexivity).
  split.
  - pose proof (main_q_kept Version parse version_gt net Hsafe (cwd w) q
                  (fs_get (root w) q) Hq w Hk) as H.
    unfold wp in H. destruct (main parse version_gt net w); exact (proj2 H).
  - pose proof (script_q_kept Version parse version_gt net Hsafe (cwd w) q
                  (fs_get (root w) q) Hq w Hk) as H.
    unfold wp in H. destruct (script parse version_gt net w); exact (proj2 H).
Qed.

(** ** A first installation *)

Section Children.
Variable c : path.

Lemma child_put_same r x v r' :
  fs_put r (c ++ [x]) v = Some r' -> fs_get r' (c ++ [x]) = v.
Proof. apply fs_get_put_same. Qed.

Lemma child_put_other r x v r' y s :
  fs_put r (c ++ [x]) v = Some r' -> y <> x ->
  fs_get r' (c ++ y :: s) = fs_get r (c ++ y :: s).
Proof.
  intros P Hy. apply (fs_get_put_diverge _ _ _ _ _ P).
  apply (diverge_siblings c x y [] s). congruence.
Qed.

Lemma child_put_dir r x v r' :
  is_dir r c = true -> fs_put r (c ++ [x]) v = Some r' -> is_dir r' c = true.
Proof.
  unfold is_dir. intros D P.
  destruct (fs_get r c) as [[?|es]|] eqn:G; try discriminate.
  now rewrite (fs_put_entries _ _ _ _ _ _ G P).
Qed.

Lemma child_inside_other r x r' y s :
  inside (c ++ [x]) r r' -> y <> x ->
  fs_get r' (c ++ y :: s) = fs_get r (c ++ y :: s).
Proof.
  intros I Hy. apply I. apply (diverge_siblings c x y [] s). congruence.
Qed.

Lemma walk_child r x :
  is_dir r c = true -> walk r c [Name x] = inr (c ++ [x]).
Proof. intros D. exact (proj2 (walk_one r c (Name x) ltac:(discriminate)) D). Qed.

Lemma walk_grandchild r x y :
  is_dir r c = true -> is_dir r (c ++ [x]) = true ->
  walk r c [Name x; Name y] = inr (c ++ [x; y]).
Proof.
  intros D1 D2. apply (walk_names r [x; y]). cbn [dirs_to]. auto.
Qed.

Lemma makedirs_child r x :
  is_dir r c = true -> fs_get r (c ++ [x]) = None ->
  exists r',
    os_makedirs c r [Name x] = inr r' /\
    fs_put r (c ++ [x]) (Some (Dir [])) = Some r'.
Proof.
  intros D G. destruct (fs_put_succeeds r c x (Some (Dir [])) D) as [r' P].
  exists r'. split; [|exact P].
  unfold os_makedirs. cbn [makedirs_from app]. unfold os_mkdir, put_or.
  now rewrite (walk_child r x D), G, P.
Qed.

Lemma rmtree_child r x es :
  is_dir r c = true -> fs_get r (c ++ [x]) = Some (Dir es) ->
  exists r',
    shutil_rmtree c r [Name x] = inr r' /\
    fs_put r (c ++ [x]) None = Some r'.
Proof.
  intros D G. destruct (fs_put_succeeds r c x None D) as [r' P].
  exists r'. split; [|exact P].
  unfold shutil_rmtree, put_or. now rewrite (walk_child r x D), G, P.
Qed.

(* open(..., "w") on a name that is free or a file *)
Lemma write_child r x ct :
  is_dir r c = true -> not_a_dir (fs_get r (c ++ [x])) = true ->
  exists r',
    write_file c r [Name x] ct = inr r' /\
    fs_put r (c ++ [x]) (Some (File ct)) = Some r'.
Proof.
  intros D G. destruct (fs_put_succeeds r c x (Some (File ct)) D) as [r' P].
  exists r'. split; [|exact P].
  unfold write_file, put_or. rewrite (walk_child r x D), P.
  destruct (fs_get r (c ++ [x])) as [[?|?]|]; (reflexivity || discriminate).
Qed.

Lemma read_child r x ct :
  is_dir r c = true -> fs_get r (c ++ [x]) = Some (File ct) ->
  read_file c r [Name x] = inr ct.
Proof.
  intros D G. unfold read_file. now rewrite (walk_child r x D), G.
Qed.

(* os.makedirs(..., exist_ok=True) on a directory that exists *)
Lemma makedirs_existing r x es :
  is_dir r c = true -> fs_get r (c ++ [x]) = Some (Dir es) ->
  os_makedirs c r [Name x] = inr r.
Proof.
  intros D G. unfold os_makedirs. cbn [makedirs_from app].
  unfold os_mkdir, os_path_isdir, is_dir.
  now rewrite (walk_child r x D), G.
Qed.

Lemma write_grandchild r x y ct :
  is_dir r c = true -> fs_get r (c ++ [x]) = Some (Dir []) ->
  exists r',
    write_file c r [Name x; Name y] ct = inr r' /\
    fs_put r (c ++ [x; y]) (Some (File ct)) = Some r' /\
    fs_get r' (c ++ [x]) = Some (Dir [(y, File ct)]).
Proof.
  intros D G.
  assert (Dx : is_dir r (c ++ [x]) = true) by (unfold is_dir; now rewrite G).
  destruct (fs_put_succeeds r (c ++ [x]) y (Some (File ct)) Dx) as [r' P].
  pose proof (fs_put_entries _ _ _ _ _ _ G P) as G'.
  rewrite <- app_assoc in P. cbn [app] in P.
  exists r'. split; [|split; [exact P|exact G']].
  assert (Gy : fs_get r (c ++ [x; y]) = None).
  { replace (c ++ [x; y]) with ((c ++ [x]) ++ [y])
      by (rewrite <- app_assoc; reflexivity).
    now rewrite fs_get_app, G. }
  unfold write_file, put_or.
  now rewrite (walk_grandchild r x y D Dx), Gy, P.
Qed.

Lemma read_grandchild r x y ct :
  is_dir r c = true -> fs_get r (c ++ [x]) = Some (Dir [(y, File ct)]) ->
  read_file c r [Name x; Name y] = inr ct.
Proof.
  intros D G.
  assert (Dx : is_dir r (c ++ [x]) = true) by (unfold is_dir; now rewrite G).
  unfold read_file. rewrite (walk_grandchild r x y D Dx).
  replace (c ++ [x; y]) with ((c ++ [x]) ++ [y])
    by (rewrite <- app_assoc; reflexivity).
  now rewrite fs_get_app, G, fs_get_dir, alookup_single.
Qed.

Lemma rename_child r x y n :
  is_dir r c = true -> fs_get r (c ++ [x]) = Some n ->
  fs_get r (c ++ [y]) = None -> x <> y ->
  exists r1 r',
    os_rename c r [Name x] [Name y] = inr r' /\
    fs_put r (c ++ [x]) None = Some r1 /\
    fs_put r1 (c ++ [y]) (Some n) = Some r'.
Proof.
  intros D Gx Gy Hxy.
  destruct (fs_put_succeeds r c x None D) as [r1 P1].
  destruct (fs_put_succeeds r1 c y (Some n) (child_put_dir _ _ _ _ D P1))
    as [r' P2].
  exists r1, r'. split; [|split; assumption].
  apply os_rename_moves with (ps := c ++ [x]) (pd := c ++ [y]) (ns := n)
                             (r1 := r1); auto using walk_child.
  - rewrite path_eqb_app_both. cbn [path_eqb].
    apply String.eqb_neq in Hxy. now rewrite Hxy.
  - rewrite is_prefix_app_both. cbn [is_prefix].
    apply String.eqb_neq in Hxy. now rewrite Hxy.
  - rewrite is_prefix_app_both. cbn [is_prefix].
    apply not_eq_sym, String.eqb_neq in Hxy. now rewrite Hxy.
Qed.

Lemma exists_child r x :
  is_dir r c = true -> os_path_exists c r [Name x] = present r (c ++ [x]).
Proof. intros D. unfold os_path_exists. now rewrite (walk_child r x D). Qed.
End Children.

Section Layout.
Variable c : path.

(* the entries of the working directory, by name *)
Definition upd (x : string) (v : option node) (K : string -> option node)
  : string -> option node :=
  fun y => if String.eqb y x then v else K y.

Definition at_state (K : string -> option node) (w : World) : Prop :=
  cwd w = c /\ is_dir (root w) c = true /\
  forall y, fs_get (root w) (c ++ [y]) = K y.

Lemma at_state_put K w x v r' :
  at_state K w -> fs_put (root w) (c ++ [x]) v = Some r' ->
  at_state (upd x v K) (set_root w r').
Proof.
  intros (Hc & D & HK) P. split; [exact Hc|]. split.
  - exact (child_put_dir c _ _ _ _ D P).
  - intros y. unfold upd. cbn [root set_root].
    destruct (String.eqb_spec y x) as [->|Hy].
    + exact (child_put_same c _ _ _ _ P).
    + rewrite (child_put_other c _ _ _ _ y [] P Hy). apply HK.
Qed.

Lemma at_state_inside K w x n w' :
  at_state K w -> cwd w' = cwd w ->
  inside (c ++ [x]) (root w) (root w') ->
  fs_get (root w') (c ++ [x]) = Some n ->
  at_state (upd x (Some n) K) w'.
Proof.
  intros (Hc & D & HK) Hc' I G. split; [congruence|]. split.
  - eapply fs_get_snoc_dir, G.
  - intros y. unfold upd.
    destruct (String.eqb_spec y x) as [->|Hy]; [exact G|].
    rewrite (child_inside_other c _ _ _ y [] I Hy). apply HK.
Qed.

Lemma at_state_ext K K' w :
  at_state K w -> (forall y, K y = K' y) -> at_state K' w.
Proof.
  intros (Hc & D & HK) E. split; [exact Hc|]. split; [exact D|].
  intros y. rewrite <- E. apply HK.
Qed.

Lemma st_logging K l msg w :
  at_state K w ->
  wp (logging l msg) (fun _ => at_state K) (fun _ _ => False) w.
Proof. intros H. apply wp_logging. exact H. Qed.

Lemma st_record_request K url w :
  at_state K w ->
  wp (record_request url) (fun _ => at_state K) (fun _ _ => False) w.
Proof. intros H. apply wp_record_request. exact H. Qed.

Lemma st_makedirs K x w :
  at_state K w -> K x = None ->
  wp (syscall (fun cwd r => os_makedirs cwd r [Name x]))
    (fun _ => at_state (upd x (Some (Dir [])) K)) (fun _ _ => False) w.
Proof.
  intros H Hx. pose proof H as (Hc & D & HK).
  rewrite <- HK in Hx.
  destruct (makedirs_child c _ x D Hx) as (r' & E & P).
  apply wp_syscall; rewrite Hc, E; [|discriminate].
  intros ? [= <-]. exact (at_state_put K w x _ _ H P).
Qed.

(* exist_ok=True *)
Lemma st_makedirs_existing K x es w :
  at_state K w -> K x = Some (Dir es) ->
  wp (syscall (fun cwd r => os_makedirs cwd r [Name x]))
    (fun _ => at_state K) (fun _ _ => False) w.
Proof.
  intros H Hx. pose proof H as (Hc & D & HK).
  rewrite <- HK in Hx.
  apply wp_syscall; rewrite Hc, (makedirs_existing c _ x es D Hx);
    [|discriminate].
  intros ? [= <-]. destruct w. exact H.
Qed.

Lemma st_rmtree K x es w :
  at_state K w -> K x = Some (Dir es) ->
  wp (syscall (fun cwd r => shutil_rmtree cwd r [Name x]))
    (fun _ => at_state (upd x None K)) (fun _ _ => False) w.
Proof.
  intros H Hx. pose proof H as (Hc & D & HK).
  rewrite <- HK in Hx.
  destruct (rmtree_child c _ x es D Hx) as (r' & E & P).
  apply wp_syscall; rewrite Hc, E; [|discriminate].
  intros ? [= <-]. exact (at_state_put K w x _ _ H P).
Qed.

Lemma st_write K x ct w :
  at_state K w -> not_a_dir (K x) = true ->
  wp (syscall (fun cwd r => write_file cwd r [Name x] ct))
    (fun _ => at_state (upd x (Some (File ct)) K)) (fun _ _ => False) w.
Proof.
  intros H Hx. pose proof H as (Hc & D & HK).
  rewrite <- HK in Hx.
  destruct (write_child c _ x ct D Hx) as (r' & E & P).
  apply wp_syscall; rewrite Hc, E; [|discriminate].
  intros ? [= <-]. exact (at_state_put K w x _ _ H P).
Qed.

Lemma st_write_below K x y ct w :
  at_state K w -> K x = Some (Dir []) ->
  wp (syscall (fun cwd r => write_file cwd r [Name x; Name y] ct))
    (fun _ => at_state (upd x (Some (Dir [(y, File ct)])) K))
    (fun _ _ => False) w.
Proof.
  intros H Hx. pose proof H as (Hc & D & HK).
  rewrite <- HK in Hx.
  destruct (write_grandchild c _ x y ct D Hx) as (r' & E & P & G).
  apply wp_syscall; rewrite Hc, E; [|discriminate].
  intros ? [= <-].
  apply (at_state_inside K w x _ (set_root w r') H eq_refl); [|exact G].
  apply put_inside_below with (s := [y]) (v := Some (File ct)).
  rewrite <- app_assoc. exact P.
Qed.

Lemma st_rename K x y n w :
  at_state K w -> K x = Some n -> K y = None -> x <> y ->
  wp (syscall (fun cwd r => os_rename cwd r [Name x] [Name y]))
    (fun _ => at_state (upd y (Some n) (upd x None K))) (fun _ _ => False) w.
Proof.
  intros H Hx Hy Hxy. pose proof H as (Hc & D & HK).
  rewrite <- HK in Hx, Hy.
  destruct (rename_child c _ x y n D Hx Hy Hxy) as (r1 & r' & E & P1 & P2).
  apply wp_syscall; rewrite Hc, E; [|discriminate].
  intros ? [= <-].
  pose proof (at_state_put K w x _ _ H P1) as H1.
  exact (at_state_put _ (set_root w r1) y _ _ H1 P2).
Qed.

Lemma st_exists K x w :
  at_state K w ->
  os_path_exists (cwd w) (root w) [Name x]
  = match K x with Some _ => true | None => false end.
Proof.
  intros (Hc & D & HK). rewrite Hc, (exists_child c _ x D).
  unfold present. now rewrite HK.
Qed.

Lemma st_read_missing K x w :
  at_state K w -> K x = None ->
  wp (read_local_version [Name x])
    (fun a w' => a = None /\ at_state K w') (fun _ _ => False) w.
Proof.
  intros H Hx. unfold read_local_version.
  apply wp_bind, wp_query. rewrite (st_exists K x w H), Hx.
  cbn [negb]. apply wp_ret. split; [reflexivity|exact H].
Qed.

Lemma st_read_present K x s w :
  at_state K w -> K x = Some (File (Raw s)) ->
  wp (read_local_version [Name x])
    (fun a w' => a = Some (strip s) /\ at_state K w') (fun _ _ => False) w.
Proof.
  intros H Hx. pose proof H as (Hc & D & HK). unfold read_local_version.
  apply wp_bind, wp_query. rewrite (st_exists K x w H), Hx.
  cbn [negb]. rewrite <- HK in Hx.
  apply wp_bind, wp_attempt; rewrite Hc, (read_child c _ x _ D Hx);
    [|discriminate].
  intros ? [= <-]. apply wp_ret. split; [reflexivity|exact H].
Qed.

Lemma st_extract K x y e d files es w :
  at_state K w ->
  K x = Some (Dir [(y, File (TarGz (flat_archive d files)))]) ->
  K e = Some (Dir es) ->
  alookup "temp" es = None ->
  NoDup (map fst files) ->
  (forall z, In z (map fst files) ->
             z <> "temp" /\ not_a_dir (alookup z es) = true) ->
  wp (extract_tar_gz [Name x; Name y] [Name e])
    (fun _ => at_state (upd e (Some (Dir (place_all (file_nodes files) es))) K))
    (fun _ _ => False) w.
Proof.
  intros H Hx He Ht Hnd Hok. pose proof H as (Hc & D & HK).
  rewrite <- HK in Hx, He. rewrite <- Hc in Hx, He, D.
  eapply wp_mono;
    [apply (extract_flat_run [Name x; Name y] e d files es w)| |auto].
  - exact (read_grandchild (cwd w) _ x y _ D Hx).
  - exact He.
  - exact Ht.
  - exact Hnd.
  - exact Hok.
  - intros ? w' (Hc' & G' & I'). rewrite Hc in G', I'.
    exact (at_state_inside K w e _ w' H Hc' I' G').
Qed.
End Layout.

Ltac st_step lem :=
  apply wp_bind; eapply wp_mono;
  [ eapply lem; [eassumption | ..]
  | let St := fresh "St" in intros ? ? St; cbv beta in St; cbv beta
  | auto ].

Ltac st_side :=
  unfold upd; cbn [String.eqb Ascii.eqb Bool.eqb];
  try reflexivity; try assumption.

Section Install.
Variable Version : Type.
Variable parse : string -> option Version.
Variable version_gt : Version -> Version -> bool.
Variable net : Remote.
Variables (info : ReleaseInfo) (url b d : string).
Variable files : list (string * string).
Variable old : list (string * node).
Hypothesis described :
  release_json net
    ("https://api.github.com/repos/" +++ GITHUB_REPO +++ "/releases/latest")
  = Some info.
Hypothesis located : find_asset_url (assets info) = Some url.
Hypothesis named : comp_of_string (os_path_basename url) = Name b.
Hypothesis served :
  asset_body net url = HttpBody (TarGz (flat_archive d files)).
Hypothesis distinct : NoDup (map fst files).
Hypothesis old_no_temp : alookup "temp" old = None.
Hypothesis old_ok :
  forall x, In x (map fst files) ->
            x <> "temp" /\ not_a_dir (alookup x old) = true.

Variable c : path.
Variable K0 : string -> option node.
Hypothesis has_frp : K0 "frp" = Some (Dir old).
Hypothesis no_frp_temp : K0 "frp-temp" = None.
Hypothesis no_download : K0 "temp" = None.
(* no version stored, or one that is not greater than the release *)
Hypothesis gate_open :
  K0 "local_version.txt" = None \/
  exists s a bv,
    K0 "local_version.txt" = Some (File (Raw s)) /\
    parse (strip s) = Some a /\ parse (tag_name info) = Some bv /\
    version_gt a bv = false.

Definition installed : string -> option node :=
  fun y =>
    if String.eqb y "frp" then Some (Dir (file_nodes files))
    else if String.eqb y "local_version.txt"
         then Some (File (Raw (tag_name info)))
         else K0 y.

Lemma version_file_writable : not_a_dir (K0 "local_version.txt") = true.
Proof.
  destruct gate_open as [->|(s & a & bv & -> & _)]; reflexivity.
Qed.

Lemma fresh_ok :
  forall x, In x (map fst files) ->
            x <> "temp" /\ not_a_dir (alookup x []) = true.
Proof. intros x Hx. split; [apply old_ok, Hx|reflexivity]. Qed.

Lemma st_download K y ct w :
  at_state c K w -> asset_body net url = HttpBody ct ->
  K "temp" = Some (Dir []) ->
  wp (download_file net url [Name "temp"; Name y])
    (fun _ => at_state c (upd "temp" (Some (Dir [(y, File ct)])) K))
    (fun _ _ => False) w.
Proof.
  intros H Hbody Ht. unfold download_file.
  apply wp_bind, wp_record_request. rewrite Hbody.
  apply (st_write_below c K "temp" y ct); [exact H|exact Ht].
Qed.

(* from "New version available" to the end of [main] *)
Lemma install_steps w :
  at_state c K0 w ->
  wp (logging INFO ("New version available: " +++ tag_name info) ;;;
      syscall (fun cwd r => os_makedirs cwd r [Name "temp"]) ;;;
      logging INFO ("Downloading " +++ url +++ " to "
                    +++ string_of_path DOWNLOAD_DIR +++ "/"
                    +++ os_path_basename url) ;;;
      download_file net url [Name "temp"; Name b] ;;;
      logging INFO ("Extracting " +++ string_of_path DOWNLOAD_DIR +++ "/"
                    +++ os_path_basename url +++ " to "
                    +++ string_of_path EXTRACT_DIR) ;;;
      extract_tar_gz [Name "temp"; Name b] [Name "frp"] ;;;
      syscall (fun cwd r => os_makedirs cwd r [Name "frp-temp"]) ;;;
      extract_tar_gz [Name "temp"; Name b] [Name "frp-temp"] ;;;
      e <- query (fun cwd r => os_path_exists cwd r [Name "frp"]) ;;
      (if e : bool then
         logging INFO ("Removing existing directory "
                       +++ string_of_path EXTRACT_DIR) ;;;
         syscall (fun cwd r => shutil_rmtree cwd r [Name "frp"])
       else ret tt) ;;;
      logging INFO ("Renaming " +++ string_of_path [Name "frp-temp"]
                    +++ " to " +++ string_of_path EXTRACT_DIR) ;;;
      syscall (fun cwd r => os_rename cwd r [Name "frp-temp"] [Name "frp"]) ;;;
      logging INFO ("Updating local version to " +++ tag_name info) ;;;
      write_local_version [Name "local_version.txt"] (tag_name info) ;;;
      syscall (fun cwd r => shutil_rmtree cwd r [Name "temp"]) ;;;
      logging INFO "Update complete.")%py
    (fun _ => at_state c installed) (fun _ _ => False) w.
Proof.
  intros H0. pose proof version_file_writable as Hvf.
  st_step st_logging.
  st_step st_makedirs; [st_side|].
  st_step st_logging.
  st_step st_download; [exact served|st_side|].
  st_step st_logging.
  st_step st_extract;
    [st_side|exact has_frp|exact old_no_temp|exact distinct|exact old_ok|].
  st_step st_makedirs; [st_side|].
  st_step st_extract;
    [st_side|st_side|reflexivity|exact distinct|exact fresh_ok|].
  apply wp_bind, wp_query.
  match goal with H : at_state c ?K ?x |- context [os_path_exists (cwd ?x)] =>
    rewrite (st_exists c K "frp" x H)
  end.
  unfold upd. cbn [String.eqb Ascii.eqb Bool.eqb].
  apply wp_bind.
  st_step st_logging.
  eapply wp_mono; [eapply st_rmtree; [eassumption|st_side]| |auto].
  intros ? w3 Hs3. cbv beta in Hs3. cbv beta.
  st_step st_logging.
  st_step st_rename; [st_side|st_side|discriminate|].
  st_step st_logging.
  unfold write_local_version.
  st_step st_write; [st_side|].
  st_step st_rmtree; [st_side|].
  eapply wp_mono; [eapply st_logging; eassumption| |auto].
  intros ? w4 Hs4. cbv beta in Hs4. cbv beta.
  eapply at_state_ext; [exact Hs4|].
  intros y. unfold upd, installed.
  rewrite place_all_nil by (rewrite map_fst_file_nodes; exact distinct).
  destruct (String.eqb_spec y "temp") as [->|_]; [symmetry; exact no_download|].
  destruct (String.eqb_spec y "local_version.txt") as [->|_]; [reflexivity|].
  destruct (String.eqb_spec y "frp") as [->|_]; [reflexivity|].
  destruct (String.eqb_spec y "frp-temp") as [->|_];
    [symmetry; exact no_frp_temp|].
  reflexivity.
Qed.

Lemma main_install_run w :
  at_state c K0 w ->
  wp (main parse version_gt net)
    (fun _ => at_state c installed) (fun _ _ => False) w.
Proof.
  intros H0. unfold main. rewrite temp_extract_dir_eq.
  apply wp_bind. unfold get_latest_release_info. cbv zeta.
  st_step st_record_request. rewrite described. apply wp_ret.
  cbv beta zeta. rewrite located.
  unfold LOCAL_VERSION_FILE, os_path_join, is_abs.
  rewrite named.
  apply wp_bind.
  destruct gate_open as [Hnone|(sv & va & vb & Hs & Ha & Hb & Hgt)].
  - eapply wp_mono;
      [eapply st_read_missing; [eassumption|exact Hnone]| |auto].
    intros ? w2 [-> Hs2]. apply wp_bind, wp_ret. cbv iota.
    apply install_steps, Hs2.
  - eapply wp_mono;
      [eapply st_read_present; [eassumption|exact Hs]| |auto].
    intros ? w2 [-> Hs2]. apply wp_bind. unfold version_parse.
    rewrite Ha, Hb. apply wp_bind, wp_ret, wp_bind, wp_ret, wp_ret.
    rewrite Hgt. cbv iota.
    apply install_steps, Hs2.
Qed.

Lemma script_install_run w :
  at_state c K0 w ->
  wp (script parse version_gt net)
    (fun _ => at_state c installed) (fun _ _ => False) w.
Proof.
  intros H0. unfold script, module_init, EXTRACT_DIR.
  apply wp_bind. eapply wp_mono;
    [eapply st_makedirs_existing; [exact H0|exact has_frp]| |auto].
  intros ? w1 H1. apply main_install_run, H1.
Qed.
End Install.

Lemma first_install_run (Version : Type) (parse : string -> option Version)
  (version_gt : Version -> Version -> bool) (net : Remote)
  (info : ReleaseInfo) (url b d : string) (files : list (string * string))
  (c : path) (K0 : string -> option node) (w : World) :
  release_json net
    ("https://api.github.com/repos/" +++ GITHUB_REPO +++ "/releases/latest")
  = Some info ->
  find_asset_url (assets info) = Some url ->
  comp_of_string (os_path_basename url) = Name b ->
  asset_body net url = HttpBody (TarGz (flat_archive d files)) ->
  NoDup (map fst files) ->
  ~ In "temp" (map fst files) ->
  K0 "frp" = None -> K0 "frp-temp" = None -> K0 "temp" = None ->
  K0 "local_version.txt" = None ->
  at_state c K0 w ->
  wp (script parse version_gt net)
    (fun _ => at_state c (installed info files K0)) (fun _ _ => False) w.
Proof.
  intros Hrel Hfind Hb Hbody Hnd Htemp F1 F2 F3 F4 H0.
  unfold script, module_init, EXTRACT_DIR.
  st_step st_makedirs; [exact F1|].
  eapply wp_mono;
    [apply main_install_run
       with (info := info) (url := url) (b := b) (d := d) (files := files)
            (old := []) (c := c) (K0 := upd "frp" (Some (Dir [])) K0);
     [ exact Hrel | exact Hfind | exact Hb | exact Hbody | exact Hnd
     | reflexivity
     | intros x Hx; split; [|reflexivity]; intros ->; contradiction
     | reflexivity | exact F2 | exact F3 | left; exact F4 | eassumption ]
    | |auto].
  intros ? w'0 H'. cbv beta in H'. eapply at_state_ext; [exact H'|].
  intros y. unfold installed, upd.
  destruct (String.eqb y "frp"); reflexivity.
Qed.



(** * The further properties at concrete inputs *)

Lemma flat_pkg_read_safe :
  forall t,
    read_file (cwd (dl_site flat_pkg)) (root (dl_site flat_pkg))
      [Name "dl"; Name "p.tar.gz"] = inr (TarGz t) ->
    safe_tarball t = true.
Proof. intros t [= <-]. reflexivity. Qed.

Lemma flat_payload_names : NoDup (map fst flat_payload).
Proof.
  constructor; [intros [H|[]]; discriminate|].
  constructor; [intros []|constructor].
Qed.

Lemma flat_server_safe :
  forall url t,
    asset_body flat_server url = HttpBody (TarGz t) -> safe_tarball t = true.
Proof. intros url t [= <-]. reflexivity. Qed.

Lemma notes_apart :
  forall x, In x ["frp"; "frp-temp"; "temp"; "local_version.txt"] ->
            diverge (cwd noted_site ++ [x]) ["srv"; "notes.txt"].
Proof. intros x [<-|[<-|[<-|[<-|[]]]]]; split; reflexivity. Qed.

(** X1 at a version written with a trailing blank. *)
Lemma write_read_local_version_witness :
  plain_text "v1.5.0 " = true /\
  write_local_version LOCAL_VERSION_FILE "v1.5.0 " (site [])
  = Ok tt (stored "v1.5.0 ") /\
  read_local_version LOCAL_VERSION_FILE (stored "v1.5.0 ")
  = Ok (Some "v1.5.0") (stored "v1.5.0 ").
Proof.
  split; [reflexivity|]. split; [reflexivity|].
  exact (write_read_local_version LOCAL_VERSION_FILE "v1.5.0 " (site [])
           (stored "v1.5.0 ") eq_refl eq_refl).
Defined.

(** X2 at a version file with blanks around the version. *)
Lemma read_write_read_local_version_witness :
  read_local_version LOCAL_VERSION_FILE (stored " v1.0.0 ")
  = Ok (Some "v1.0.0") (stored " v1.0.0 ") /\
  write_local_version LOCAL_VERSION_FILE "v1.0.0" (stored " v1.0.0 ")
  = Ok tt (stored "v1.0.0") /\
  read_local_version LOCAL_VERSION_FILE (stored "v1.0.0")
  = Ok (Some "v1.0.0") (stored "v1.0.0").
Proof.
  split; [reflexivity|]. split; [reflexivity|].
  exact (read_write_read_local_version LOCAL_VERSION_FILE "v1.0.0"
           (stored " v1.0.0 ") (stored " v1.0.0 ") (stored "v1.0.0")
           eq_refl eq_refl).
Defined.

(** X4 at the archive [frp_1.5.0_linux_amd64/{frpc,frps}]. *)
Lemma extract_tar_gz_stays_inside_witness :
  (forall t,
      read_file (cwd (dl_site flat_pkg)) (root (dl_site flat_pkg))
        [Name "dl"; Name "p.tar.gz"] = inr (TarGz t) ->
      safe_tarball t = true) /\
  inside ["srv"; "out"] (root (dl_site flat_pkg))
    (root (final_world
             (extract_tar_gz [Name "dl"; Name "p.tar.gz"] [Name "out"]
                (dl_site flat_pkg)))).
Proof.
  split; [exact flat_pkg_read_safe|].
  exact (extract_tar_gz_stays_inside (dl_site flat_pkg)
           [Name "dl"; Name "p.tar.gz"] "out" flat_pkg_read_safe).
Defined.

(** X5 at the same extraction. *)
Lemma extract_tar_gz_removes_staging_witness :
  extract_tar_gz [Name "dl"; Name "p.tar.gz"] [Name "out"] (dl_site flat_pkg)
  = Ok tt extracted_flat_site /\
  fs_get (root extracted_flat_site) ["srv"; "out"; "temp"] = None.
Proof.
  split; [reflexivity|].
  exact (extract_tar_gz_removes_staging (dl_site flat_pkg) extracted_flat_site
           [Name "dl"; Name "p.tar.gz"] [Name "out"] eq_refl).
Defined.

(** X7 at a checksum file listed before the archive. *)
Lemma find_asset_url_accepts_longer_names_witness :
  is_number "1" = true /\ is_number "5" = true /\ is_number "0" = true /\
  find_asset_url
    [mkAsset "frp_1.5.0_linux_amd64.tar.gz.sha256" "checksum";
     mkAsset "frp_1.5.0_linux_amd64.tar.gz" "archive"]
  = Some "checksum".
Proof.
  split; [reflexivity|]. split; [reflexivity|]. split; [reflexivity|].
  exact (find_asset_url_accepts_longer_names "1" "5" "0" ".sha256" "checksum"
           [mkAsset "frp_1.5.0_linux_amd64.tar.gz" "archive"]
           eq_refl eq_refl eq_refl).
Defined.



(** X12 at an upgrade beside a file of the user's. *)
Lemma run_touches_only_its_own_paths_witness :
  (forall url t,
      asset_body flat_server url = HttpBody (TarGz t) ->
      safe_tarball t = true) /\
  (forall x, In x ["frp"; "frp-temp"; "temp"; "local_version.txt"] ->
             diverge (cwd noted_site ++ [x]) ["srv"; "notes.txt"]) /\
  fs_get (root (final_world (main release_parse release_gt flat_server
                               noted_site))) ["srv"; "notes.txt"]
  = fs_get (root noted_site) ["srv"; "notes.txt"] /\
  fs_get (root (final_world (script release_parse release_gt flat_server
                               noted_site))) ["srv"; "notes.txt"]
  = fs_get (root noted_site) ["srv"; "notes.txt"].
Proof.
  split; [exact flat_server_safe|]. split; [exact notes_apart|].
  exact (run_touches_only_its_own_paths _ release_parse release_gt
           flat_server noted_site ["srv"; "notes.txt"]
           flat_server_safe notes_apart).
Defined.

(** X13 at an upgrade from [v1.0.0] to [v1.5.0]. *)
Lemma update_gate_witness :
  release_json flat_server
    ("https://api.github.com/repos/" +++ GITHUB_REPO +++ "/releases/latest")
  = Some (mkReleaseInfo "v1.5.0" [frp_asset "1.5.0"]) /\
  find_asset_url [frp_asset "1.5.0"] = Some asset_url_1_5_0 /\
  exists l,
    logs (final_world (main release_parse release_gt flat_server
                         (site installed_1_0_0)))
    = logs (site installed_1_0_0)
      ++ (INFO, "New version available: v1.5.0") :: l.
Proof.
  split; [reflexivity|]. split; [reflexivity|].
  exact (update_gate _ release_parse release_gt flat_server
           (site installed_1_0_0)
           (mkReleaseInfo "v1.5.0" [frp_asset "1.5.0"]) asset_url_1_5_0
           eq_refl eq_refl).
Defined.

Lemma fresh_site_paths :
  forall x, In x ["frp"; "frp-temp"; "temp"; "local_version.txt"] ->
            fs_get (root (site [])) (cwd (site []) ++ [x]) = None.
Proof. intros x [<-|[<-|[<-|[<-|[]]]]]; reflexivity. Qed.

Lemma flat_payload_no_temp :
  ~ In "temp" (map fst [("frpc", "frpc 1.5.0"); ("frps", "frps 1.5.0")]).
Proof. intros [H|[H|[]]]; discriminate. Qed.


Lemma upgrade_names_free :
  forall x, In x (map fst [("frpc", "frpc 1.5.0"); ("frps", "frps 1.5.0")]) ->
            x <> "temp" /\
            not_a_dir (alookup x [("frpc", File (Raw "frpc 1.0.0"))]) = true.
Proof. intros x [<-|[<-|[]]]; (split; [discriminate|reflexivity]). Qed.

